(** * wildfires_map: the GeoJSON normalizer ([DataLoader]) and the centroid
    helper of the viewer ([WildfireMap])

    A shallow embedding of [src/utils/DataLoader] (both the JavaScript and the
    TypeScript edition, which differ in [processGeoJSON] only) and of the two
    geometric helpers of [src/components/WildfireMap.ts], followed by the
    properties the specification states about them.

    Conventions of the embedding.
    - A JavaScript value is a [value]: the JSON shapes, [undefined], and the
      three kinds of built-in object the program can obtain from the prototype
      of an object literal.  Objects are finite maps from property names to
      values; an array also carries the named properties that were set on it.
    - Numbers are IEEE 754 binary64 ([PrimFloat.float]), as in JavaScript.
    - Strings are ASCII text; [toLowerCase] and [trim] act on ASCII letters
      and white space.
    - A [TypeError] (reading a property of [undefined] or [null], setting a
      property on a primitive in strict mode, calling what is not a function)
      is the [Throw] outcome of a [result].
    - The clock and the numeric coercions of text, which are the host's and
      not the repository's, are the fields of a [host].
    - The first part works on values as trees; the module [Store] repeats
      [processGeoJSON] over an explicit store of mutable cells, which is where
      the absence of mutation of the caller's document is stated. *)

From Stdlib Require Import ZArith Floats Ascii String.
From stdpp Require Import gmap strings list pretty.

#[local] Set Warnings "-register-all".
#[local] Open Scope string_scope.
#[local] Open Scope list_scope.

(** ** Outcomes *)

Inductive error := TypeError | SyntaxError.

Inductive result (A : Type) :=
| Ok (a : A)
| Throw (e : error).
Arguments Ok {A} a.
Arguments Throw {A} e.

#[global] Instance result_ret : MRet result := λ A a, Ok a.
#[global] Instance result_bind : MBind result := λ A B f m,
  match m with
  | Ok a => f a
  | Throw e => Throw e
  end.

Definition returns {A} (m : result A) : Prop := ∃ a, m = Ok a.

(** ** Values *)

(** Built-in objects reachable through [Object.prototype]: the [Object]
    constructor, [Object.prototype] itself, and its methods. *)
Inductive native :=
| ObjectConstructor
| ObjectPrototype
| ObjectMethod (name : string).

Inductive value :=
| VUndefined
| VNull
| VBool (b : bool)
| VNum (x : float)
| VStr (s : string)
| VArr (elems : list value) (own : gmap string value)
| VObj (props : gmap string value)
| VNative (n : native).

(** An array literal and an object literal. *)
Definition arr (l : list value) : value := VArr l ∅.
Definition obj (l : list (string * value)) : value := VObj (list_to_map l).

Definition num (z : Z) : float :=
  if (z <? 0)%Z then (- PrimFloat.of_uint63 (Uint63.of_Z (- z)))%float
  else PrimFloat.of_uint63 (Uint63.of_Z z).

Definition length_number (n : nat) : float := num (Z.of_nat n).

Inductive jstype :=
| TUndefined | TObject | TBoolean | TNumber | TString | TFunction.

#[global] Instance jstype_eq_dec : EqDecision jstype.
Proof. solve_decision. Defined.

Definition typeof (v : value) : jstype :=
  match v with
  | VUndefined => TUndefined
  | VNull => TObject
  | VBool _ => TBoolean
  | VNum _ => TNumber
  | VStr _ => TString
  | VArr _ _ | VObj _ => TObject
  | VNative ObjectPrototype => TObject
  | VNative _ => TFunction
  end.

(** [ToBoolean]. *)
Definition truthy (v : value) : bool :=
  match v with
  | VUndefined | VNull => false
  | VBool b => b
  | VNum x => negb (PrimFloat.eqb x 0 || PrimFloat.is_nan x)
  | VStr s => negb (bool_decide (s = ""))
  | VArr _ _ | VObj _ | VNative _ => true
  end.

Definition isArray (v : value) : bool :=
  match v with
  | VArr _ _ => true
  | _ => false
  end.

(** [v === s] for a string literal [s]. *)
Definition is_string (s : string) (v : value) : bool :=
  match v with
  | VStr s' => bool_decide (s' = s)
  | _ => false
  end.

(** [l.includes(v)] for an array [l] of string literals. *)
Definition includes (l : list string) (v : value) : bool :=
  match v with
  | VStr s => bool_decide (s ∈ l)
  | _ => false
  end.

(** ** Property access *)

(** [v.k], for the property names the program reads by name (none of them is
    a member of a built-in prototype, [length] apart). *)
Definition get (v : value) (k : string) : result value :=
  match v with
  | VUndefined | VNull => Throw TypeError
  | VBool _ | VNum _ => Ok VUndefined
  | VStr s =>
      Ok (if decide (k = "length") then VNum (length_number (String.length s))
          else VUndefined)
  | VArr l own =>
      Ok (if decide (k = "length") then VNum (length_number (length l))
          else default VUndefined (own !! k))
  | VObj o => Ok (default VUndefined (o !! k))
  | VNative ObjectConstructor =>
      Ok (if decide (k = "length") then VNum 1 else VUndefined)
  | VNative _ => Ok VUndefined
  end.

(** [v[i]] for an index [i]. *)
Definition get_index (v : value) (i : nat) : result value :=
  match v with
  | VUndefined | VNull => Throw TypeError
  | VBool _ | VNum _ | VNative _ => Ok VUndefined
  | VStr s =>
      Ok (match String.get i s with
          | Some c => VStr (String c "")
          | None => VUndefined
          end)
  | VArr l _ => Ok (default VUndefined (l !! i))
  | VObj o => Ok (default VUndefined (o !! pretty i))
  end.

(** [v.k = x] in strict mode, as a functional update of [v]. *)
Definition set_prop (v : value) (k : string) (x : value) : result value :=
  match v with
  | VArr l own => Ok (VArr l (<[k:=x]> own))
  | VObj o => Ok (VObj (<[k:=x]> o))
  | _ => Throw TypeError
  end.

(** ** Strings *)

Definition lower_ascii (c : ascii) : ascii :=
  let n := nat_of_ascii c in
  if (65 <=? n)%nat && (n <=? 90)%nat then ascii_of_nat (n + 32) else c.

(** [s.toLowerCase()]. *)
Fixpoint toLowerCase (s : string) : string :=
  match s with
  | EmptyString => EmptyString
  | String c s' => String (lower_ascii c) (toLowerCase s')
  end.

Definition is_space (c : ascii) : bool :=
  let n := nat_of_ascii c in
  ((9 <=? n)%nat && (n <=? 13)%nat) || (n =? 32)%nat.

Fixpoint trimStart (s : string) : string :=
  match s with
  | EmptyString => EmptyString
  | String c s' => if is_space c then trimStart s' else s
  end.

Fixpoint trimEnd (s : string) : string :=
  match s with
  | EmptyString => EmptyString
  | String c s' =>
      let t := trimEnd s' in
      if is_space c && bool_decide (t = "") then "" else String c t
  end.

(** [s.trim()]. *)
Definition trim (s : string) : string := trimEnd (trimStart s).

(** ** [JSON.parse(JSON.stringify(data))] *)

(** What [JSON.stringify] leaves out of an object and writes as [null] in
    an array: [undefined] and functions. *)
Definition serialized (v : value) : bool :=
  match v with
  | VUndefined => false
  | VNative ObjectPrototype => true
  | VNative _ => false
  | _ => true
  end.

(** The value read back from the text written for a serialized [v]: a
    number that is not finite is written as [null], the sign of zero and the
    named properties of an array are not written. *)
Fixpoint reparsed (v : value) : value :=
  match v with
  | VUndefined | VNull | VNative ObjectConstructor | VNative (ObjectMethod _) =>
      VNull
  | VBool b => VBool b
  | VNum x =>
      if PrimFloat.is_finite x
      then VNum (if PrimFloat.eqb x 0 then 0%float else x)
      else VNull
  | VStr s => VStr s
  | VArr l _ => VArr (map reparsed l) ∅
  | VObj o =>
      VObj (omap (λ x, if serialized x then Some (reparsed x) else None) o)
  | VNative ObjectPrototype => VObj ∅
  end.

Definition JSON_roundtrip (data : value) : result value :=
  if serialized data then Ok (reparsed data) else Throw SyntaxError.

(** ** [isValidGeoJSON] *)

Definition validTypes : list string :=
  [ "FeatureCollection"; "Feature"; "Point"; "LineString"; "Polygon";
    "MultiPoint"; "MultiLineString"; "MultiPolygon"; "GeometryCollection" ].

Definition isValidGeoJSON (data : value) : result bool :=
  if negb (truthy data) || negb (bool_decide (typeof data = TObject))
  then Ok false
  else
    type ← get data "type";
    if negb (truthy type) then Ok false
    else if negb (includes validTypes type) then Ok false
    else if is_string "FeatureCollection" type then
      features ← get data "features";
      Ok (isArray features)
    else Ok true.

(** ** Property standardization *)

(** The keys of [propertyMappings], in the order [Object.keys] lists them. *)
Definition propertyMappings : list (string * string) :=
  [ ("RISK_LEVEL", "risk_level");
    ("riskLevel", "risk_level");
    ("SEVERITY", "severity");
    ("INTENSITY", "intensity");
    ("TEMP", "temperature");
    ("temperature_f", "temperature");
    ("HUMIDITY", "humidity");
    ("humidity_percent", "humidity");
    ("WIND_SPEED", "wind_speed");
    ("windSpeed", "wind_speed");
    ("wind_mph", "wind_speed");
    ("NAME", "name");
    ("area_name", "name");
    ("AREA_NAME", "name");
    ("LAST_UPDATE", "last_update");
    ("lastUpdate", "last_update");
    ("FORECAST_TIME", "forecast_time");
    ("forecastTime", "forecast_time") ].

Definition riskMappings : list (string * string) :=
  [ ("low", "low");
    ("minimal", "low");
    ("green", "low");
    ("moderate", "moderate");
    ("medium", "moderate");
    ("yellow", "moderate");
    ("high", "high");
    ("orange", "high");
    ("very high", "very_high");
    ("very_high", "very_high");
    ("veryhigh", "very_high");
    ("extreme", "extreme");
    ("critical", "extreme");
    ("red", "extreme") ].

Fixpoint assoc (l : list (string * string)) (k : string) : option string :=
  match l with
  | [] => None
  | (k', x) :: l' => if decide (k = k') then Some x else assoc l' k
  end.

(** The members every object literal inherits from [Object.prototype]. *)
Definition inherited (k : string) : value :=
  if decide (k = "constructor") then VNative ObjectConstructor
  else if decide (k = "__proto__") then VNative ObjectPrototype
  else if bool_decide (k ∈ [ "hasOwnProperty"; "isPrototypeOf";
                             "propertyIsEnumerable"; "toLocaleString";
                             "toString"; "valueOf"; "__defineGetter__";
                             "__defineSetter__"; "__lookupGetter__";
                             "__lookupSetter__" ])
  then VNative (ObjectMethod k)
  else VUndefined.

(** [riskMappings[k]]: the table is an object literal, so a key it does
    not own is looked up in [Object.prototype]. *)
Definition riskMappings_get (k : string) : value :=
  match assoc riskMappings k with
  | Some level => VStr level
  | None => inherited k
  end.

Definition standardizeRiskLevel (v : value) : value :=
  match v with
  | VStr s =>
      let lowercaseValue := trim (toLowerCase s) in
      let mapped := riskMappings_get lowercaseValue in
      if truthy mapped then mapped else VStr lowercaseValue
  | _ => v
  end.

(** [{ ...v }]: the own enumerable properties of [v]. *)
Definition spread (v : value) : gmap string value :=
  match v with
  | VObj o => o
  | VArr l own => list_to_map (imap (λ i x, (pretty i, x)) l) ∪ own
  | VStr s =>
      list_to_map (imap (λ i c, (pretty i, VStr (String c ""))) (list_ascii_of_string s))
  | _ => ∅
  end.

(** One turn of [Object.keys(propertyMappings).forEach]. *)
Definition applyMapping (standardized : gmap string value)
    (mapping : string * string) : gmap string value :=
  let '(oldKey, newKey) := mapping in
  match default VUndefined (standardized !! oldKey) with
  | VUndefined => standardized
  | x =>
      let standardized := <[newKey:=x]> standardized in
      if decide (oldKey ≠ newKey) then delete oldKey standardized
      else standardized
  end.

Definition applyMappings (standardized : gmap string value)
    : gmap string value :=
  foldl applyMapping standardized propertyMappings.

(** [if (o.k) o.k = standardizeRiskLevel(o.k)]. *)
Definition standardizeValue (k : string) (o : gmap string value)
    : gmap string value :=
  let x := default VUndefined (o !! k) in
  if truthy x then <[k:=standardizeRiskLevel x]> o else o.

Definition standardizeProperties (properties : value) : gmap string value :=
  let standardized := spread properties in
  let standardized := applyMappings standardized in
  let standardized := standardizeValue "risk_level" standardized in
  let standardized := standardizeValue "severity" standardized in
  standardized.

(** ** The host *)

(** What the program takes from its environment: [now i] is the text
    [new Date().toISOString()] returns when the feature at position [i] of a
    collection is processed; [to_number] is ECMAScript's [ToNumber] on strings
    and objects; [concat] is [+] when an operand is a string or an object. *)
Record host := Host {
  now : nat → string;
  to_number : value → result float;
  concat : value → value → result value
}.

(** [ToNumber], as the operators [*], [-] and [<] apply it. *)
Definition ToNumber (h : host) (v : value) : result float :=
  match v with
  | VUndefined => Ok PrimFloat.nan
  | VNull => Ok 0%float
  | VBool b => Ok (if b then 1%float else 0%float)
  | VNum x => Ok x
  | _ => to_number h v
  end.

Definition numeric_operand (v : value) : bool :=
  match v with
  | VUndefined | VNull | VBool _ | VNum _ => true
  | _ => false
  end.

(** [a + b]. *)
Definition plus (h : host) (a b : value) : result value :=
  if numeric_operand a && numeric_operand b then
    x ← ToNumber h a;
    y ← ToNumber h b;
    Ok (VNum (x + y)%float)
  else concat h a b.

(** ** Indexed elements *)

Fixpoint own_prefix (o : gmap string value) (i n : nat) : list value :=
  match n with
  | O => []
  | S n' =>
      match o !! pretty i with
      | Some x => x :: own_prefix o (S i) n'
      | None => []
      end
  end.

(** [c[0], c[1], ...] up to the first index at which [c] has no element.  A
    loop that reads [c[i]] and [c[i + 1]] and throws on an absent one reads
    no further. *)
Definition entries (c : value) : list value :=
  match c with
  | VArr l _ => l
  | VStr s => (λ ch, VStr (String ch "")) <$> list_ascii_of_string s
  | VObj o => own_prefix o 0 (size o)
  | _ => []
  end.

(** ** Approximate area *)

(** The loop of [calculatePolygonArea] from index [i] on, [rest] being the
    elements from [coordinates[i]] on and [bound] the value of
    [coordinates.length - 1]. *)
Fixpoint area_loop (h : host) (bound : float) (i : nat) (rest : list value)
    (area : float) : result float :=
  if (length_number i <? bound)%float then
    match rest with
    | [] => Throw TypeError
    | a :: rest' =>
        let b := default VUndefined (head rest') in
        a0 ← get_index a 0;
        b1 ← get_index b 1;
        x ← ToNumber h a0;
        y ← ToNumber h b1;
        let area := (area + x * y)%float in
        b0 ← get_index b 0;
        a1 ← get_index a 1;
        x ← ToNumber h b0;
        y ← ToNumber h a1;
        let area := (area - x * y)%float in
        area_loop h bound (S i) rest' area
    end
  else Ok area.

Definition calculatePolygonArea (h : host) (coordinates : value)
    : result float :=
  len ← get coordinates "length";
  n ← ToNumber h len;
  if (n <? 3)%float then Ok 0%float
  else
    area ← area_loop h (n - 1)%float 0 (entries coordinates) 0%float;
    Ok (PrimFloat.abs area / 2)%float.

(** [polygons.reduce((total, polygon) => total + area(polygon[0]), total)]. *)
Fixpoint reduce_areas (h : host) (polygons : list value) (total : float)
    : result float :=
  match polygons with
  | [] => Ok total
  | polygon :: polygons' =>
      ring ← get_index polygon 0;
      area ← calculatePolygonArea h ring;
      reduce_areas h polygons' (total + area)%float
  end.

Definition calculateApproximateArea (h : host) (geometry : value)
    : result float :=
  type ← get geometry "type";
  if is_string "Polygon" type then
    coordinates ← get geometry "coordinates";
    ring ← get_index coordinates 0;
    calculatePolygonArea h ring
  else if is_string "MultiPolygon" type then
    coordinates ← get geometry "coordinates";
    match coordinates with
    | VArr polygons _ => reduce_areas h polygons 0%float
    | _ => Throw TypeError
    end
  else Ok 0%float.

(** ** [processFeature] *)

Definition processFeature (h : host) (i : nat) (feature : value)
    : result value :=
  properties ← get feature "properties";
  feature ←
    (if negb (truthy properties)
     then set_prop feature "properties" (VObj ∅)
     else Ok feature);
  properties ← get feature "properties";
  processed_at ← get properties "processed_at";
  feature ←
    (if negb (truthy processed_at) then
       properties ← set_prop properties "processed_at" (VStr (now h i));
       set_prop feature "properties" properties
     else Ok feature);
  properties ← get feature "properties";
  feature ←
    set_prop feature "properties" (VObj (standardizeProperties properties));
  geometry ← get feature "geometry";
  type ← (if truthy geometry then get geometry "type" else Ok VUndefined);
  if truthy geometry && includes ["Polygon"; "MultiPolygon"] type then
    properties ← get feature "properties";
    area ← calculateApproximateArea h geometry;
    properties ← set_prop properties "calculated_area" (VNum area);
    set_prop feature "properties" properties
  else Ok feature.

(** [features.map((feature) => processFeature(feature))], the feature at
    position [i] being the [i]-th to read the clock. *)
Fixpoint processFeatures (h : host) (i : nat) (features : list value)
    : result (list value) :=
  match features with
  | [] => Ok []
  | feature :: features' =>
      feature ← processFeature h i feature;
      features' ← processFeatures h (S i) features';
      Ok (feature :: features')
  end.

(** ** [processGeoJSON], JavaScript edition *)
Module JS.

Definition processGeoJSON (h : host) (data : value) : result value :=
  processedData ← JSON_roundtrip data;
  type ← get processedData "type";
  if is_string "FeatureCollection" type then
    features ← get processedData "features";
    match features with
    | VArr features _ =>
        features ← processFeatures h 0 features;
        set_prop processedData "features" (arr features)
    | _ => Throw TypeError
    end
  else if is_string "Feature" type then processFeature h 0 processedData
  else Ok processedData.

End JS.

(** ** [processGeoJSON], TypeScript edition *)
Module TS.

Definition processGeoJSON (h : host) (data : value) : result value :=
  processedData ← JSON_roundtrip data;
  type ← get processedData "type";
  if is_string "FeatureCollection" type then
    features ← get processedData "features";
    match features with
    | VArr features _ =>
        features ← processFeatures h 0 features;
        set_prop processedData "features" (arr features)
    | _ => Throw TypeError
    end
  else if is_string "Feature" type then
    processedFeature ← processFeature h 0 processedData;
    Ok (obj [ ("type", VStr "FeatureCollection");
              ("features", arr [processedFeature]) ])
  else
    Ok (obj [ ("type", VStr "FeatureCollection");
              ("features",
               arr [ obj [ ("type", VStr "Feature");
                           ("geometry", processedData);
                           ("properties", VObj ∅) ] ]) ]).

End TS.

(** ** [WildfireMap]: the representative coordinate *)

(** [const [x, y] = p]: [p] is iterated. *)
Definition destructure2 (p : value) : result (value * value) :=
  match p with
  | VArr l _ => Ok (default VUndefined (l !! 0), default VUndefined (l !! 1))
  | VStr s =>
      let item i :=
        match String.get i s with
        | Some c => VStr (String c "")
        | None => VUndefined
        end in
      Ok (item 0, item 1)
  | _ => Throw TypeError
  end.

(** The loop of [getPolygonCentroid] from index [i] on; the state is
    [(x, y, area)]. *)
Fixpoint centroid_loop (h : host) (len : float) (i : nat) (rest : list value)
    (st : float * float * float) : result (float * float * float) :=
  if (length_number i <? len)%float then
    match rest with
    | [] => Throw TypeError
    | a :: rest' =>
        let b := default VUndefined (head rest') in
        let '(x, y, area) := st in
        '(x1, y1) ← destructure2 a;
        '(x2, y2) ← destructure2 b;
        n1 ← ToNumber h x1;
        n2 ← ToNumber h y2;
        n3 ← ToNumber h x2;
        n4 ← ToNumber h y1;
        let cross := (n1 * n2 - n3 * n4)%float in
        let area := (area + cross)%float in
        sx ← plus h x1 x2;
        nx ← ToNumber h sx;
        let x := (x + nx * cross)%float in
        sy ← plus h y1 y2;
        ny ← ToNumber h sy;
        let y := (y + ny * cross)%float in
        centroid_loop h len (S i) rest' (x, y, area)
    end
  else Ok st.

Definition getPolygonCentroid (h : host) (coordinates : value)
    : result value :=
  length ← get coordinates "length";
  n ← ToNumber h length;
  let len := (n - 1)%float in
  '(x, y, area) ←
    centroid_loop h len 0 (entries coordinates) (0, 0, 0)%float;
  let area := (area / 2)%float in
  if (area =? 0)%float then
    first ← get_index coordinates 0;
    c0 ← get_index first 0;
    c1 ← get_index first 1;
    Ok (arr [c0; c1])
  else Ok (arr [VNum (x / (6 * area))%float; VNum (y / (6 * area))%float]).

Definition getFeatureCoordinates (h : host) (feature : value)
    : result value :=
  geometry ← get feature "geometry";
  if negb (truthy geometry) then Ok VNull
  else
    type ← get geometry "type";
    coordinates ← get geometry "coordinates";
    if is_string "Point" type then Ok coordinates
    else if is_string "Polygon" type then
      ring ← get_index coordinates 0;
      getPolygonCentroid h ring
    else if is_string "MultiPolygon" type then
      polygon ← get_index coordinates 0;
      ring ← get_index polygon 0;
      getPolygonCentroid h ring
    else Ok VNull.

(** ** The same program over a store of mutable cells *)

(** [processGeoJSON] and [processFeature] assign to properties of the
    objects they are given.  Here every object and array is a cell of a
    store, a variable holds a primitive or a reference to a cell, and an
    assignment overwrites the cell, so that two references to one cell see
    each other's assignments. *)
Module Store.

Abbreviation loc := nat (only parsing).

Inductive sval :=
| SUndefined
| SNull
| SBool (b : bool)
| SNum (x : float)
| SStr (s : string)
| SRef (l : loc)
| SNative (n : native).

Inductive cell :=
| CArr (elems : list sval) (own : gmap string sval)
| CObj (props : gmap string sval).

Abbreviation store := (list cell) (only parsing).

(** A computation reads and writes the store and returns or throws; the
    store survives a throw. *)
Definition M (A : Type) : Type := store → result A * store.

#[global] Instance M_ret : MRet M := λ A a st, (Ok a, st).
#[global] Instance M_bind : MBind M := λ A B f m st,
  match m st with
  | (Ok a, st') => f a st'
  | (Throw e, st') => (Throw e, st')
  end.

Definition lift {A} (r : result A) : M A := λ st, (r, st).

Definition throw {A} (e : error) : M A := lift (Throw e).

Definition alloc (c : cell) : M sval :=
  λ st, (Ok (SRef (length st)), st ++ [c]).

Definition read (l : loc) : M cell :=
  λ st,
    match st !! l with
    | Some c => (Ok c, st)
    | None => (Throw TypeError, st)
    end.

Definition write (l : loc) (c : cell) : M unit :=
  λ st, (Ok (), <[l:=c]> st).

Definition truthy (v : sval) : bool :=
  match v with
  | SUndefined | SNull => false
  | SBool b => b
  | SNum x => negb (PrimFloat.eqb x 0 || PrimFloat.is_nan x)
  | SStr s => negb (bool_decide (s = ""))
  | SRef _ | SNative _ => true
  end.

Definition is_string (s : string) (v : sval) : bool :=
  match v with
  | SStr s' => bool_decide (s' = s)
  | _ => false
  end.

Definition includes (l : list string) (v : sval) : bool :=
  match v with
  | SStr s => bool_decide (s ∈ l)
  | _ => false
  end.

Definition get (v : sval) (k : string) : M sval :=
  match v with
  | SUndefined | SNull => throw TypeError
  | SBool _ | SNum _ => mret SUndefined
  | SStr s =>
      mret (if decide (k = "length")
            then SNum (length_number (String.length s))
            else SUndefined)
  | SRef l =>
      c ← read l;
      match c with
      | CArr elems own =>
          mret (if decide (k = "length")
                then SNum (length_number (length elems))
                else default SUndefined (own !! k))
      | CObj props => mret (default SUndefined (props !! k))
      end
  | SNative ObjectConstructor =>
      mret (if decide (k = "length") then SNum 1 else SUndefined)
  | SNative _ => mret SUndefined
  end.

Definition set_prop (v : sval) (k : string) (x : sval) : M unit :=
  match v with
  | SRef l =>
      c ← read l;
      match c with
      | CArr elems own => write l (CArr elems (<[k:=x]> own))
      | CObj props => write l (CObj (<[k:=x]> props))
      end
  | _ => throw TypeError
  end.

(** The tree a value of the store stands for; [None] when the cells
    reachable from it are nested deeper than [fuel]. *)
Fixpoint reify (fuel : nat) (st : store) (v : sval) : option value :=
  match v with
  | SUndefined => Some VUndefined
  | SNull => Some VNull
  | SBool b => Some (VBool b)
  | SNum x => Some (VNum x)
  | SStr s => Some (VStr s)
  | SNative n => Some (VNative n)
  | SRef l =>
      match fuel with
      | O => None
      | S fuel' =>
          let all (m : gmap string sval) : option (gmap string value) :=
            let m' := reify fuel' st <$> m in
            if bool_decide (map_Forall (λ _ o, is_Some o) m')
            then Some (omap id m') else None in
          match st !! l with
          | Some (CArr elems own) =>
              elems ← mapM (reify fuel' st) elems;
              own ← all own;
              Some (VArr elems own)
          | Some (CObj props) => VObj <$> all props
          | None => None
          end
      end
  end.

(** The tree of [v]; a store with a cycle through [v] has none, and the
    nesting of a store without one is at most the number of its cells. *)
Definition tree_of (v : sval) : M value :=
  λ st,
    match reify (S (length st)) st v with
    | Some t => (Ok t, st)
    | None => (Throw TypeError, st)
    end.

(** [JSON.parse]: the cells of a tree are allocated, those of the elements
    before the cell of the array or object that holds them. *)
Fixpoint parse (t : value) (st : store) : sval * store :=
  let parse_own (m : gmap string value) (st : store) :=
    map_fold (λ k x (acc : gmap string sval * store),
                let '(y, st) := parse x acc.2 in (<[k:=y]> acc.1, st))
             (∅, st) m in
  match t with
  | VUndefined => (SUndefined, st)
  | VNull => (SNull, st)
  | VBool b => (SBool b, st)
  | VNum x => (SNum x, st)
  | VStr s => (SStr s, st)
  | VNative n => (SNative n, st)
  | VArr elems own =>
      let '(elems, st) :=
        (fix go (l : list value) (st : store) : list sval * store :=
           match l with
           | [] => ([], st)
           | x :: l' =>
               let '(y, st) := parse x st in
               let '(ys, st) := go l' st in
               (y :: ys, st)
           end) elems st in
      let '(own, st) := parse_own own st in
      (SRef (length st), st ++ [CArr elems own])
  | VObj props =>
      let '(props, st) := parse_own props st in
      (SRef (length st), st ++ [CObj props])
  end.

Definition JSON_parse (t : value) : M sval :=
  λ st, let '(v, st') := parse t st in (Ok v, st').

(** [JSON.parse(JSON.stringify(data))]. *)
Definition JSON_roundtrip (data : sval) : M sval :=
  t ← tree_of data;
  if serialized t then JSON_parse (reparsed t) else throw SyntaxError.

(** *** Property standardization *)

(** A primitive or built-in object of the first part as a value of the
    store. *)
Definition prim (v : value) : sval :=
  match v with
  | VNull => SNull
  | VBool b => SBool b
  | VNum x => SNum x
  | VStr s => SStr s
  | VNative n => SNative n
  | _ => SUndefined
  end.

Definition standardizeRiskLevel (v : sval) : sval :=
  match v with
  | SStr s =>
      let lowercaseValue := trim (toLowerCase s) in
      let mapped := prim (riskMappings_get lowercaseValue) in
      if truthy mapped then mapped else SStr lowercaseValue
  | _ => v
  end.

Definition spread (v : sval) : M (gmap string sval) :=
  match v with
  | SRef l =>
      c ← read l;
      match c with
      | CObj props => mret props
      | CArr elems own =>
          mret (list_to_map (imap (λ i x, (pretty i, x)) elems) ∪ own)
      end
  | SStr s =>
      mret (list_to_map
              (imap (λ i c, (pretty i, SStr (String c "")))
                    (list_ascii_of_string s)))
  | _ => mret ∅
  end.

Definition applyMapping (standardized : gmap string sval)
    (mapping : string * string) : gmap string sval :=
  let '(oldKey, newKey) := mapping in
  match default SUndefined (standardized !! oldKey) with
  | SUndefined => standardized
  | x =>
      let standardized := <[newKey:=x]> standardized in
      if decide (oldKey ≠ newKey) then delete oldKey standardized
      else standardized
  end.

Definition standardizeValue (k : string) (o : gmap string sval)
    : gmap string sval :=
  let x := default SUndefined (o !! k) in
  if truthy x then <[k:=standardizeRiskLevel x]> o else o.

Definition standardizeProperties (properties : sval) : M sval :=
  standardized ← spread properties;
  let standardized := foldl applyMapping standardized propertyMappings in
  let standardized := standardizeValue "risk_level" standardized in
  let standardized := standardizeValue "severity" standardized in
  alloc (CObj standardized).

(** [calculateApproximateArea] only reads: it is run on the tree of the
    geometry. *)
Definition area_of_tree : host → value → result float :=
  calculateApproximateArea.

Definition calculateApproximateArea (h : host) (geometry : sval) : M float :=
  t ← tree_of geometry;
  lift (area_of_tree h t).

(** *** [processFeature] and [processGeoJSON] *)

Definition processFeature (h : host) (i : nat) (feature : sval) : M sval :=
  properties ← get feature "properties";
  (if negb (truthy properties) then
     o ← alloc (CObj ∅);
     set_prop feature "properties" o
   else mret ());;
  properties ← get feature "properties";
  processed_at ← get properties "processed_at";
  (if negb (truthy processed_at)
   then set_prop properties "processed_at" (SStr (now h i))
   else mret ());;
  properties ← get feature "properties";
  standardized ← standardizeProperties properties;
  set_prop feature "properties" standardized;;
  geometry ← get feature "geometry";
  type ← (if truthy geometry then get geometry "type" else mret SUndefined);
  (if truthy geometry && includes ["Polygon"; "MultiPolygon"] type then
     properties ← get feature "properties";
     area ← calculateApproximateArea h geometry;
     set_prop properties "calculated_area" (SNum area)
   else mret ());;
  mret feature.

Fixpoint processFeatures (h : host) (i : nat) (features : list sval)
    : M (list sval) :=
  match features with
  | [] => mret []
  | feature :: features' =>
      feature ← processFeature h i feature;
      features' ← processFeatures h (S i) features';
      mret (feature :: features')
  end.

(** [processedData.features.map(...)]: the elements of the array that
    [features] refers to, and a new array for the results. *)
Definition map_features (h : host) (features : sval) : M sval :=
  match features with
  | SRef l =>
      c ← read l;
      match c with
      | CArr elems _ =>
          elems ← processFeatures h 0 elems;
          alloc (CArr elems ∅)
      | CObj _ => throw TypeError
      end
  | _ => throw TypeError
  end.

Definition new_object (l : list (string * sval)) : M sval :=
  alloc (CObj (list_to_map l)).

Module JS.

Definition processGeoJSON (h : host) (data : sval) : M sval :=
  processedData ← JSON_roundtrip data;
  type ← get processedData "type";
  if is_string "FeatureCollection" type then
    features ← get processedData "features";
    features ← map_features h features;
    set_prop processedData "features" features;;
    mret processedData
  else if is_string "Feature" type then processFeature h 0 processedData
  else mret processedData.

End JS.

Module TS.

Definition processGeoJSON (h : host) (data : sval) : M sval :=
  processedData ← JSON_roundtrip data;
  type ← get processedData "type";
  if is_string "FeatureCollection" type then
    features ← get processedData "features";
    features ← map_features h features;
    set_prop processedData "features" features;;
    mret processedData
  else if is_string "Feature" type then
    processedFeature ← processFeature h 0 processedData;
    features ← alloc (CArr [processedFeature] ∅);
    new_object [ ("type", SStr "FeatureCollection");
                 ("features", features) ]
  else
    properties ← alloc (CObj ∅);
    feature ← new_object [ ("type", SStr "Feature");
                           ("geometry", processedData);
                           ("properties", properties) ];
    features ← alloc (CArr [feature] ∅);
    new_object [ ("type", SStr "FeatureCollection");
                 ("features", features) ].

End TS.

End Store.

(** ** Vocabulary of the statements *)

(** A host for the closed examples; none of them reaches its coercions. *)
Definition example_host : host :=
  {| now := λ _, "2024-01-01T00:00:00.000Z";
     to_number := λ _, Ok PrimFloat.nan;
     concat := λ _ _, Ok (VStr "") |}.

(** The host [h] at a later time. *)
Definition with_clock (h : host) (clock : nat → string) : host :=
  {| now := clock; to_number := to_number h; concat := concat h |}.

(** *** Documents *)

Definition is_object (v : value) : Prop := typeof v = TObject ∧ v ≠ VNull.

(** The named own properties of an object or an array. *)
Definition props_of (v : value) : gmap string value :=
  match v with
  | VObj o => o
  | VArr _ own => own
  | _ => ∅
  end.

(** [v] with [props] for its named own properties. *)
Definition with_props (v : value) (props : gmap string value) : value :=
  match v with
  | VObj _ => VObj props
  | VArr l _ => VArr l props
  | _ => v
  end.

(** What a property can be assigned to: an object or an array. *)
Definition assignable (v : value) : bool :=
  match v with
  | VObj _ | VArr _ _ => true
  | _ => false
  end.

(** The own property [k] of [v], when [v] has it. *)
Definition field (v : value) (k : string) : option value := props_of v !! k.

Definition valid_type (t : value) : Prop := ∃ s, t = VStr s ∧ s ∈ validTypes.

(** The four ways a document fails validation. *)
Definition rejected (data : value) : Prop :=
  ¬ is_object data
  ∨ field data "type" = None
  ∨ (∃ t, field data "type" = Some t ∧ ¬ valid_type t)
  ∨ (field data "type" = Some (VStr "FeatureCollection")
     ∧ ¬ ∃ l own, field data "features" = Some (VArr l own)).

(** *** Renaming *)

(** [m[k] !== undefined]. *)
Definition present (m : gmap string value) (k : string) : bool :=
  match m !! k with
  | Some VUndefined | None => false
  | Some _ => true
  end.

Definition agree_except (t : string) (X Y : gmap string value) : Prop :=
  ∀ k, k ≠ t → X !! k = Y !! k.

(** A properties object with both keys that rename to [risk_level]. *)
Definition both_risk_levels : gmap string value :=
  list_to_map [("RISK_LEVEL", VStr "high"); ("riskLevel", VStr "low")].

(** *** Geometry *)

Definition point (x y : float) : value := arr [VNum x; VNum y].

Definition ring (l : list (float * float)) : value :=
  arr ((λ p, point p.1 p.2) <$> l).

Definition square : value :=
  ring [(0, 0); (2, 0); (2, 2); (0, 2); (0, 0)]%float.

Definition unit_square : value :=
  ring [(0, 0); (1, 0); (1, 1); (0, 1); (0, 0)]%float.

(** *** Features *)

(** The [properties] of a feature after the first two statements of
    [processFeature]: an object is supplied when there is none, and the
    time when there is no [processed_at]. *)
Definition stamp (h : host) (i : nat) (properties : value) : result value :=
  let properties := if truthy properties then properties else VObj ∅ in
  processed_at ← get properties "processed_at";
  if truthy processed_at then Ok properties
  else set_prop properties "processed_at" (VStr (now h i)).

(** [geometry && ['Polygon', 'MultiPolygon'].includes(geometry.type)]. *)
Definition polygonal (geometry : value) : bool :=
  truthy geometry
  && match get geometry "type" with
     | Ok type => includes ["Polygon"; "MultiPolygon"] type
     | Throw _ => false
     end.

(** *** Areas of a MultiPolygon *)

(** The areas of the outer rings of the polygons, in order. *)
Fixpoint outer_ring_areas (h : host) (polygons : list value)
    : result (list float) :=
  match polygons with
  | [] => Ok []
  | polygon :: polygons' =>
      ring ← get_index polygon 0;
      area ← calculatePolygonArea h ring;
      areas ← outer_ring_areas h polygons';
      Ok (area :: areas)
  end.

(** Their sum, from zero and from left to right. *)
Definition sum_areas (areas : list float) : float :=
  foldl PrimFloat.add 0%float areas.

Definition two_squares : value :=
  obj [ ("type", VStr "Feature");
        ("geometry",
         obj [ ("type", VStr "MultiPolygon");
               ("coordinates", arr [arr [square]; arr [unit_square]]) ]);
        ("properties", obj []) ].

(** *** Degenerate geometries *)

Definition empty_polygon : value :=
  obj [ ("type", VStr "Feature");
        ("geometry", obj [("type", VStr "Polygon"); ("coordinates", arr [])]);
        ("properties", obj []) ].

Definition empty_multipolygon : value :=
  obj [ ("type", VStr "Feature");
        ("geometry",
         obj [("type", VStr "MultiPolygon"); ("coordinates", arr [])]);
        ("properties", obj []) ].

(** What [processFeature] returns for [empty_multipolygon] at
    [example_host]. *)
Definition empty_multipolygon_processed : value :=
  obj [ ("type", VStr "Feature");
        ("geometry",
         obj [("type", VStr "MultiPolygon"); ("coordinates", arr [])]);
        ("properties",
         obj [ ("processed_at", VStr (now example_host 0));
               ("calculated_area", VNum 0) ]) ].

Definition null_feature : value :=
  obj [ ("type", VStr "FeatureCollection"); ("features", arr [VNull]) ].

(** *** Collections *)

(** An object document whose [type] is [FeatureCollection]. *)
Definition is_collection (data : value) : bool :=
  match data with
  | VObj o => is_string "FeatureCollection" (default VUndefined (o !! "type"))
  | _ => false
  end.

(** An object document whose [type] is [Feature]. *)
Definition is_feature (data : value) : bool :=
  match data with
  | VObj o => is_string "Feature" (default VUndefined (o !! "type"))
  | _ => false
  end.

(** The collection that the TypeScript edition makes for a bare geometry:
    one feature, with the geometry and empty properties. *)
Definition wrapped (geometry : value) : value :=
  obj [ ("type", VStr "FeatureCollection");
        ("features",
         arr [ obj [ ("type", VStr "Feature");
                     ("geometry", geometry);
                     ("properties", VObj ∅) ] ]) ].

Definition polygon_feature : value :=
  obj [ ("type", VStr "Feature");
        ("geometry",
         obj [("type", VStr "Polygon"); ("coordinates", arr [square])]);
        ("properties", obj [("RISK_LEVEL", VStr "RED")]) ].

Definition point_feature : value :=
  obj [ ("type", VStr "Feature");
        ("geometry",
         obj [("type", VStr "Point"); ("coordinates", point 1 2)]) ].

Definition sample_collection : value :=
  obj [ ("type", VStr "FeatureCollection");
        ("features", arr [polygon_feature; point_feature]) ].

(** What [processGeoJSON] returns for [sample_collection] at
    [example_host]. *)
Definition sample_collection_processed : value :=
  obj [ ("type", VStr "FeatureCollection");
        ("features",
         arr [ obj [ ("type", VStr "Feature");
                     ("geometry",
                      obj [ ("type", VStr "Polygon");
                            ("coordinates", arr [square]) ]);
                     ("properties",
                      obj [ ("processed_at", VStr (now example_host 0));
                            ("risk_level", VStr "extreme");
                            ("calculated_area", VNum 4) ]) ];
               obj [ ("type", VStr "Feature");
                     ("geometry",
                      obj [ ("type", VStr "Point");
                            ("coordinates", point 1 2) ]);
                     ("properties",
                      obj [ ("processed_at", VStr (now example_host 1)) ]) ]
             ]) ].

(** What the TypeScript [processGeoJSON] returns for [point_feature] at
    [example_host]. *)
Definition point_feature_wrapped : value :=
  obj [ ("type", VStr "FeatureCollection");
        ("features",
         arr [ obj [ ("type", VStr "Feature");
                     ("geometry",
                      obj [ ("type", VStr "Point");
                            ("coordinates", point 1 2) ]);
                     ("properties",
                      obj [ ("processed_at", VStr (now example_host 0)) ]) ]
             ]) ].

(** *** Induction on values *)

Fixpoint vsize (v : value) : nat :=
  match v with
  | VArr l own =>
      S (sum_list (vsize <$> l) + map_fold (λ _ x n, vsize x + n) 0 own)
  | VObj o => S (map_fold (λ _ x n, vsize x + n) 0 o)
  | _ => 1
  end.

(** A value that [JSON.parse(JSON.stringify(v))] gives back as it is. *)
Definition stable (v : value) : Prop := reparsed v = v.

(** *** Time stamps *)

(** [feature.properties.processed_at]. *)
Definition processed_at (feature : value) : result value :=
  properties ← get feature "properties";
  get properties "processed_at".

(** The first character of [s] is a decimal digit. *)
Definition digit_head (s : string) : bool :=
  match s with
  | String c _ => (48 <=? nat_of_ascii c)%nat && (nat_of_ascii c <=? 57)%nat
  | EmptyString => false
  end.

(** A document with a time stamp on one of its two features, and what
    [processGeoJSON] returns for it at [example_host], and for that in turn
    at a later time. *)
Definition later_host : host :=
  with_clock example_host (λ _, "2025-06-30T12:00:00.000Z").

Definition stamped_collection : value :=
  obj [ ("type", VStr "FeatureCollection");
        ("features",
         arr [ obj [ ("type", VStr "Feature");
                     ("properties",
                      obj [("processed_at", VStr "2020-02-02")]) ];
               point_feature ]) ].

Definition stamped_collection_once : value :=
  obj [ ("type", VStr "FeatureCollection");
        ("features",
         arr [ obj [ ("type", VStr "Feature");
                     ("properties",
                      obj [("processed_at", VStr "2020-02-02")]) ];
               obj [ ("type", VStr "Feature");
                     ("geometry",
                      obj [ ("type", VStr "Point");
                            ("coordinates", point 1 2) ]);
                     ("properties",
                      obj [ ("processed_at", VStr (now example_host 1)) ]) ]
             ]) ].

(** *** The store *)

Module StoreVocabulary.
Import Store.

(** A value that does not refer to one of the first [n] cells. *)
Definition fresh (n : nat) (v : sval) : Prop :=
  match v with
  | SRef l => (n ≤ l)%nat
  | _ => True
  end.

Definition fresh_cell (n : nat) (c : cell) : Prop :=
  match c with
  | CArr elems own => Forall (fresh n) elems ∧ map_Forall (λ _, fresh n) own
  | CObj props => map_Forall (λ _, fresh n) props
  end.

(** [st] is [st0] followed by cells that do not refer to those of [st0]. *)
Definition extends (st0 st : store) : Prop :=
  ∃ new, st = st0 ++ new ∧ Forall (fresh_cell (length st0)) new.

(** From a store that extends [st0], the computation [m] leaves a store
    that extends [st0], and a result that satisfies [Q] when it returns. *)
Definition keeps {A} (st0 : store) (m : M A) (Q : A → Prop) : Prop :=
  ∀ st, extends st0 st →
    extends st0 (m st).2 ∧ ∀ a, (m st).1 = Ok a → Q a.

(** The store after [m], and the tree that [run_store] reads from it. *)
Definition store_after {A} (m : M A) (st : store) : store := (m st).2.

(** The named properties and the elements of [JSON.parse], as [parse] has
    them. *)
Definition parse_own (m : gmap string value) (st : store)
    : gmap string sval * store :=
  map_fold (λ k x (acc : gmap string sval * store),
              let '(y, st) := parse x acc.2 in (<[k:=y]> acc.1, st))
           (∅, st) m.

Fixpoint parse_list (l : list value) (st : store) : list sval * store :=
  match l with
  | [] => ([], st)
  | x :: l' =>
      let '(y, st) := parse x st in
      let '(ys, st) := parse_list l' st in
      (y :: ys, st)
  end.

(** The document [d] is parsed into an empty store, [f] is called on it
    and the tree of what it returns is read. *)
Definition run_store (f : host → sval → M sval) (h : host) (d : value)
    : result value :=
  let '(v, st) := parse d [] in
  match f h v st with
  | (Ok r, st') =>
      match reify (S (length st')) st' r with
      | Some t => Ok t
      | None => Throw TypeError
      end
  | (Throw e, _) => Throw e
  end.

(** What [JSON.parse] builds refers to the cells it allocates, and not to
    those of [st0]. *)
Definition parses_fresh (st0 : store) (t : value) : Prop :=
  ∀ st, extends st0 st →
    extends st0 (parse t st).2 ∧ fresh (length st0) (parse t st).1.

(** The trees of the named properties of a cell, as [reify] reads
    them. *)
Definition reify_all (fuel : nat) (st : store) (m : gmap string sval)
    : option (gmap string value) :=
  let m' := reify fuel st <$> m in
  if bool_decide (map_Forall (λ _ o, is_Some o) m')
  then Some (omap id m') else None.

End StoreVocabulary.

(** ** Vocabulary of further properties *)

(** A text that does not begin with white space. *)
Definition no_leading_space (s : string) : Prop :=
  match s with
  | String c _ => is_space c = false
  | EmptyString => True
  end.

(** A binary64 number that is not below zero: a zero of either sign, a
    positive number, plus infinity, or not a number. *)
Definition not_negative (x : spec_float) : Prop :=
  match x with
  | S754_infinity true | S754_finite true _ _ => False
  | _ => True
  end.

(** ** [loadGeoJSON] and the cache *)

(** What the network gives for a request: [fetch] rejects, or resolves to
    a response with its [ok] and its [status], whose [json()] rejects or
    resolves to a document. *)
Inductive body :=
| BadBody (message : string)
| Body (data : value).

Inductive fetched :=
| NetworkError (message : string)
| Response (ok : bool) (status : nat) (content : body).

(** [respond n url] is the answer to the request number [n], made for
    [url]; [message e] is the [message] of an error that the engine
    throws. *)
Record web := Web {
  respond : nat → string → fetched;
  message : error → string
}.

(** A [DataLoader]: its cache, and what it has done that is seen from
    outside, the requests it has made and the messages it has given to
    [console.error], the latest first. *)
Record loader := Loader {
  cache : gmap string value;
  requests : list string;
  logged : list string
}.

(** [new DataLoader()]. *)
Definition new_loader : loader := Loader ∅ [] [].

(** How the promise of [loadGeoJSON] is settled. *)
Inductive outcome :=
| Resolved (data : value)
| Rejected (message : string).

(** The [catch] clause: the error is logged and an [Error] is thrown that
    names the URL. *)
Definition failed (url msg : string) (s : loader) : outcome * loader :=
  (Rejected ("Failed to load data from " +:+ url +:+ ": " +:+ msg),
   Loader (cache s) (requests s) (msg :: logged s)).

(** [loadGeoJSON] up to [await fetch(url)]: the cache is looked up and,
    when it has no entry, a request is made. *)
Inductive started :=
| Hit (data : value)
| Pending (number : nat).

Definition start (url : string) (s : loader) : started * loader :=
  match cache s !! url with
  | Some data => (Hit data, s)
  | None =>
      (Pending (length (requests s)),
       Loader (cache s) (url :: requests s) (logged s))
  end.

(** [loadGeoJSON] from the answer on; [process] is [processGeoJSON] at
    the time of the call. *)
Definition settle (process : value → result value) (w : web)
    (url : string) (answer : fetched) (s : loader) : outcome * loader :=
  match answer with
  | NetworkError msg => failed url msg s
  | Response ok status content =>
      if negb ok
      then failed url ("HTTP error! status: " +:+ pretty status) s
      else
        match content with
        | BadBody msg => failed url msg s
        | Body data =>
            match isValidGeoJSON data with
            | Throw e => failed url (message w e) s
            | Ok valid =>
                if negb valid then failed url "Invalid GeoJSON format" s
                else
                  match process data with
                  | Throw e => failed url (message w e) s
                  | Ok processedData =>
                      (Resolved processedData,
                       Loader (<[url:=processedData]> (cache s))
                              (requests s) (logged s))
                  end
            end
        end
  end.

(** A call of [loadGeoJSON] that no other call of the loader overlaps. *)
Definition loadGeoJSON (process : value → result value) (w : web)
    (url : string) (s : loader) : outcome * loader :=
  match start url s with
  | (Hit data, s) => (Resolved data, s)
  | (Pending n, s) => settle process w url (respond w n url) s
  end.

Definition clearCache (s : loader) : loader :=
  Loader ∅ (requests s) (logged s).


(** The states of a loader that is used by calls that do not overlap, in
    the TypeScript edition, each call at its own time. *)
Inductive TS_reachable : loader → Prop :=
| reach_new : TS_reachable new_loader
| reach_load h w url s :
    TS_reachable s →
    TS_reachable (loadGeoJSON (TS.processGeoJSON h) w url s).2
| reach_clear s : TS_reachable s → TS_reachable (clearCache s).

(** [loads s s']: calls of [loadGeoJSON] that do not overlap lead from
    [s] to [s'], each call with the [processGeoJSON] and the network of
    its own time; [clearCache] is not called. *)
Inductive loads : loader → loader → Prop :=
| loads_none s : loads s s
| loads_call process w url s s' :
    loads s s' → loads s (loadGeoJSON process w url s').2.

(** A network that has one document, [sample_collection], at one URL. *)
Definition example_web : web :=
  {| respond := λ _ url,
       if decide (url = "./wildfire_forecast_15min.geojson")
       then Response true 200 (Body sample_collection)
       else Response false 404 (BadBody "");
     message := λ _, "TypeError" |}.

(** ** [UIControls]: the keyboard *)

(** What the [keydown] listener calls. *)
Inductive command :=
| FitToBounds
| ClosePopup
| ShowHelp.

(** The listener of [setupKeyboardShortcuts], for the [tagName] of the
    target of the event and its [key]. *)
Definition onKeydown (tagName : value) (key : string) : option command :=
  if is_string "INPUT" tagName || is_string "TEXTAREA" tagName then None
  else
    let k := toLowerCase key in
    if decide (k = "f") then Some FitToBounds
    else if decide (k = "escape") then Some ClosePopup
    else if decide (k = "?") then Some ShowHelp
    else None.

(** ** [WildfireMap]: the names in a popup *)

(** [\w]. *)
Definition is_word (c : ascii) : bool :=
  let n := nat_of_ascii c in
  ((48 <=? n)%nat && (n <=? 57)%nat)
  || ((65 <=? n)%nat && (n <=? 90)%nat)
  || (n =? 95)%nat
  || ((97 <=? n)%nat && (n <=? 122)%nat).

(** [l.toUpperCase()] for a character that [\w] matches. *)
Definition upper_ascii (c : ascii) : ascii :=
  let n := nat_of_ascii c in
  if (97 <=? n)%nat && (n <=? 122)%nat then ascii_of_nat (n - 32) else c.

(** [s.replace(/_/g, ' ')]. *)
Fixpoint underscores_to_spaces (s : string) : string :=
  match s with
  | EmptyString => EmptyString
  | String c s' =>
      String (if Ascii.eqb c "_" then " "%char else c)
             (underscores_to_spaces s')
  end.

(** [s.replace(/\b\w/g, (l) => l.toUpperCase())]: a character that [\w]
    matches is replaced when it is the first one or the one before it is
    not matched by [\w]; [boundary] tells which. *)
Fixpoint capitalize (boundary : bool) (s : string) : string :=
  match s with
  | EmptyString => EmptyString
  | String c s' =>
      String (if boundary && is_word c then upper_ascii c else c)
             (capitalize (negb (is_word c)) s')
  end.

(** The [displayKey] of [onEachFeature]. *)
Definition displayKey (key : string) : string :=
  capitalize true (underscores_to_spaces key).

(** No character of [s] is an underscore. *)
Fixpoint no_underscore (s : string) : bool :=
  match s with
  | EmptyString => true
  | String c s' => negb (Ascii.eqb c "_") && no_underscore s'
  end.

(** ** The cells of a document *)

Module StoreReach.
Import Store.

(** The values that a cell holds: the elements and the named properties
    of an array, the properties of an object. *)
Definition holds (c : cell) (v : sval) : Prop :=
  match c with
  | CArr elems own => v ∈ elems ∨ ∃ k : string, own !! k = Some v
  | CObj props => ∃ k : string, props !! k = Some v
  end.

(** [reachable st v l]: the cell [l] is the one [v] refers to, or is
    reached from it through elements and properties, in the store [st]. *)
Inductive reachable (st : store) : sval → loc → Prop :=
| reach_cell l : reachable st (SRef l) l
| reach_member l c v l' :
    st !! l = Some c → holds c v → reachable st v l' →
    reachable st (SRef l) l'.

End StoreReach.

(** * Properties *)

(** ** Sequencing and property access *)

#[local] Arguments applyMapping : simpl never.
#[local] Arguments standardizeProperties : simpl never.
#[local] Arguments calculateApproximateArea : simpl never.
#[local] Arguments processFeature : simpl never.
#[local] Arguments processFeatures : simpl never.

Lemma bind_Ok {A B} (a : A) (f : A → result B) : (Ok a ≫= f) = f a.
Proof. done. Qed.

Lemma bind_Throw {A B} (e : error) (f : A → result B) :
  (Throw e ≫= f) = Throw e.
Proof. done. Qed.

Lemma Ok_inj {A} (x y : A) : Ok x = Ok y → x = y.
Proof. intros H. congruence. Qed.

Lemma Ok_VObj_inj (p q : gmap string value) :
  Ok (VObj p) = Ok (VObj q) → p = q.
Proof. intros H. congruence. Qed.

Lemma get_assignable v k :
  assignable v = true → k ≠ "length" →
  get v k = Ok (default VUndefined (props_of v !! k)).
Proof.
  intros Hv Hk. destruct v; try done. simpl. by rewrite decide_False.
Qed.

Lemma set_prop_assignable v k x :
  assignable v = true →
  set_prop v k x = Ok (with_props v (<[k:=x]> (props_of v))).
Proof. by destruct v. Qed.

Lemma set_prop_not_assignable v k x :
  assignable v = false → set_prop v k x = Throw TypeError.
Proof. by destruct v. Qed.

Lemma assignable_with_props v props :
  assignable (with_props v props) = assignable v.
Proof. by destruct v. Qed.

Lemma props_of_with_props v props :
  assignable v = true → props_of (with_props v props) = props.
Proof. by destruct v. Qed.

Lemma with_props_with_props v props props' :
  with_props (with_props v props) props' = with_props v props'.
Proof. by destruct v. Qed.

Lemma truthy_get_type g :
  truthy g = true → ∃ t, get g "type" = Ok t.
Proof. destruct g as [| | | | | | |[]]; try discriminate; simpl; eauto. Qed.

(** The named properties of a parsed object. *)
Lemma lookup_reparsed o k :
  props_of (reparsed (VObj o)) !! k =
    o !! k ≫= λ x, if serialized x then Some (reparsed x) else None.
Proof. cbn [reparsed props_of]. by rewrite lookup_omap. Qed.

Ltac js :=
  repeat first
    [ rewrite bind_Ok | rewrite bind_Throw
    | rewrite get_assignable by (rewrite ?assignable_with_props; done)
    | rewrite set_prop_assignable by (rewrite ?assignable_with_props; done)
    | rewrite props_of_with_props by done
    | rewrite with_props_with_props
    | rewrite lookup_insert_eq
    | rewrite insert_insert_eq
    | progress cbn [default from_option id negb andb props_of with_props] ].


(** ** Validation *)

Lemma get_field data k :
  is_object data → k ≠ "length" →
  get data k = Ok (default VUndefined (field data k)).
Proof.
  intros [Ht Hn] Hk.
  destruct data as [| | | | |l own|o|[]]; try discriminate; try done.
  simpl. by rewrite decide_False.
Qed.

Lemma valid_type_truthy t : valid_type t → truthy t = true.
Proof.
  intros (s & -> & Hs). simpl. apply negb_true_iff, bool_decide_eq_false.
  intros ->. by apply (bool_decide_eq_false_1 ("" ∈ validTypes)).
Qed.

Lemma includes_valid_type t : includes validTypes t = true ↔ valid_type t.
Proof.
  split.
  - destruct t; try discriminate. simpl.
    intros H%bool_decide_eq_true. by eexists.
  - intros (s & -> & Hs). simpl. by apply bool_decide_eq_true.
Qed.

Lemma isValidGeoJSON_cases data :
  (isValidGeoJSON data = Ok false ∧ rejected data)
  ∨ (isValidGeoJSON data = Ok true ∧ ¬ rejected data).
Proof.
  destruct (decide (truthy data = true ∧ typeof data = TObject))
    as [[Ht Ho]|Hno].
  - assert (Hobj : is_object data).
    { split; [done|]. by intros ->. }
    unfold isValidGeoJSON. rewrite Ht, bool_decide_eq_true_2 by done. simpl.
    rewrite !get_field by done. simpl.
    destruct (field data "type") as [t|] eqn:Et; simpl.
    2:{ left. split; [done|]. right. by left. }
    destruct (includes validTypes t) eqn:Ei.
    2:{ left. split.
        - by destruct (truthy t).
        - right. right. left. exists t. split; [done|].
          intros Hv%includes_valid_type. congruence. }
    pose proof Ei as Hv%includes_valid_type.
    rewrite (valid_type_truthy t Hv). simpl.
    destruct (is_string "FeatureCollection" t) eqn:Efc.
    + destruct t; try discriminate. simpl in Efc.
      apply bool_decide_eq_true in Efc as ->.
      destruct (field data "features") as [[]|] eqn:Ef; simpl.
      all: try (left; split; [done|]; right; right; right; split; [done|];
                intros (? & ? & ?); congruence).
      right. split; [done|].
      intros [H|[H|[(t & H1 & H2)|[_ H]]]].
      * by apply H.
      * congruence.
      * simplify_eq. by apply H2.
      * apply H. eauto.
    + right. split; [done|].
      intros [H|[H|[(t' & H1 & H2)|[H _]]]].
      * by apply H.
      * congruence.
      * simplify_eq. by apply H2.
      * simplify_eq.
  - left. split.
    + unfold isValidGeoJSON.
      destruct (truthy data) eqn:Et; [|done].
      rewrite bool_decide_eq_false_2; [done|]. intros ?. by apply Hno.
    + left. intros [Ho Hn]. apply Hno. split; [|done].
      by destruct data as [| | | | | | |[]].
Qed.

(** C7: [isValidGeoJSON] never throws; it returns [false] exactly when the
    input is not an object, has no [type] field, has a [type] outside the
    nine GeoJSON type names, or is a [FeatureCollection] whose [features]
    field is not an array, and returns [true] on every other input. *)
Theorem isValidGeoJSON_contract data :
  (isValidGeoJSON data = Ok false ↔ rejected data)
  ∧ (isValidGeoJSON data = Ok true ↔ ¬ rejected data).
Proof.
  destruct (isValidGeoJSON_cases data) as [[E H]|[E H]]; rewrite E.
  all: split; split; intros; try discriminate; tauto.
Qed.

(** ** The rename table *)


Section Rename.
Implicit Types (m X Y : gmap string value) (T : list (string * string)).

Lemma applyMapping_absent m s t :
  present m s = false → applyMapping m (s, t) = m.
Proof.
  unfold present, applyMapping. by destruct (m !! s) as [[]|].
Qed.

Lemma applyMapping_present m s t x :
  m !! s = Some x → x ≠ VUndefined → s ≠ t →
  applyMapping m (s, t) = delete s (<[t:=x]> m).
Proof.
  intros Hs Hx Hst. unfold applyMapping. rewrite Hs. simpl.
  destruct x; try done; by rewrite decide_True.
Qed.

Lemma present_Some m k :
  present m k = true → ∃ x, m !! k = Some x ∧ x ≠ VUndefined.
Proof.
  unfold present. destruct (m !! k) as [x|]; [|done].
  intros H. exists x. split; [done|]. by intros ->.
Qed.

Lemma present_cases m k :
  present m k = false ∨ ∃ x, m !! k = Some x ∧ x ≠ VUndefined.
Proof.
  destruct (present m k) eqn:E; [right; by apply present_Some | by left].
Qed.

(** A turn for [(s, t)] leaves every key but [s] and [t] alone. *)
Lemma applyMapping_lookup_other m s t k :
  s ≠ t → k ≠ s → k ≠ t → applyMapping m (s, t) !! k = m !! k.
Proof.
  intros Hst Hs Ht. destruct (present_cases m s) as [E|(x & E & Hx)].
  - by rewrite applyMapping_absent.
  - rewrite (applyMapping_present _ _ _ x) by done.
    by rewrite lookup_delete_ne, lookup_insert_ne.
Qed.

Lemma foldl_lookup_other T m k :
  (∀ s t, (s, t) ∈ T → s ≠ t ∧ k ≠ s ∧ k ≠ t) →
  foldl applyMapping m T !! k = m !! k.
Proof.
  revert m. induction T as [|[s t] T IH]; intros m HT; [done|]. simpl.
  rewrite IH.
  - destruct (HT s t) as (? & ? & ?); [left|]. by apply applyMapping_lookup_other.
  - intros s' t' H. apply HT. by right.
Qed.

Lemma applyMapping_agree t X Y s t' :
  s ≠ t → s ≠ t' → agree_except t X Y →
  agree_except t (applyMapping X (s, t')) (applyMapping Y (s, t')).
Proof.
  intros Hst Hst' HXY k Hk.
  destruct (present_cases X s) as [E|(x & E & Hx)].
  - rewrite applyMapping_absent by done.
    rewrite applyMapping_absent; [by apply HXY|].
    unfold present in *. by rewrite <- HXY.
  - rewrite (applyMapping_present _ _ _ x) by done.
    rewrite (applyMapping_present _ _ _ x); [|by rewrite <- HXY|done..].
    destruct (decide (k = s)) as [->|]; [by rewrite !lookup_delete_eq|].
    rewrite !lookup_delete_ne by done.
    destruct (decide (k = t')) as [->|]; [by rewrite !lookup_insert_eq|].
    rewrite !lookup_insert_ne by done. by apply HXY.
Qed.

Lemma foldl_agree t T X Y :
  (∀ s t', (s, t') ∈ T → s ≠ t ∧ s ≠ t') →
  agree_except t X Y →
  agree_except t (foldl applyMapping X T) (foldl applyMapping Y T).
Proof.
  revert X Y. induction T as [|[s t'] T IH]; intros X Y HT HXY; [done|].
  simpl. apply IH.
  - intros ???. apply HT. by right.
  - destruct (HT s t') as [??]; [left|]. by apply applyMapping_agree.
Qed.

(** The turns of [T] leave the target [t] alone when none of the keys
    they rename to [t] is present. *)
Lemma foldl_lookup_target T m t :
  NoDup (T.*1) →
  (∀ s t', (s, t') ∈ T → (t' ∉ T.*1) ∧ s ≠ t) →
  (∀ s, (s, t) ∈ T → present m s = false) →
  foldl applyMapping m T !! t = m !! t.
Proof.
  revert m. induction T as [|[s t'] T IH]; intros m Hnd HT Habs; [done|].
  simpl in *. apply NoDup_cons in Hnd as [Hs Hnd].
  destruct (HT s t') as [Ht' Hst]; [left|].
  apply not_elem_of_cons in Ht' as [Hne Ht'].
  assert (Hother : ∀ k, k ∈ T.*1 → applyMapping m (s, t') !! k = m !! k).
  { intros k Hk. apply applyMapping_lookup_other; [done|..].
    - intros ->. done.
    - intros ->. done. }
  rewrite IH; [| done | |].
  - destruct (decide (t' = t)) as [->|Hne'].
    + rewrite applyMapping_absent; [done|]. apply Habs. left.
    + apply applyMapping_lookup_other; done.
  - intros s0 t0 H0. destruct (HT s0 t0) as [H1 H2]; [by right|].
    split; [|done]. by apply not_elem_of_cons in H1 as [_ ?].
  - intros s0 H0. unfold present. rewrite Hother.
    + apply Habs. by right.
    + apply list_elem_of_fmap. by exists (s0, t).
Qed.

Lemma propertyMappings_NoDup : NoDup (propertyMappings.*1).
Proof. by apply (bool_decide_unpack _). Qed.

Lemma propertyMappings_targets s t :
  (s, t) ∈ propertyMappings → t ∉ (propertyMappings.*1).
Proof.
  assert (H : Forall (λ p, p.2 ∉ (propertyMappings.*1)) propertyMappings)
    by by apply (bool_decide_unpack _).
  intros Hin. by apply (proj1 (Forall_forall _ _) H (s, t)).
Qed.

Lemma propertyMappings_source s t :
  (s, t) ∈ propertyMappings → s ∈ (propertyMappings.*1).
Proof. intros H. apply list_elem_of_fmap. by exists (s, t). Qed.
End Rename.

(** C5: the rename table is applied in the order of [propertyMappings];
    when the properties hold two keys [k1] and [k2] that the table renames
    to the same target [t], [k1] before [k2], and no key renamed to [t]
    after [k2] is present, then after the renaming the target holds the
    value of [k2], neither [k1] nor [k2] is left, and the value of [k1] is
    lost: the result is the one for the properties without [k1], and so is
    the result of [standardizeProperties], which goes on to standardize the
    values. *)
Theorem rename_collision (m : gmap string value)
    (T1 T2 T3 : list (string * string)) (k1 k2 t : string) (b : value) :
  propertyMappings = T1 ++ (k1, t) :: T2 ++ (k2, t) :: T3 →
  (∀ k3, (k3, t) ∈ T3 → present m k3 = false) →
  present m k1 = true → m !! k2 = Some b → b ≠ VUndefined →
  applyMappings m !! t = Some b
  ∧ applyMappings m !! k1 = None
  ∧ applyMappings m !! k2 = None
  ∧ applyMappings m = applyMappings (delete k1 m)
  ∧ standardizeProperties (VObj m) = standardizeProperties (VObj (delete k1 m)).
Proof.
  intros HT Habs Hk1 Hk2 Hb.
  unfold standardizeProperties. cbn [spread].
  pose proof propertyMappings_NoDup as Hnd.
  assert (Hin : ∀ s t', (s, t') ∈ T1 ∨ (s, t') = (k1, t) ∨ (s, t') ∈ T2
                        ∨ (s, t') = (k2, t) ∨ (s, t') ∈ T3 →
                        (s, t') ∈ propertyMappings).
  { intros s t' H. rewrite HT.
    rewrite !elem_of_app, !elem_of_cons, !elem_of_app, !elem_of_cons.
    naive_solver. }
  (* a source key is no target *)
  assert (Hst : ∀ s t' k t'', (s, t') ∈ propertyMappings →
                              (k, t'') ∈ propertyMappings → k ≠ t').
  { intros s t' k t'' H1 H2 ->.
    apply (propertyMappings_targets s t' H1).
    by apply (propertyMappings_source _ t''). }
  rewrite HT in Hnd.
  rewrite !fmap_app, !fmap_cons, !fmap_app, !fmap_cons in Hnd.
  simpl in Hnd.
  apply NoDup_app in Hnd as (_ & Hd1 & Hnd).
  apply NoDup_cons in Hnd as (Hd2 & Hnd).
  apply NoDup_app in Hnd as (_ & Hd3 & Hnd).
  apply NoDup_cons in Hnd as (Hd4 & Hnd3).
  assert (Hfst : ∀ (T : list (string * string)) s t', (s, t') ∈ T → s ∈ T.*1).
  { intros T s t' H. apply list_elem_of_fmap. by exists (s, t'). }
  assert (Hk1in : (k1, t) ∈ propertyMappings) by (apply Hin; auto).
  assert (Hk2in : (k2, t) ∈ propertyMappings) by (apply Hin; auto).
  assert (Hk12 : k1 ≠ k2).
  { intros ->. apply Hd2. apply elem_of_app. right. left. }
  assert (Hk1t : k1 ≠ t) by exact (Hst k1 t k1 t Hk1in Hk1in).
  assert (Hk2t : k2 ≠ t) by exact (Hst k1 t k2 t Hk1in Hk2in).
  (* the keys the turns of each part leave alone *)
  assert (H1 : ∀ k t'', (k, t'') ∈ propertyMappings → k ∉ T1.*1 →
               ∀ s t', (s, t') ∈ T1 → s ≠ t' ∧ k ≠ s ∧ k ≠ t').
  { intros k t'' Hk Hn s t' H. repeat split.
    - refine (Hst s t' s t' _ _); apply Hin; auto.
    - intros ->. apply Hn. by eapply Hfst.
    - refine (Hst s t' k t'' _ Hk). apply Hin; auto. }
  assert (H2 : ∀ k t'', (k, t'') ∈ propertyMappings → k ∉ T2.*1 →
               ∀ s t', (s, t') ∈ T2 → s ≠ t' ∧ k ≠ s ∧ k ≠ t').
  { intros k t'' Hk Hn s t' H. repeat split.
    - refine (Hst s t' s t' _ _); apply Hin; auto.
    - intros ->. apply Hn. by eapply Hfst.
    - refine (Hst s t' k t'' _ Hk). apply Hin; auto. }
  assert (H3 : ∀ k t'', (k, t'') ∈ propertyMappings → k ∉ T3.*1 →
               ∀ s t', (s, t') ∈ T3 → s ≠ t' ∧ k ≠ s ∧ k ≠ t').
  { intros k t'' Hk Hn s t' H. repeat split.
    - refine (Hst s t' s t' _ _); apply Hin; auto.
    - intros ->. apply Hn. by eapply Hfst.
    - refine (Hst s t' k t'' _ Hk). apply Hin; auto. }
  assert (Hk1T1 : k1 ∉ T1.*1).
  { intros H. apply (Hd1 _ H). left. }
  assert (Hk2T1 : k2 ∉ T1.*1).
  { intros H. apply (Hd1 _ H). right. apply elem_of_app. right. left. }
  assert (Hk1T2 : k1 ∉ T2.*1).
  { intros H. apply Hd2. apply elem_of_app. by left. }
  assert (Hk2T2 : k2 ∉ T2.*1).
  { intros H. apply (Hd3 _ H). left. }
  assert (Hk1T3 : k1 ∉ T3.*1).
  { intros H. apply Hd2. apply elem_of_app. right. by right. }
  destruct (present_Some _ _ Hk1) as (a & Ha & Hau).
  unfold applyMappings. rewrite HT.
  rewrite !foldl_app. simpl. rewrite !foldl_app. simpl.
  set (M1 := foldl applyMapping m T1).
  set (M1' := foldl applyMapping (delete k1 m) T1).
  assert (EM1k1 : M1 !! k1 = Some a).
  { unfold M1. rewrite foldl_lookup_other; [done|]. by apply (H1 k1 t). }
  assert (EM1k2 : M1 !! k2 = Some b).
  { unfold M1. rewrite foldl_lookup_other; [done|]. by apply (H1 k2 t). }
  rewrite (applyMapping_present M1 k1 t a) by done.
  set (A := delete k1 (<[t:=a]> M1)).
  assert (EM1' : M1' !! k1 = None).
  { unfold M1'. rewrite foldl_lookup_other; [by rewrite lookup_delete_eq|].
    by apply (H1 k1 t). }
  rewrite (applyMapping_absent M1' k1 t) by (unfold present; by rewrite EM1').
  assert (HA : agree_except t A M1').
  { intros k Hk. unfold A.
    destruct (decide (k = k1)) as [->|Hne]; [by rewrite lookup_delete_eq|].
    rewrite lookup_delete_ne, lookup_insert_ne by done.
    unfold M1, M1'. apply (foldl_agree k1); [| |done].
    - intros s t' H. destruct (H1 k1 t Hk1in Hk1T1 s t' H) as (? & ? & ?).
      done.
    - intros k' Hk'. by rewrite lookup_delete_ne. }
  set (M2 := foldl applyMapping A T2).
  set (M2' := foldl applyMapping M1' T2).
  assert (HM2 : agree_except t M2 M2').
  { apply foldl_agree; [|done]. intros s t' H. split.
    - refine (Hst k1 t s t' Hk1in _). apply Hin; auto.
    - refine (Hst s t' s t' _ _); apply Hin; auto. }
  assert (EM2k2 : M2 !! k2 = Some b).
  { unfold M2. rewrite foldl_lookup_other by by apply (H2 k2 t).
    unfold A. by rewrite lookup_delete_ne, lookup_insert_ne. }
  assert (EM2k1 : M2 !! k1 = None).
  { unfold M2. rewrite foldl_lookup_other by by apply (H2 k1 t).
    unfold A. by rewrite lookup_delete_eq. }
  rewrite (applyMapping_present M2 k2 t b) by done.
  rewrite (applyMapping_present M2' k2 t b); [| by rewrite <- HM2 |done..].
  assert (EB : delete k2 (<[t:=b]> M2) = delete k2 (<[t:=b]> M2')).
  { apply map_eq. intros k.
    destruct (decide (k = k2)) as [->|]; [by rewrite !lookup_delete_eq|].
    rewrite !lookup_delete_ne by done.
    destruct (decide (k = t)) as [->|]; [by rewrite !lookup_insert_eq|].
    rewrite !lookup_insert_ne by done. by apply HM2. }
  rewrite <- EB.
  set (B := delete k2 (<[t:=b]> M2)).
  assert (EBk1 : B !! k1 = None).
  { unfold B. by rewrite lookup_delete_ne, lookup_insert_ne. }
  assert (EBk2 : B !! k2 = None).
  { unfold B. by rewrite lookup_delete_eq. }
  split; [|split; [|split; [|split]]]; [| | |done|done].
  - rewrite foldl_lookup_target.
    + unfold B. by rewrite lookup_delete_ne, lookup_insert_eq.
    + done.
    + intros s t' H. split.
      * intros ([s' t''] & -> & Hs)%list_elem_of_fmap. simpl in *.
        refine (Hst s s' s' t'' _ _ eq_refl); apply Hin; auto 6.
      * refine (Hst k1 t s t' Hk1in _). apply Hin; auto 6.
    + intros s Hs. unfold present.
      assert (HsT3 : s ∈ T3.*1) by by eapply Hfst.
      assert (Hsin : (s, t) ∈ propertyMappings) by (apply Hin; auto 6).
      assert (Es : B !! s = m !! s); [|rewrite Es; by apply Habs].
      unfold B. rewrite lookup_delete_ne, lookup_insert_ne.
      * unfold M2. rewrite foldl_lookup_other.
        -- unfold A. rewrite lookup_delete_ne, lookup_insert_ne.
           ++ unfold M1. rewrite foldl_lookup_other; [done|].
              apply (H1 s t Hsin). intros H. apply (Hd1 _ H).
              right. apply elem_of_app. right. by right.
           ++ exact (not_eq_sym (Hst k1 t s t Hk1in Hsin)).
           ++ intros ->. by apply Hk1T3.
        -- apply (H2 s t Hsin). intros H. apply (Hd3 _ H). by right.
      * exact (not_eq_sym (Hst k1 t s t Hk1in Hsin)).
      * intros ->. by apply Hd4.
  - rewrite foldl_lookup_other; [done|]. by apply (H3 k1 t).
  - rewrite foldl_lookup_other; [done|]. by apply (H3 k2 t).
Qed.

Lemma rename_collision_witness :
  applyMappings both_risk_levels !! "risk_level" = Some (VStr "low")
  ∧ applyMappings both_risk_levels !! "RISK_LEVEL" = None
  ∧ applyMappings both_risk_levels !! "riskLevel" = None
  ∧ applyMappings both_risk_levels
    = applyMappings (delete "RISK_LEVEL" both_risk_levels)
  ∧ standardizeProperties (VObj both_risk_levels)
    = standardizeProperties (VObj (delete "RISK_LEVEL" both_risk_levels)).
Proof.
  apply (rename_collision both_risk_levels [] [] (drop 2 propertyMappings)
           "RISK_LEVEL" "riskLevel" "risk_level" (VStr "low")).
  - reflexivity.
  - intros k3 H. exfalso. vm_compute in H.
    repeat (apply elem_of_cons in H as [H|H]; [by simplify_eq|]).
    by apply elem_of_nil in H.
  - reflexivity.
  - reflexivity.
  - discriminate.
Defined.

(** With the values standardized. *)
Example standardizeProperties_both_risk_levels :
  standardizeProperties
    (obj [("RISK_LEVEL", VStr "high"); ("riskLevel", VStr "RED")])
  = {[ "risk_level" := VStr "extreme" ]}.
Proof. vm_compute. reflexivity. Qed.

(** ** Risk levels *)

Section RiskLevel.

Lemma lower_ascii_idemp c : lower_ascii (lower_ascii c) = lower_ascii c.
Proof. by destruct c as [[] [] [] [] [] [] [] []]. Qed.

Lemma is_space_lower_ascii c : is_space (lower_ascii c) = is_space c.
Proof. by destruct c as [[] [] [] [] [] [] [] []]. Qed.

Lemma toLowerCase_idemp s : toLowerCase (toLowerCase s) = toLowerCase s.
Proof.
  induction s as [|c s IH]; [done|]. simpl.
  by rewrite lower_ascii_idemp, IH.
Qed.

Lemma toLowerCase_empty s : toLowerCase s = "" ↔ s = "".
Proof. by destruct s. Qed.

Lemma toLowerCase_trimStart s :
  toLowerCase (trimStart s) = trimStart (toLowerCase s).
Proof.
  induction s as [|c s IH]; [done|]. simpl.
  rewrite is_space_lower_ascii. by destruct (is_space c).
Qed.

Lemma toLowerCase_trimEnd s :
  toLowerCase (trimEnd s) = trimEnd (toLowerCase s).
Proof.
  induction s as [|c s IH]; [done|]. simpl.
  rewrite is_space_lower_ascii, <- IH.
  destruct (is_space c); simpl; [|done].
  destruct (decide (trimEnd s = "")) as [E|E]; [by rewrite E|].
  rewrite (bool_decide_eq_false_2 (trimEnd s = "")) by done.
  rewrite bool_decide_eq_false_2; [done|]. by rewrite toLowerCase_empty.
Qed.

(** What [standardizeRiskLevel] looks up is in lower case. *)
Lemma toLowerCase_lowercaseValue s :
  toLowerCase (trim (toLowerCase s)) = trim (toLowerCase s).
Proof.
  unfold trim.
  by rewrite toLowerCase_trimEnd, toLowerCase_trimStart, toLowerCase_idemp.
Qed.

Lemma assoc_Some l k x : assoc l k = Some x → (k, x) ∈ l.
Proof.
  induction l as [|[k' x'] l IH]; [done|]. simpl.
  destruct (decide (k = k')) as [->|]; [intros [= ->]; left|].
  intros H. right. by apply IH.
Qed.

Lemma riskMappings_truthy k level :
  assoc riskMappings k = Some level → truthy (VStr level) = true.
Proof.
  intros H%assoc_Some.
  assert (HF : Forall (λ p, truthy (VStr p.2) = true) riskMappings)
    by by apply (bool_decide_unpack _).
  by apply (proj1 (Forall_forall _ _) HF (k, level)).
Qed.

(** The value of [standardizeRiskLevel] on text: the level of the table
    for the lower-cased and trimmed text when the table has it; the
    inherited member when that text is [constructor] or [__proto__]; the
    lower-cased and trimmed text otherwise. *)
Lemma standardizeRiskLevel_text s :
  standardizeRiskLevel (VStr s) =
    let lowercaseValue := trim (toLowerCase s) in
    match assoc riskMappings lowercaseValue with
    | Some level => VStr level
    | None =>
        if decide (lowercaseValue = "constructor")
        then VNative ObjectConstructor
        else if decide (lowercaseValue = "__proto__")
        then VNative ObjectPrototype
        else VStr lowercaseValue
    end.
Proof.
  unfold standardizeRiskLevel, riskMappings_get. cbn zeta.
  pose proof (toLowerCase_lowercaseValue s) as Hlow.
  destruct (assoc riskMappings (trim (toLowerCase s))) as [level|] eqn:E.
  - by rewrite (riskMappings_truthy _ _ E).
  - unfold inherited.
    destruct (decide (trim (toLowerCase s) = "constructor")); [done|].
    destruct (decide (trim (toLowerCase s) = "__proto__")); [done|].
    rewrite bool_decide_eq_false_2; [done|].
    intros Hin. revert Hlow.
    repeat (apply elem_of_cons in Hin as [->|Hin]; [by vm_compute|]).
    by apply elem_of_nil in Hin.
Qed.

Lemma standardizeRiskLevel_other v :
  typeof v ≠ TString → standardizeRiskLevel v = v.
Proof. by destruct v. Qed.

End RiskLevel.

(** The example of the specification: [{"RISK_LEVEL": "RED"}] becomes
    [{"risk_level": "extreme"}]. *)
Example standardizeProperties_RED :
  standardizeProperties (obj [("RISK_LEVEL", VStr "RED")])
  = {[ "risk_level" := VStr "extreme" ]}.
Proof. vm_compute. reflexivity. Qed.

(** C6: a textual value the table does not have is returned lower-cased and
    trimmed, unless it names a member that the table inherits: for the text
    [constructor] the lookup [riskMappings[lowercaseValue]] finds
    [Object.prototype.constructor], which is truthy, and
    [standardizeProperties] stores the [Object] function where the claim has
    the text. *)
Theorem standardizeProperties_constructor :
  standardizeProperties (obj [("risk_level", VStr "constructor")])
  = {[ "risk_level" := VNative ObjectConstructor ]}.
Proof. vm_compute. reflexivity. Qed.

(** ** [processFeature] in one piece *)

Ltac tail :=
  lazymatch goal with
  | Htype : truthy ?g = true → ∃ t, get ?g "type" = Ok t |- _ =>
      destruct (truthy g); js; [|done];
      destruct Htype as [? ->]; [done|]; js;
      destruct (includes _ _); js; [|done];
      destruct (calculateApproximateArea _ g); js; done
  end.

(** [processFeature] on an object or an array, in one piece. *)
Lemma processFeature_assignable h i feature :
  assignable feature = true →
  processFeature h i feature =
    (let props := props_of feature in
     properties ← stamp h i (default VUndefined (props !! "properties"));
     let standardized := standardizeProperties properties in
     let geometry := default VUndefined (props !! "geometry") in
     if polygonal geometry then
       area ← calculateApproximateArea h geometry;
       Ok (with_props feature
             (<["properties" :=
                 VObj (<["calculated_area" := VNum area]> standardized)]>
                props))
     else
       Ok (with_props feature (<["properties" := VObj standardized]> props))).
Proof.
  intros Hf.
  unfold processFeature, stamp, polygonal.
  remember (props_of feature) as props eqn:Hprops.
  remember (default VUndefined (props !! "properties")) as p0 eqn:Hp0.
  remember (default VUndefined (props !! "geometry")) as g eqn:Hg.
  assert (Htype : truthy g = true → ∃ t, get g "type" = Ok t)
    by apply truthy_get_type.
  assert (Hgeo : ∀ x, default VUndefined
                         (<["properties" := x]> props !! "geometry") = g).
  { intros x. by rewrite lookup_insert_ne. }
  cbn zeta.
  js; rewrite <- ?Hprops, <- ?Hp0.
  destruct (truthy p0) eqn:Ep0; js; rewrite <- ?Hprops, <- ?Hp0.
  - destruct (get p0 "processed_at") as [pa|e] eqn:Epa; js; [|done].
    destruct (truthy pa) eqn:Etpa; js; rewrite <- ?Hprops, <- ?Hp0.
    + rewrite Hgeo. tail.
    + destruct (set_prop p0 "processed_at" _) as [p1|e] eqn:Eset; js; [|done].
      rewrite <- ?Hprops, Hgeo. tail.
  - rewrite lookup_empty. js. change (truthy VUndefined) with false. js.
    rewrite <- ?Hprops, Hgeo. tail.
Qed.

(** ** Centroid and area *)

(** *** Two facts of binary64 arithmetic *)

Lemma eqb_zero_inv (c : float) :
  (c =? 0)%float = true → c = 0%float ∨ c = (-0)%float.
Proof.
  rewrite FloatAxioms.eqb_spec. intros H.
  rewrite <- (SF2Prim_Prim2SF c).
  destruct (Prim2SF c) as [[]| | |]; try discriminate; auto.
  all: cbv in H; by destruct s.
Qed.

Lemma sub_diag_finite (z : float) :
  PrimFloat.is_finite z = true → (z - z)%float = 0%float.
Proof.
  intros Hf.
  rewrite <- (SF2Prim_Prim2SF (z - z)). rewrite sub_spec.
  unfold PrimFloat.is_finite, PrimFloat.is_nan, PrimFloat.is_infinity in Hf.
  rewrite !FloatAxioms.eqb_spec, abs_spec in Hf.
  destruct (Prim2SF z) as [[]|[]| |s m e]; try discriminate; try done.
  unfold SF64sub, SFsub. cbn zeta. rewrite Z.sub_diag. done.
Qed.

(** *** The square *)

(** C8: for the square ring [[0,0],[2,0],[2,2],[0,2],[0,0]] the centroid
    computation returns the point (1,1) and the area computation returns 4,
    whatever the host. *)
Theorem square_centroid_and_area h :
  getPolygonCentroid h square = Ok (point 1 1)
  ∧ calculatePolygonArea h square = Ok 4%float.
Proof. split; vm_compute; reflexivity. Qed.

(** *** Rings of two points *)

(** The area of a ring of two elements is zero, whatever the elements. *)
Lemma calculatePolygonArea_two h p q own :
  calculatePolygonArea h (VArr [p; q] own) = Ok 0%float.
Proof. reflexivity. Qed.

(** The centroid of a ring of two points whose cross product is zero, of
    either sign, is the first point. *)
Lemma getPolygonCentroid_two h x1 y1 x2 y2 :
  (x1 * y2 - x2 * y1 =? 0)%float = true →
  getPolygonCentroid h (ring [(x1, y1); (x2, y2)]) = Ok (point x1 y1).
Proof.
  intros Hc%eqb_zero_inv.
  vm_compute. destruct Hc as [Hc|Hc]; rewrite Hc; reflexivity.
Qed.

(** For a closed ring of two points, the same point twice, the cross
    product is zero when the product of the coordinates is finite. *)
Lemma getPolygonCentroid_closed h x y :
  PrimFloat.is_finite (x * y) = true →
  getPolygonCentroid h (ring [(x, y); (x, y)]) = Ok (point x y).
Proof.
  intros Hf. apply getPolygonCentroid_two. by rewrite sub_diag_finite.
Qed.

(** C2, as amended: for every ring of exactly two points the area
    computation returns 0, whatever the points.  The centroid computation
    returns the first point when the cross product [x1 * y2 - x2 * y1] of
    the two points is zero; so it does for a closed ring, the same point
    twice, when the product of its coordinates is finite. *)
Theorem two_point_ring h x1 y1 x2 y2 :
  calculatePolygonArea h (ring [(x1, y1); (x2, y2)]) = Ok 0%float
  ∧ ((x1 * y2 - x2 * y1 =? 0)%float = true →
     getPolygonCentroid h (ring [(x1, y1); (x2, y2)]) = Ok (point x1 y1))
  ∧ (PrimFloat.is_finite (x1 * y1) = true →
     getPolygonCentroid h (ring [(x1, y1); (x1, y1)]) = Ok (point x1 y1)).
Proof.
  split; [apply calculatePolygonArea_two|].
  split; [apply getPolygonCentroid_two|apply getPolygonCentroid_closed].
Qed.

(** Two points on a line through the origin, which is not a closed ring,
    and the closed ring of the point (3,4). *)
Lemma two_point_ring_witness :
  calculatePolygonArea example_host (ring [(3, 4); (6, 8)]%float) = Ok 0%float
  ∧ getPolygonCentroid example_host (ring [(3, 4); (6, 8)]%float)
    = Ok (point 3 4)
  ∧ getPolygonCentroid example_host (ring [(3, 4); (3, 4)]%float)
    = Ok (point 3 4).
Proof.
  destruct (two_point_ring example_host 3 4 6 8) as (Ha & Hc & Hd).
  split; [exact Ha|]. split; [apply Hc|apply Hd]; reflexivity.
Defined.

(** C2, as stated, fails for the centroid.  It fails for a closed ring:
    the product of the coordinates of the point (2^620, 2^620), which are
    finite, is infinite, the cross product and the signed area are not
    numbers, and neither are the coordinates returned.  And it fails for
    two distinct points, which the code takes as well: (1,0) and (0,1)
    have cross product 1, the signed area is 1/2, and (1/3, 1/3) is
    returned. *)
Lemma two_point_ring_counterexample :
  let big := (4611686018427387904 * 4611686018427387904
              * 4611686018427387904 * 4611686018427387904
              * 4611686018427387904 * 4611686018427387904
              * 4611686018427387904 * 4611686018427387904
              * 4611686018427387904 * 4611686018427387904)%float in
  (PrimFloat.is_finite big = true
   ∧ getPolygonCentroid example_host (ring [(big, big); (big, big)])
     = Ok (point PrimFloat.nan PrimFloat.nan)
   ∧ PrimFloat.is_nan big = false)
  ∧ (getPolygonCentroid example_host (ring [(1, 0); (0, 1)]%float)
     = Ok (point (1 / 3) (1 / 3))
     ∧ (1 / 3 =? 1)%float = false).
Proof. repeat split; vm_compute; reflexivity. Qed.

(** *** MultiPolygon *)

Lemma reduce_areas_sum h polygons total :
  reduce_areas h polygons total =
    (areas ← outer_ring_areas h polygons; Ok (foldl PrimFloat.add total areas)).
Proof.
  revert total. induction polygons as [|p ps IH]; intros total; [done|].
  cbn [reduce_areas outer_ring_areas].
  destruct (get_index p 0) as [r|e]; js; [|done].
  destruct (calculatePolygonArea h r) as [a|e]; js; [|done].
  rewrite IH. by destruct (outer_ring_areas h ps).
Qed.

Lemma calculateApproximateArea_MultiPolygon h g polygons own :
  g !! "type" = Some (VStr "MultiPolygon") →
  g !! "coordinates" = Some (VArr polygons own) →
  calculateApproximateArea h (VObj g) =
    (areas ← outer_ring_areas h polygons; Ok (sum_areas areas)).
Proof.
  intros Ht Hc. unfold calculateApproximateArea. js. rewrite Ht, Hc. js.
  cbn [is_string]. rewrite bool_decide_eq_false_2 by done.
  rewrite bool_decide_eq_true_2 by done.
  apply reduce_areas_sum.
Qed.

(** C9: for every feature whose geometry is a MultiPolygon, the
    [calculated_area] that [processFeature] writes is the sum, from zero and
    from left to right, of the areas of the outer rings of the polygons;
    [processFeature] throws when one of these areas does. *)
Theorem MultiPolygon_calculated_area h i props g polygons own :
  props !! "geometry" = Some (VObj g) →
  g !! "type" = Some (VStr "MultiPolygon") →
  g !! "coordinates" = Some (VArr polygons own) →
  processFeature h i (VObj props) =
    (properties ← stamp h i (default VUndefined (props !! "properties"));
     areas ← outer_ring_areas h polygons;
     Ok (VObj (<["properties" :=
                  VObj (<["calculated_area" := VNum (sum_areas areas)]>
                          (standardizeProperties properties))]> props))).
Proof.
  intros Hg Ht Hc. rewrite processFeature_assignable by done.
  cbn zeta. js. destruct (stamp h i _) as [p|e]; js; [|done].
  rewrite Hg. js.
  assert (Hp : polygonal (VObj g) = true).
  { unfold polygonal. js. by rewrite Ht. }
  rewrite Hp.
  rewrite (calculateApproximateArea_MultiPolygon h g polygons own) by done.
  by destruct (outer_ring_areas h polygons).
Qed.

(** Two squares of areas 4 and 1 yield [calculated_area = 5]. *)
Lemma MultiPolygon_calculated_area_witness :
  processFeature example_host 0 two_squares =
    Ok (obj [ ("type", VStr "Feature");
              ("geometry",
               obj [ ("type", VStr "MultiPolygon");
                     ("coordinates", arr [arr [square]; arr [unit_square]]) ]);
              ("properties",
               obj [ ("processed_at", VStr (now example_host 0));
                     ("calculated_area", VNum 5) ]) ]).
Proof.
  unfold two_squares, obj.
  rewrite (MultiPolygon_calculated_area example_host 0 _
             (list_to_map
                [ ("type", VStr "MultiPolygon");
                  ("coordinates", arr [arr [square]; arr [unit_square]]) ])
             [arr [square]; arr [unit_square]] ∅);
    [|vm_compute; reflexivity..].
  vm_compute. reflexivity.
Defined.

(** ** A valid document on which normalization throws *)

Lemma calculateApproximateArea_empty_polygon h g own :
  g !! "type" = Some (VStr "Polygon") →
  g !! "coordinates" = Some (VArr [] own) →
  calculateApproximateArea h (VObj g) = Throw TypeError.
Proof.
  intros Ht Hc. unfold calculateApproximateArea. cbn [get].
  rewrite Ht. cbn [default from_option id]. rewrite bind_Ok.
  cbn [is_string]. rewrite (bool_decide_eq_true_2 _ eq_refl).
  rewrite Hc. cbn [default from_option id]. by rewrite bind_Ok.
Qed.

(** [processFeature] on a feature whose geometry is a Polygon with no
    ring. *)
Lemma processFeature_empty_polygon h i o g own :
  o !! "geometry" = Some (VObj g) →
  g !! "type" = Some (VStr "Polygon") →
  g !! "coordinates" = Some (VArr [] own) →
  ∃ e, processFeature h i (VObj o) = Throw e.
Proof.
  intros Hg Ht Hc. rewrite processFeature_assignable by done.
  cbn zeta. cbn [props_of]. rewrite Hg. cbn [default from_option id].
  destruct (stamp h i _) as [properties|e]; [|by exists e].
  rewrite bind_Ok.
  assert (Hp : polygonal (VObj g) = true).
  { unfold polygonal. cbn [truthy get andb]. rewrite Ht.
    cbn [default from_option id includes].
    by apply (bool_decide_eq_true_2 ("Polygon" ∈ ["Polygon"; "MultiPolygon"])),
             (bool_decide_unpack _). }
  rewrite Hp, (calculateApproximateArea_empty_polygon h g own Ht Hc).
  rewrite bind_Throw. by exists TypeError.
Qed.

(** C3, as amended: a feature whose geometry is a Polygon with an empty
    [coordinates] array passes validation, and both editions of
    [processGeoJSON] throw on it: when [processFeature] comes to the area,
    [calculateApproximateArea] passes [coordinates[0]], which is
    [undefined], to [calculatePolygonArea], which reads its [length].
    [getFeatureCoordinates] throws on it for the same reason. *)
Theorem empty_polygon_throws h o g own :
  o !! "type" = Some (VStr "Feature") →
  o !! "geometry" = Some (VObj g) →
  g !! "type" = Some (VStr "Polygon") →
  g !! "coordinates" = Some (VArr [] own) →
  isValidGeoJSON (VObj o) = Ok true
  ∧ (∃ e, TS.processGeoJSON h (VObj o) = Throw e)
  ∧ (∃ e, JS.processGeoJSON h (VObj o) = Throw e)
  ∧ getFeatureCoordinates h (VObj o) = Throw TypeError.
Proof.
  intros Ht Hg Hgt Hc.
  assert (Hpf : ∃ e, processFeature h 0 (reparsed (VObj o)) = Throw e).
  { cbn [reparsed].
    eapply (processFeature_empty_polygon h 0 _
              (omap (λ x, if serialized x then Some (reparsed x) else None)
                    g) ∅).
    - by rewrite lookup_omap, Hg.
    - by rewrite lookup_omap, Hgt.
    - by rewrite lookup_omap, Hc. }
  assert (Et : get (reparsed (VObj o)) "type" = Ok (VStr "Feature")).
  { rewrite get_assignable by done. by rewrite lookup_reparsed, Ht. }
  destruct Hpf as [e Hpf].
  split; [|split; [|split]].
  - destruct (isValidGeoJSON_cases (VObj o)) as [[_ Hr]|[E _]]; [|done].
    exfalso. destruct Hr as [Hr|[Hr|[Hr|Hr]]].
    + by apply Hr.
    + unfold field in Hr. cbn [props_of] in Hr. congruence.
    + destruct Hr as (t & Hf & Hn). unfold field in Hf. cbn [props_of] in Hf.
      rewrite Ht in Hf. injection Hf as <-. apply Hn.
      exists "Feature". split; [done|].
      by apply (bool_decide_unpack _).
    + destruct Hr as [Hr _]. unfold field in Hr. cbn [props_of] in Hr.
      rewrite Ht in Hr. discriminate Hr.
  - exists e. unfold TS.processGeoJSON, JSON_roundtrip. cbn [serialized].
    rewrite bind_Ok, Et, bind_Ok. cbn [is_string].
    rewrite (bool_decide_eq_false_2 ("Feature" = "FeatureCollection"))
      by discriminate.
    rewrite (bool_decide_eq_true_2 _ eq_refl). by rewrite Hpf.
  - exists e. unfold JS.processGeoJSON, JSON_roundtrip. cbn [serialized].
    rewrite bind_Ok, Et, bind_Ok. cbn [is_string].
    rewrite (bool_decide_eq_false_2 ("Feature" = "FeatureCollection"))
      by discriminate.
    rewrite (bool_decide_eq_true_2 _ eq_refl). exact Hpf.
  - unfold getFeatureCoordinates. cbn [get]. rewrite Hg.
    cbn [default from_option id]. rewrite bind_Ok. cbn [truthy negb get].
    rewrite Hgt, Hc. cbn [default from_option id]. rewrite !bind_Ok.
    cbn [is_string].
    rewrite (bool_decide_eq_false_2 ("Polygon" = "Point")) by discriminate.
    by rewrite (bool_decide_eq_true_2 _ eq_refl).
Qed.

Lemma empty_polygon_throws_witness :
  isValidGeoJSON empty_polygon = Ok true
  ∧ (∃ e, TS.processGeoJSON example_host empty_polygon = Throw e)
  ∧ (∃ e, JS.processGeoJSON example_host empty_polygon = Throw e)
  ∧ getFeatureCoordinates example_host empty_polygon = Throw TypeError.
Proof.
  apply (empty_polygon_throws example_host _
           (list_to_map [ ("type", VStr "Polygon"); ("coordinates", arr []) ])
           ∅); vm_compute; reflexivity.
Defined.

(** The error is a [TypeError]. *)
Lemma empty_polygon_TypeError h :
  TS.processGeoJSON h empty_polygon = Throw TypeError
  ∧ JS.processGeoJSON h empty_polygon = Throw TypeError.
Proof. split; vm_compute; reflexivity. Qed.

(** A MultiPolygon with an empty [coordinates] array is different: the sum
    over no polygon is zero and [processFeature] returns; it is
    [getFeatureCoordinates] that throws, on [coordinates[0][0]]. *)
Lemma empty_multipolygon_area h :
  isValidGeoJSON empty_multipolygon = Ok true
  ∧ processFeature h 0 empty_multipolygon
    = Ok (obj [ ("type", VStr "Feature");
                ("geometry",
                 obj [ ("type", VStr "MultiPolygon");
                       ("coordinates", arr []) ]);
                ("properties",
                 obj [ ("processed_at", VStr (now h 0));
                       ("calculated_area", VNum 0) ]) ])
  ∧ getFeatureCoordinates h empty_multipolygon = Throw TypeError.
Proof. repeat split; vm_compute; reflexivity. Qed.

(** C3, as stated, fails for the MultiPolygon: the feature
    [empty_multipolygon], whose geometry is a MultiPolygon with an empty
    [coordinates] array, passes validation and both editions of
    [processGeoJSON] return on it, with a [calculated_area] of 0, the sum
    over no polygon: [calculateApproximateArea] reads no ring. *)
Lemma empty_multipolygon_returns :
  isValidGeoJSON empty_multipolygon = Ok true
  ∧ calculateApproximateArea example_host
      (obj [("type", VStr "MultiPolygon"); ("coordinates", arr [])])
    = Ok 0%float
  ∧ TS.processGeoJSON example_host empty_multipolygon
    = Ok (obj [ ("type", VStr "FeatureCollection");
                ("features", arr [empty_multipolygon_processed]) ])
  ∧ JS.processGeoJSON example_host empty_multipolygon
    = Ok empty_multipolygon_processed.
Proof. repeat split; vm_compute; reflexivity. Qed.

(** ** The document returned *)

Lemma processFeatures_length h i features features' :
  processFeatures h i features = Ok features' →
  length features' = length features.
Proof.
  revert i features'. induction features as [|f fs IH]; intros i fs' H.
  - by injection H as <-.
  - unfold processFeatures in H; fold processFeatures in H.
    destruct (processFeature h i f) as [f'|]; [|done].
    rewrite bind_Ok in H.
    destruct (processFeatures h (S i) fs) as [fs''|] eqn:E; [|done].
    rewrite bind_Ok in H. injection H as <-. simpl. f_equal. by eapply IH.
Qed.

Lemma processFeatures_lookup h i features features' k feature' :
  processFeatures h i features = Ok features' →
  features' !! k = Some feature' →
  ∃ feature, features !! k = Some feature
             ∧ processFeature h (i + k) feature = Ok feature'.
Proof.
  revert i features' k.
  induction features as [|f fs IH]; intros i fs' k H Hk.
  - injection H as <-. done.
  - unfold processFeatures in H; fold processFeatures in H.
    destruct (processFeature h i f) as [f'|] eqn:Ef; [|done].
    rewrite bind_Ok in H.
    destruct (processFeatures h (S i) fs) as [fs''|] eqn:E; [|done].
    rewrite bind_Ok in H. injection H as <-.
    destruct k as [|k]; cbn in Hk.
    + injection Hk as <-. exists f. by rewrite Nat.add_0_r.
    + destruct (IH _ _ _ E Hk) as (f0 & ? & ?). exists f0.
      split; [done|]. by rewrite <- Nat.add_succ_comm.
Qed.

Lemma valid_inv data :
  isValidGeoJSON data = Ok true →
  assignable data = true
  ∧ ∃ s, field data "type" = Some (VStr s) ∧ s ∈ validTypes
    ∧ (s = "FeatureCollection" →
       ∃ l own, field data "features" = Some (VArr l own)).
Proof.
  intros Hv.
  destruct (isValidGeoJSON_cases data) as [[E _]|[_ Hn]]; [congruence|].
  assert (Ha : assignable data = true).
  { destruct data as [| | | | | | |[]]; try done.
    all: destruct Hn; left; by intros []. }
  split; [done|].
  destruct (field data "type") as [t|] eqn:Et.
  2:{ destruct Hn. right. by left. }
  destruct t as [| | | |s| | |].
  all: try (destruct Hn; right; right; left; eexists; split; [done|];
            by intros (? & ? & ?)).
  exists s. split; [done|].
  destruct (decide (s ∈ validTypes)) as [Hs|Hs].
  2:{ destruct Hn. right. right. left. eexists. split; [done|].
      intros (? & ? & ?). by simplify_eq. }
  split; [done|]. intros ->.
  destruct (field data "features") as [[]|] eqn:Ef; eauto.
  all: destruct Hn; right; right; right; split; [done|];
       intros (? & ? & ?); congruence.
Qed.

(** C1, as amended: on every input that passes validation and on which
    the TypeScript [processGeoJSON] returns, the document it returns has
    type [FeatureCollection] and an array of features.  When the input is
    a [FeatureCollection] object, the document is the copy of the input
    with its features replaced: as many as the input has, each the
    [processFeature] of the copy of the input's feature at its position.
    When the input is a bare feature, the document is a new collection
    whose one feature is the [processFeature] of the copy of the input.
    Otherwise, for a bare geometry, it is a new collection whose one
    feature has the copy of the input as geometry and empty properties. *)
Theorem TS_processGeoJSON_collection h data d :
  isValidGeoJSON data = Ok true →
  TS.processGeoJSON h data = Ok d →
  get d "type" = Ok (VStr "FeatureCollection")
  ∧ ∃ features,
      get d "features" = Ok (arr features)
      ∧ if is_collection data
        then ∃ l own,
               field data "features" = Some (VArr l own)
               ∧ length features = length l
               ∧ (∀ k feature, l !! k = Some feature →
                    ∃ feature', features !! k = Some feature'
                      ∧ processFeature h k (reparsed feature) = Ok feature')
               ∧ d = VObj (<["features" := arr features]>
                             (props_of (reparsed data)))
        else if is_feature data
        then ∃ feature',
               processFeature h 0 (reparsed data) = Ok feature'
               ∧ features = [feature']
               ∧ d = obj [ ("type", VStr "FeatureCollection");
                           ("features", arr [feature']) ]
        else features
             = [ obj [ ("type", VStr "Feature");
                       ("geometry", reparsed data);
                       ("properties", VObj ∅) ] ]
             ∧ d = wrapped (reparsed data).
Proof.
  intros (Ha & s & Ht & Hs & Hfc)%valid_inv Hd.
  unfold TS.processGeoJSON, JSON_roundtrip in Hd.
  assert (Hser : serialized data = true) by by destruct data.
  rewrite Hser in Hd. rewrite bind_Ok in Hd.
  destruct data as [| | | | |l own|o|]; try done.
  - (* an array that has a [type]: its named properties are not copied *)
    cbn in Hd. injection Hd as <-. split; [done|].
    eexists. split; [reflexivity|done].
  - unfold field in *. cbn [props_of] in *.
    rewrite !get_assignable in Hd by done.
    rewrite !lookup_reparsed, Ht in Hd. cbn in Hd.
    unfold is_collection, is_feature. rewrite Ht.
    cbn [default from_option id is_string].
    case_bool_decide as Efc.
    + subst s. destruct Hfc as (l & own & Hf); [done|].
      rewrite Hf in Hd. cbn in Hd.
      destruct (processFeatures h 0 (map reparsed l)) as [fs|] eqn:Efs;
        [|done].
      cbn in Hd. injection Hd as <-.
      split.
      * cbn. by rewrite lookup_insert_ne, lookup_omap, Ht.
      * exists fs. split.
        -- cbn. by rewrite lookup_insert_eq.
        -- exists l, own. split; [done|].
           pose proof (processFeatures_length _ _ _ _ Efs) as Hlen.
           rewrite List.length_map in Hlen.
           split; [done|]. split; [|done].
           intros k feature Hk.
           destruct (fs !! k) as [feature'|] eqn:Hk'.
           ++ exists feature'. split; [done|].
              destruct (processFeatures_lookup _ _ _ _ _ _ Efs Hk')
                as (f0 & Hf0 & Hpf).
              rewrite list_lookup_fmap, Hk in Hf0. by injection Hf0 as <-.
           ++ apply lookup_ge_None in Hk'. apply lookup_lt_Some in Hk. lia.
    + case_bool_decide as Ef.
      * destruct (processFeature h 0 _) as [pf|]; [|done].
        cbn in Hd. injection Hd as <-. split; [done|].
        eexists. split; [reflexivity|]. by exists pf.
      * injection Hd as <-. split; [done|].
        eexists. split; [reflexivity|done].
Qed.

(** The collection [sample_collection], and the bare feature
    [point_feature], which is wrapped. *)
Lemma TS_processGeoJSON_collection_witness :
  (get sample_collection_processed "type" = Ok (VStr "FeatureCollection")
   ∧ ∃ features,
       get sample_collection_processed "features" = Ok (arr features)
       ∧ ∃ l own,
           field sample_collection "features" = Some (VArr l own)
           ∧ length features = length l
           ∧ (∀ k feature, l !! k = Some feature →
                ∃ feature', features !! k = Some feature'
                  ∧ processFeature example_host k (reparsed feature)
                    = Ok feature')
           ∧ sample_collection_processed
             = VObj (<["features" := arr features]>
                       (props_of (reparsed sample_collection))))
  ∧ ∃ feature',
      processFeature example_host 0 (reparsed point_feature) = Ok feature'
      ∧ point_feature_wrapped
        = obj [ ("type", VStr "FeatureCollection");
                ("features", arr [feature']) ].
Proof.
  split.
  - apply (TS_processGeoJSON_collection example_host sample_collection
             sample_collection_processed); vm_compute; reflexivity.
  - destruct (TS_processGeoJSON_collection example_host point_feature
                point_feature_wrapped)
      as (_ & features & _ & feature' & Hpf & _ & E);
      [vm_compute; reflexivity..|].
    by exists feature'.
Defined.

(** C1, as stated, fails: this collection passes validation, and
    [processGeoJSON] throws on it, at [feature.properties] for the feature
    that is [null]. *)
Lemma TS_processGeoJSON_counterexample :
  isValidGeoJSON null_feature = Ok true
  ∧ TS.processGeoJSON example_host null_feature = Throw TypeError.
Proof. split; vm_compute; reflexivity. Qed.

(** The JavaScript edition does not wrap: a bare feature comes back as a
    feature. *)
Lemma JS_processGeoJSON_bare_feature h :
  isValidGeoJSON point_feature = Ok true
  ∧ JS.processGeoJSON h point_feature
    = Ok (obj [ ("type", VStr "Feature");
                ("geometry",
                 obj [("type", VStr "Point"); ("coordinates", point 1 2)]);
                ("properties", obj [("processed_at", VStr (now h 0))]) ]).
Proof. split; vm_compute; reflexivity. Qed.

(** ** What [JSON.parse(JSON.stringify(v))] gives back *)

Lemma map_fold_vsize_lookup (o : gmap string value) k x :
  o !! k = Some x → (vsize x ≤ map_fold (λ _ x n, vsize x + n) 0 o)%nat.
Proof.
  intros H. rewrite (map_fold_delete_L _ _ k x o); [lia| |done].
  intros. lia.
Qed.

Lemma sum_list_vsize_elem (l : list value) x :
  x ∈ l → (vsize x ≤ sum_list (vsize <$> l))%nat.
Proof.
  induction l as [|y l IH]; intros H; [by apply elem_of_nil in H|].
  rewrite fmap_cons. simpl.
  apply elem_of_cons in H as [->|H]; [lia|]. specialize (IH H). lia.
Qed.

(** Induction on a value, with the property at hand for the elements and
    the named properties of an array and for the properties of an object. *)
Lemma value_nested_ind (P : value → Prop) :
  P VUndefined → P VNull → (∀ b, P (VBool b)) → (∀ x, P (VNum x)) →
  (∀ s, P (VStr s)) → (∀ n, P (VNative n)) →
  (∀ l own, Forall P l → map_Forall (λ _, P) own → P (VArr l own)) →
  (∀ o, map_Forall (λ _, P) o → P (VObj o)) →
  ∀ v, P v.
Proof.
  intros Hu Hn Hb Hx Hs Hnat Harr Hobj v.
  remember (vsize v) as n eqn:Hsize.
  revert v Hsize. induction (lt_wf n) as [n _ IH]. intros v ->.
  destruct v as [| | | | |l own|o|]; auto.
  - apply Harr.
    + apply Forall_forall. intros x Hx'%sum_list_vsize_elem.
      apply (IH (vsize x)); [simpl; lia|done].
    + intros k x Hk%map_fold_vsize_lookup.
      apply (IH (vsize x)); [simpl; lia|done].
  - apply Hobj. intros k x Hk%map_fold_vsize_lookup.
    apply (IH (vsize x)); [simpl; lia|done].
Qed.

(** ** The JSON round trip *)

Lemma reparsed_serialized v : serialized (reparsed v) = true.
Proof.
  destruct v as [| | |x| | | |[]]; try done.
  simpl. by destruct (PrimFloat.is_finite x).
Qed.

Lemma stable_serialized v : stable v → serialized v = true.
Proof. intros <-. apply reparsed_serialized. Qed.

Lemma reparsed_number x :
  reparsed (reparsed (VNum x)) = reparsed (VNum x).
Proof.
  cbn [reparsed].
  destruct (PrimFloat.is_finite x) eqn:Ef; [|done].
  destruct (PrimFloat.eqb x 0) eqn:Ez; cbn [reparsed].
  - done.
  - by rewrite Ef, Ez.
Qed.

(** The round trip is idempotent: what [JSON.parse] returns is stable. *)
Lemma reparsed_stable v : stable (reparsed v).
Proof.
  unfold stable.
  induction v as [| | |x| |[]|l own IHl _|o IH] using value_nested_ind;
    try done.
  - apply reparsed_number.
  - cbn [reparsed]. f_equal.
    rewrite List.map_map. apply List.map_ext_in.
    intros x Hx%list_elem_of_In. by apply (proj1 (Forall_forall _ _) IHl).
  - cbn [reparsed]. f_equal. apply map_eq. intros k.
    rewrite !lookup_omap.
    destruct (o !! k) as [x|] eqn:Ek; [|done]. cbn.
    destruct (serialized x); [|done]. cbn.
    by rewrite reparsed_serialized, (IH k x Ek).
Qed.

Lemma stable_lookup o k x : stable (VObj o) → o !! k = Some x → stable x.
Proof.
  unfold stable. cbn [reparsed]. intros [= Ho] Hk.
  apply (f_equal (λ m : gmap string value, m !! k)) in Ho.
  rewrite lookup_omap, Hk in Ho. cbn in Ho.
  destruct (serialized x); by simplify_eq.
Qed.

Lemma stable_array l own : stable (VArr l own) → own = ∅ ∧ Forall stable l.
Proof.
  unfold stable. cbn [reparsed]. intros [= Hl <-]. split; [done|].
  apply Forall_forall. intros x Hx.
  apply list_elem_of_lookup in Hx as [i Hi].
  apply (f_equal (λ l' : list value, l' !! i)) in Hl.
  rewrite Hi in Hl. change (map reparsed l) with (reparsed <$> l) in Hl.
  rewrite list_lookup_fmap, Hi in Hl. by injection Hl.
Qed.

(** ** Time stamps *)

Lemma standardizeValue_lookup_ne k o k' :
  k' ≠ k → standardizeValue k o !! k' = o !! k'.
Proof.
  intros Hk. unfold standardizeValue.
  destruct (truthy _); [|done]. by rewrite lookup_insert_ne.
Qed.

(** [standardizeProperties] leaves [processed_at] alone. *)
Lemma standardizeProperties_processed_at properties :
  standardizeProperties properties !! "processed_at"
  = spread properties !! "processed_at".
Proof.
  unfold standardizeProperties, applyMappings.
  rewrite !standardizeValue_lookup_ne by done.
  apply foldl_lookup_other. intros s t Hst.
  assert (H : Forall (λ p, p.1 ≠ p.2 ∧ "processed_at" ≠ p.1
                           ∧ "processed_at" ≠ p.2) propertyMappings)
    by by apply (bool_decide_unpack _).
  by apply (proj1 (Forall_forall _ _) H (s, t)).
Qed.

Lemma pretty_N_go_digit_head x s :
  digit_head s = true → digit_head (pretty_N_go x s) = true.
Proof.
  revert s. induction (N.lt_wf_0 x) as [x _ IH]. intros s Hs.
  destruct (decide (x = 0%N)) as [->|Hx]; [done|].
  rewrite pretty_N_go_step by lia. apply IH; [apply N.div_lt; lia|].
  unfold pretty_N_char. by repeat case_match.
Qed.

Lemma pretty_nat_digit_head (i : nat) : digit_head (pretty i) = true.
Proof.
  unfold pretty, pretty_nat, pretty, pretty_N.
  case_decide; [done|].
  rewrite pretty_N_go_step by lia. apply pretty_N_go_digit_head.
  unfold pretty_N_char. by repeat case_match.
Qed.

(** A name that does not start with a digit is no index: spreading an
    array gives it the value the array has for it. *)
Lemma spread_named v k :
  assignable v = true → digit_head k = false →
  spread v !! k = props_of v !! k.
Proof.
  intros Hv Hk. destruct v as [| | | | |l own|o|]; try done.
  cbn [spread props_of]. apply lookup_union_r.
  apply not_elem_of_list_to_map_1.
  intros ([k' x] & -> & Hin)%list_elem_of_fmap.
  apply list_elem_of_lookup in Hin as [i Hi].
  rewrite list_lookup_imap in Hi.
  destruct (l !! i); [|done]. cbn in Hi. injection Hi as <- _.
  cbn in Hk. by rewrite pretty_nat_digit_head in Hk.
Qed.

Lemma stable_empty_object : stable (VObj ∅).
Proof. unfold stable. cbn [reparsed]. by rewrite omap_empty. Qed.

Lemma stable_text s : stable (VStr s).
Proof. done. Qed.

Lemma stable_reparsed_eq v : stable v → reparsed v = v.
Proof. done. Qed.

(** After the stamping the properties have a truthy, stable
    [processed_at]. *)
Lemma stamp_processed_at h i properties stamped :
  now h i ≠ "" →
  properties = VUndefined ∨ stable properties →
  stamp h i properties = Ok stamped →
  assignable stamped = true
  ∧ ∃ t, props_of stamped !! "processed_at" = Some t
         ∧ stable t ∧ truthy t = true.
Proof.
  intros Hnow Hst. unfold stamp.
  set (p := if truthy properties then properties else VObj ∅).
  assert (Hp : stable p).
  { unfold p. destruct (truthy properties) eqn:E; [|apply stable_empty_object].
    by destruct Hst as [->|?]. }
  assert (Htp : truthy p = true).
  { unfold p. by destruct (truthy properties) eqn:E. }
  clearbody p. clear Hst.
  assert (Hnowt : truthy (VStr (now h i)) = true).
  { cbn. by rewrite bool_decide_eq_false_2. }
  destruct p as [| | | | |l own|o|[]]; try done; try (by cbn).
  - (* an array *)
    apply stable_array in Hp as [-> _].
    cbn [get]. rewrite decide_False by done. rewrite lookup_empty. cbn.
    intros [= <-]. split; [done|]. cbn. rewrite lookup_insert_eq.
    eauto using stable_text.
  - (* an object *)
    rewrite get_assignable by done. cbn [props_of]. rewrite bind_Ok.
    destruct (o !! "processed_at") as [t|] eqn:Et; cbn [default from_option id].
    + destruct (truthy t) eqn:Ett.
      * intros [= <-]. split; [done|]. exists t. split; [done|].
        split; [|done]. by eapply stable_lookup.
      * cbn. intros [= <-]. split; [done|]. cbn.
        rewrite lookup_insert_eq. eauto using stable_text.
    + cbn. intros [= <-]. split; [done|]. cbn.
      rewrite lookup_insert_eq. eauto using stable_text.
Qed.

Lemma processFeature_not_assignable h i feature :
  assignable feature = false → ∃ e, processFeature h i feature = Throw e.
Proof.
  intros Hf. unfold processFeature.
  destruct feature as [| | | | | | |[]]; try done; cbn; eauto.
Qed.

(** What the first pass leaves in a feature that is an object. *)
Lemma first_pass h i feature props' :
  now h i ≠ "" → stable feature →
  processFeature h i feature = Ok (VObj props') →
  ∃ standardized t,
    props' !! "properties" = Some (VObj standardized)
    ∧ standardized !! "processed_at" = Some t
    ∧ stable t ∧ truthy t = true
    ∧ (∀ x, props' !! "geometry" = Some x → stable x).
Proof.
  intros Hnow Hst Hpf.
  destruct (assignable feature) eqn:Ha.
  2:{ destruct (processFeature_not_assignable h i feature Ha). congruence. }
  rewrite processFeature_assignable in Hpf by done. cbn zeta in Hpf.
  destruct feature as [| | | | |l own|o|]; try discriminate Ha.
  { (* an array comes back as an array *)
    destruct (stamp _ _ _); [|discriminate Hpf]. rewrite bind_Ok in Hpf.
    destruct (polygonal _); [|discriminate Hpf].
    destruct (calculateApproximateArea _ _); discriminate Hpf. }
  cbn [props_of with_props] in Hpf.
  destruct (stamp h i _) as [stamped|] eqn:Es; [|discriminate Hpf].
  rewrite bind_Ok in Hpf.
  apply stamp_processed_at in Es as (Hsa & t & Ht & Hts & Htt); [|done|].
  2:{ destruct (o !! "properties") as [x|] eqn:Ex; [right|by left].
      by eapply stable_lookup. }
  assert (Hstd : standardizeProperties stamped !! "processed_at" = Some t).
  { rewrite standardizeProperties_processed_at.
    by rewrite spread_named. }
  assert (Hgeo : ∀ y x, <["properties" := y]> o !! "geometry" = Some x →
                        stable x).
  { intros y x. rewrite lookup_insert_ne by done. by apply stable_lookup. }
  destruct (polygonal _).
  - destruct (calculateApproximateArea _ _) as [a|]; [|discriminate Hpf].
    rewrite bind_Ok in Hpf. apply Ok_VObj_inj in Hpf; subst props'.
    eexists _, t. split; [apply lookup_insert_eq|].
    split; [by rewrite lookup_insert_ne|].
    split; [exact Hts|]. split; [exact Htt|]. apply Hgeo.
  - apply Ok_VObj_inj in Hpf; subst props'.
    eexists _, t. split; [apply lookup_insert_eq|].
    split; [exact Hstd|].
    split; [exact Hts|]. split; [exact Htt|]. apply Hgeo.
Qed.

(** What the second pass does with it. *)
Lemma second_pass h i props standardized t feature' :
  props !! "properties" = Some (VObj standardized) →
  standardized !! "processed_at" = Some t →
  stable t → truthy t = true →
  processFeature h i (reparsed (VObj props)) = Ok feature' →
  processed_at feature' = Ok t.
Proof.
  intros Hp Ht Hts Htt Hpf.
  rewrite processFeature_assignable in Hpf by done. cbn zeta in Hpf.
  rewrite !lookup_reparsed, Hp in Hpf.
  cbn [mbind option_bind serialized default from_option id] in Hpf.
  assert (Hrt : props_of (reparsed (VObj standardized)) !! "processed_at"
                = Some t).
  { rewrite lookup_reparsed, Ht. cbn.
    by rewrite (stable_serialized t Hts), (stable_reparsed_eq t Hts). }
  assert (Hstamp : stamp h i (reparsed (VObj standardized))
                   = Ok (reparsed (VObj standardized))).
  { unfold stamp. change (truthy (reparsed (VObj standardized))) with true.
    cbn iota. rewrite get_assignable by done. rewrite Hrt, bind_Ok.
    cbn [default from_option id]. by rewrite Htt. }
  rewrite Hstamp, bind_Ok in Hpf.
  assert (Hstd : standardizeProperties (reparsed (VObj standardized))
                 !! "processed_at" = Some t).
  { rewrite standardizeProperties_processed_at. by rewrite spread_named. }
  unfold processed_at.
  remember (standardizeProperties (reparsed (VObj standardized))) as sp eqn:Hsp.
  clear Hsp.
  destruct (polygonal _).
  - destruct (calculateApproximateArea _ _) as [a|]; [|discriminate Hpf].
    rewrite bind_Ok in Hpf. apply Ok_inj in Hpf; subst feature'.
    cbn [reparsed with_props]. js. by rewrite lookup_insert_ne, Hstd.
  - apply Ok_inj in Hpf; subst feature'. cbn [reparsed with_props]. js.
    by rewrite Hstd.
Qed.

(** The three ways in which the TypeScript [processGeoJSON] returns. *)
Lemma TS_processGeoJSON_cases h data d :
  TS.processGeoJSON h data = Ok d →
  (∃ o l own fs,
      reparsed data = VObj o
      ∧ o !! "type" = Some (VStr "FeatureCollection")
      ∧ o !! "features" = Some (VArr l own)
      ∧ processFeatures h 0 l = Ok fs
      ∧ d = VObj (<["features" := arr fs]> o))
  ∨ (∃ pf,
      processFeature h 0 (reparsed data) = Ok pf
      ∧ d = obj [ ("type", VStr "FeatureCollection");
                  ("features", arr [pf]) ])
  ∨ d = obj [ ("type", VStr "FeatureCollection");
              ("features",
               arr [ obj [ ("type", VStr "Feature");
                           ("geometry", reparsed data);
                           ("properties", VObj ∅) ] ]) ].
Proof.
  unfold TS.processGeoJSON, JSON_roundtrip. intros Hd.
  destruct (serialized data); [|discriminate Hd]. rewrite bind_Ok in Hd.
  destruct (get (reparsed data) "type") as [t|] eqn:Et; [|discriminate Hd].
  rewrite bind_Ok in Hd.
  destruct (is_string "FeatureCollection" t) eqn:Efc.
  - left.
    destruct (reparsed data) as [| | | | |l own|o|[]] eqn:Er;
      try (cbn in Et; injection Et as <-; discriminate Efc);
      try discriminate Et.
    { cbn in Et. injection Et as <-.
      destruct data as [| | | | | | |[]]; try discriminate Er.
      - cbn in Er. by destruct (PrimFloat.is_finite _).
      - injection Er as <- <-. discriminate Efc. }
    cbn [get] in Et, Hd. rewrite bind_Ok in Hd.
    apply Ok_inj in Et.
    destruct (o !! "features") as [[| | | | |l own| |]|] eqn:Ef;
      try discriminate Hd.
    cbn [default from_option id] in Hd.
    destruct (processFeatures h 0 l) as [fs|] eqn:Efs; [|discriminate Hd].
    rewrite bind_Ok in Hd. cbn [set_prop] in Hd. apply Ok_inj in Hd.
    exists o, l, own, fs. split; [done|]. split; [|done].
    destruct (o !! "type") as [x|]; [|subst t; discriminate Efc].
    cbn in Et. subst x. destruct t; try discriminate Efc.
    cbn in Efc. by apply bool_decide_eq_true_1 in Efc as ->.
  - right. destruct (is_string "Feature" t).
    + left. destruct (processFeature h 0 _) as [pf|]; [|discriminate Hd].
      rewrite bind_Ok in Hd. apply Ok_inj in Hd. by exists pf.
    + right. by apply Ok_inj in Hd.
Qed.

(** *** The second pass returns *)

Lemma bind_ext {A B} (m : result A) (f g : A → result B) :
  (∀ a, f a = g a) → (m ≫= f) = (m ≫= g).
Proof. intros H. destruct m; [apply H|done]. Qed.

Section SameCoercions.

(** Two hosts with the same [ToNumber]. *)
Variables h h' : host.
Hypothesis same_to_number : ∀ v, to_number h' v = to_number h v.

Lemma ToNumber_same v : ToNumber h' v = ToNumber h v.
Proof. destruct v; try done; apply same_to_number. Qed.

Lemma area_loop_same bound i rest area :
  area_loop h' bound i rest area = area_loop h bound i rest area.
Proof.
  revert i area. induction rest as [|a rest IH]; intros i area.
  { done. }
  cbn [area_loop]. destruct (_ <? _)%float; [|done].
  repeat (rewrite ?ToNumber_same; apply bind_ext; intros ?).
  apply IH.
Qed.

Lemma calculatePolygonArea_same coordinates :
  calculatePolygonArea h' coordinates = calculatePolygonArea h coordinates.
Proof.
  unfold calculatePolygonArea. apply bind_ext. intros len.
  rewrite ToNumber_same. apply bind_ext. intros n.
  destruct (_ <? _)%float; [done|]. by rewrite area_loop_same.
Qed.

Lemma reduce_areas_same polygons total :
  reduce_areas h' polygons total = reduce_areas h polygons total.
Proof.
  revert total. induction polygons as [|p ps IH]; intros total; [done|].
  cbn [reduce_areas]. apply bind_ext. intros ring.
  rewrite calculatePolygonArea_same. apply bind_ext. intros area. apply IH.
Qed.

Lemma calculateApproximateArea_same geometry :
  calculateApproximateArea h' geometry = calculateApproximateArea h geometry.
Proof.
  unfold calculateApproximateArea. apply bind_ext. intros type.
  destruct (is_string "Polygon" type).
  { apply bind_ext. intros coordinates. apply bind_ext. intros ring.
    apply calculatePolygonArea_same. }
  destruct (is_string "MultiPolygon" type); [|done].
  apply bind_ext. intros [| | | | |polygons own| |]; try done.
  apply reduce_areas_same.
Qed.

Lemma stamp_object i m : ∃ stamped, stamp h' i (VObj m) = Ok stamped.
Proof.
  unfold stamp. cbn [truthy get]. rewrite bind_Ok.
  destruct (truthy _); eauto.
Qed.

(** A feature that [processFeature] returned is copied and processed
    again: [processFeature] returns. *)
Lemma processFeature_again i j feature feature1 :
  stable feature →
  processFeature h i feature = Ok feature1 →
  ∃ feature2, processFeature h' j (reparsed feature1) = Ok feature2.
Proof.
  intros Hst H1.
  destruct (assignable feature) eqn:Ha.
  2:{ destruct (processFeature_not_assignable h i feature Ha). congruence. }
  rewrite processFeature_assignable in H1 by done. cbn zeta in H1.
  destruct (stamp h i _) as [stamped|]; [|discriminate H1].
  rewrite bind_Ok in H1.
  destruct feature as [| | | | |l own|o|]; try discriminate Ha.
  - (* an array: it has no [geometry] *)
    apply stable_array in Hst as [-> _]. cbn [props_of with_props] in H1.
    rewrite lookup_empty in H1. apply Ok_inj in H1. subst feature1.
    cbn [reparsed]. rewrite processFeature_assignable by done.
    cbn zeta. cbn [props_of with_props]. rewrite lookup_empty.
    cbn [default from_option id]. eauto.
  - cbn [props_of with_props] in H1.
    assert (Hgeo : ∀ y,
               props_of (reparsed (VObj (<["properties" := y]> o)))
                 !! "geometry" = o !! "geometry").
    { intros y. rewrite lookup_reparsed, lookup_insert_ne by done.
      destruct (o !! "geometry") as [x|] eqn:Hx; [|done]. cbn.
      assert (Hsx : stable x) by by eapply stable_lookup.
      by rewrite (stable_serialized x Hsx), (stable_reparsed_eq x Hsx). }
    assert (Hpr : ∀ m,
               ∃ m', props_of (reparsed (VObj (<["properties" := VObj m]> o)))
                       !! "properties" = Some (VObj m')).
    { intros m. rewrite lookup_reparsed, lookup_insert_eq. cbn. eauto. }
    assert (Hgoal : ∀ m,
               (polygonal (default VUndefined (o !! "geometry")) = true →
                ∃ a, calculateApproximateArea h
                       (default VUndefined (o !! "geometry")) = Ok a) →
               ∃ feature2,
                 processFeature h' j
                   (reparsed (VObj (<["properties" := VObj m]> o)))
                 = Ok feature2).
    { intros m Harea. rewrite processFeature_assignable by done. cbn zeta.
      rewrite Hgeo. destruct (Hpr m) as [m' ->].
      cbn [default from_option id].
      destruct (stamp_object j m') as [s ->]. rewrite bind_Ok.
      destruct (polygonal _); [|eauto].
      rewrite calculateApproximateArea_same.
      destruct Harea as [a ->]; [done|]. rewrite bind_Ok. eauto. }
    destruct (polygonal _).
    + destruct (calculateApproximateArea h _) as [a|] eqn:Ea;
        [|discriminate H1].
      rewrite bind_Ok in H1. apply Ok_inj in H1. subst feature1.
      apply Hgoal. eauto.
    + apply Ok_inj in H1. subst feature1. apply Hgoal. intros [=].
Qed.

Lemma processFeatures_again i j features features1 :
  Forall stable features →
  processFeatures h i features = Ok features1 →
  ∃ features2,
    processFeatures h' j (map reparsed features1) = Ok features2.
Proof.
  intros Hst. revert i j features1.
  induction Hst as [|f fs Hf _ IH]; intros i j fs1 H.
  - apply Ok_inj in H. subst fs1. by exists [].
  - unfold processFeatures in H; fold processFeatures in H.
    destruct (processFeature h i f) as [f1|] eqn:Ef; [|discriminate H].
    rewrite bind_Ok in H.
    destruct (processFeatures h (S i) fs) as [fs1'|] eqn:Efs;
      [|discriminate H].
    rewrite bind_Ok in H. apply Ok_inj in H. subst fs1.
    destruct (processFeature_again i j f f1 Hf Ef) as [f2 Hf2].
    destruct (IH (S i) (S j) fs1' Efs) as [fs2 Hfs2].
    exists (f2 :: fs2). cbn [map].
    unfold processFeatures; fold processFeatures.
    by rewrite Hf2, bind_Ok, Hfs2, bind_Ok.
Qed.

End SameCoercions.

(** The document is a collection. *)
Lemma TS_processGeoJSON_FeatureCollection h o l own :
  o !! "type" = Some (VStr "FeatureCollection") →
  o !! "features" = Some (VArr l own) →
  TS.processGeoJSON h (VObj o) =
    (fs ← processFeatures h 0 (map reparsed l);
     Ok (VObj (<["features" := arr fs]> (props_of (reparsed (VObj o)))))).
Proof.
  intros Ht Hf. unfold TS.processGeoJSON, JSON_roundtrip.
  cbn [serialized]. rewrite bind_Ok.
  assert (Et : props_of (reparsed (VObj o)) !! "type"
               = Some (VStr "FeatureCollection"))
    by by rewrite lookup_reparsed, Ht.
  assert (Ef : props_of (reparsed (VObj o)) !! "features"
               = Some (VArr (map reparsed l) ∅))
    by by rewrite lookup_reparsed, Hf.
  assert (Ha : assignable (reparsed (VObj o)) = true) by done.
  assert (Hw : ∀ p, with_props (reparsed (VObj o)) p = VObj p) by done.
  remember (reparsed (VObj o)) as r eqn:Hr. clear Hr.
  rewrite !get_assignable by done. rewrite Et, Ef.
  cbn [default from_option id]. rewrite bind_Ok. cbn [is_string].
  rewrite (bool_decide_eq_true_2 _ eq_refl), bind_Ok.
  destruct (processFeatures h 0 _) as [fs|]; [|done].
  rewrite !bind_Ok. rewrite set_prop_assignable by done.
  by rewrite Hw.
Qed.


(** *** Two passes over a document *)

(** The features of the document that the TypeScript [processGeoJSON]
    returns: the results of [processFeature] on the copied features, or the
    one feature made for a bare geometry. *)
Lemma TS_processGeoJSON_features h data d :
  TS.processGeoJSON h data = Ok d →
  ∃ o fs, d = VObj o
    ∧ o !! "type" = Some (VStr "FeatureCollection")
    ∧ o !! "features" = Some (arr fs)
    ∧ ((∃ fs0, Forall stable fs0 ∧ processFeatures h 0 fs0 = Ok fs)
       ∨ ∃ g, fs = [ obj [ ("type", VStr "Feature"); ("geometry", g);
                           ("properties", VObj ∅) ] ]).
Proof.
  intros Hd.
  destruct (TS_processGeoJSON_cases h data d Hd)
    as [(o & l & own & fs & Er & Ht & Hf & Hfs & ->)
       |[(pf & Hpf & ->)| ->]].
  - exists (<["features" := arr fs]> o), fs. split; [done|].
    split; [by rewrite lookup_insert_ne|].
    split; [apply lookup_insert_eq|].
    left. exists l. split; [|done].
    assert (Ho : stable (VObj o)) by (rewrite <- Er; apply reparsed_stable).
    apply (stable_lookup _ _ _ Ho) in Hf. by apply stable_array in Hf as [_ ?].
  - eexists _, [pf]. split; [reflexivity|].
    split; [done|]. split; [done|].
    left. exists [reparsed data].
    split; [apply Forall_singleton, reparsed_stable|].
    unfold processFeatures. by rewrite Hpf.
  - eexists _, [_]. split; [reflexivity|].
    split; [done|]. split; [done|]. right. by eexists.
Qed.

(** C4: the document [d1] that [processGeoJSON] returned, at a clock whose
    text is not empty, is processed again, at any clock.  For every feature
    of [d1] that is an object and has a [processed_at]: the second pass
    returns, with as many features, and the feature at the same position
    has the same [processed_at]. *)
Theorem processed_at_preserved h h' data d1 :
  (∀ i, now h i ≠ "") →
  (∀ v, to_number h' v = to_number h v) →
  TS.processGeoJSON h data = Ok d1 →
  ∃ fs1,
    get d1 "features" = Ok (arr fs1)
    ∧ ∀ k p t,
        fs1 !! k = Some (VObj p) →
        processed_at (VObj p) = Ok t → t ≠ VUndefined →
        ∃ d2 fs2 f2,
          TS.processGeoJSON h' d1 = Ok d2
          ∧ get d2 "features" = Ok (arr fs2)
          ∧ length fs2 = length fs1
          ∧ fs2 !! k = Some f2
          ∧ processed_at f2 = Ok t.
Proof.
  intros Hnow Hsame H1.
  destruct (TS_processGeoJSON_features h data d1 H1)
    as (o1 & fs1 & -> & Ht1 & Hf1 & Hfrom).
  exists fs1. split; [cbn [get]; by rewrite Hf1|].
  intros k p t Hk Hpa Hne.
  assert (Hread : ∀ m, p !! "properties" = Some (VObj m) →
                         t = default VUndefined (m !! "processed_at")).
  { intros m Hp. unfold processed_at in Hpa. cbn [get] in Hpa.
    rewrite Hp in Hpa. cbn [default from_option id] in Hpa.
    rewrite bind_Ok in Hpa. cbn [get] in Hpa. by apply Ok_inj in Hpa. }
  destruct Hfrom as [(fs0 & Hst & Hfs1)|[g ->]].
  2:{ destruct k as [|k]; [|done]. destruct Hne.
      rewrite (Hread ∅); [by rewrite lookup_empty|].
      change (Some (obj [ ("type", VStr "Feature"); ("geometry", g);
                          ("properties", VObj ∅) ]) = Some (VObj p)) in Hk.
      unfold obj in Hk. injection Hk as <-. by vm_compute. }
  destruct (processFeatures_again h h' Hsame 0 0 fs0 fs1 Hst Hfs1)
    as [fs2 Hfs2].
  assert (H2 : TS.processGeoJSON h' (VObj o1)
               = Ok (VObj (<["features" := arr fs2]>
                             (props_of (reparsed (VObj o1)))))).
  { rewrite (TS_processGeoJSON_FeatureCollection h' o1 fs1 ∅ Ht1 Hf1).
    by rewrite Hfs2. }
  assert (Hlen : length fs2 = length fs1).
  { apply processFeatures_length in Hfs2.
    by rewrite List.length_map in Hfs2. }
  destruct (fs2 !! k) as [f2|] eqn:Ek.
  2:{ apply lookup_ge_None_1 in Ek. apply lookup_lt_Some in Hk. lia. }
  eexists _, fs2, f2. split; [exact H2|].
  split; [cbn [get]; by rewrite lookup_insert_eq|].
  split; [exact Hlen|]. split; [done|].
  destruct (processFeatures_lookup h' 0 _ fs2 k f2 Hfs2 Ek)
    as (f & Hlk & Hpf2).
  change (map reparsed fs1) with (reparsed <$> fs1) in Hlk.
  rewrite list_lookup_fmap, Hk in Hlk.
  cbn [fmap option_fmap option_map] in Hlk. injection Hlk as <-.
  destruct (processFeatures_lookup h 0 fs0 fs1 k (VObj p) Hfs1 Hk)
    as (f0 & Hlk0 & Hpf1).
  assert (Hf0 : stable f0) by by apply (proj1 (Forall_lookup _ _) Hst k).
  destruct (first_pass h (0 + k) f0 p (Hnow _) Hf0 Hpf1)
    as (std & t' & Hp & Hs & Hts & Htt & _).
  assert (t = t') by (rewrite (Hread std Hp), Hs; done).
  subst t'. by eapply second_pass.
Qed.

Lemma processed_at_preserved_witness :
  ∃ fs1,
    get stamped_collection_once "features" = Ok (arr fs1)
    ∧ ∀ k p t,
        fs1 !! k = Some (VObj p) →
        processed_at (VObj p) = Ok t → t ≠ VUndefined →
        ∃ d2 fs2 f2,
          TS.processGeoJSON later_host stamped_collection_once = Ok d2
          ∧ get d2 "features" = Ok (arr fs2)
          ∧ length fs2 = length fs1
          ∧ fs2 !! k = Some f2
          ∧ processed_at f2 = Ok t.
Proof.
  apply (processed_at_preserved example_host later_host stamped_collection);
    [intros i; discriminate|reflexivity|vm_compute; reflexivity].
Defined.

(** The two passes on the example: the second feature keeps the time of
    the first pass. *)
Lemma stamped_collection_twice :
  TS.processGeoJSON example_host stamped_collection
  = Ok stamped_collection_once
  ∧ TS.processGeoJSON later_host stamped_collection_once
    = Ok stamped_collection_once.
Proof. split; vm_compute; reflexivity. Qed.

(** The same for one feature, as both editions process it: the second
    pass reads the time stamp that the first one left. *)
Lemma processFeature_twice h h' i j feature p f2 :
  now h i ≠ "" → stable feature →
  processFeature h i feature = Ok (VObj p) →
  processFeature h' j (reparsed (VObj p)) = Ok f2 →
  ∃ t, processed_at (VObj p) = Ok t ∧ truthy t = true
       ∧ processed_at f2 = Ok t.
Proof.
  intros Hnow Hst H1 H2.
  destruct (first_pass h i feature p Hnow Hst H1)
    as (std & t & Hp & Hs & Hts & Htt & _).
  exists t. split; [|split; [done|by eapply second_pass]].
  unfold processed_at. cbn [get]. rewrite Hp.
  cbn [default from_option id]. rewrite bind_Ok. cbn [get]. by rewrite Hs.
Qed.

(** A feature that is an array keeps no time stamp: its named properties
    are not written. *)
Lemma array_feature_stamped_again :
  ∃ d1, TS.processGeoJSON example_host
          (obj [ ("type", VStr "FeatureCollection");
                 ("features", arr [arr []]) ]) = Ok d1
  ∧ ∃ d2, TS.processGeoJSON later_host d1 = Ok d2
  ∧ (f1 ← get d1 "features"; f ← get_index f1 0; processed_at f)
    = Ok (VStr (now example_host 0))
  ∧ (f2 ← get d2 "features"; f ← get_index f2 0; processed_at f)
    = Ok (VStr (now later_host 0)).
Proof.
  eexists. split; [vm_compute; reflexivity|].
  eexists. split; [vm_compute; reflexivity|].
  split; vm_compute; reflexivity.
Qed.

(** ** The cells of the caller *)

(** [processGeoJSON] over the store: the cells that exist when it is called
    are the caller's, the document passed in among them. *)
Module StoreFacts.
Import Store StoreVocabulary.

Section Frame.

Variable st0 : store.

Lemma extends_refl : extends st0 st0.
Proof. exists []. by rewrite app_nil_r. Qed.

Lemma extends_prefix st : extends st0 st → st0 `prefix_of` st.
Proof. intros (new & -> & _). by exists new. Qed.

Lemma extends_length st : extends st0 st → (length st0 ≤ length st)%nat.
Proof. intros (new & -> & _). rewrite length_app. lia. Qed.

Lemma extends_snoc st c :
  extends st0 st → fresh_cell (length st0) c → extends st0 (st ++ [c]).
Proof.
  intros (new & -> & Hnew) Hc. exists (new ++ [c]).
  split; [by rewrite app_assoc|]. apply Forall_app. split; [done|].
  by apply Forall_singleton.
Qed.

Lemma extends_lookup st l c :
  extends st0 st → (length st0 ≤ l)%nat → st !! l = Some c →
  fresh_cell (length st0) c.
Proof.
  intros (new & -> & Hnew) Hl Hc. rewrite lookup_app_r in Hc by done.
  by apply (proj1 (Forall_lookup _ _) Hnew (l - length st0)%nat).
Qed.

Lemma extends_insert st l c :
  extends st0 st → (length st0 ≤ l)%nat → fresh_cell (length st0) c →
  extends st0 (<[l:=c]> st).
Proof.
  intros (new & -> & Hnew) Hl Hc. exists (<[(l - length st0)%nat:=c]> new).
  split; [by rewrite insert_app_r_alt|]. by apply Forall_insert.
Qed.

(** *** The monad *)

Lemma keeps_ret {A} (a : A) (Q : A → Prop) : Q a → keeps st0 (mret a) Q.
Proof. intros Ha st Hst. split; [done|]. by intros ? [= <-]. Qed.

Lemma keeps_bind {A B} (m : M A) (f : A → M B) (P : A → Prop)
    (Q : B → Prop) :
  keeps st0 m P → (∀ a, P a → keeps st0 (f a) Q) → keeps st0 (m ≫= f) Q.
Proof.
  intros Hm Hf st Hst. destruct (Hm st Hst) as [H1 H2].
  unfold mbind, M_bind. destruct (m st) as [[a|e] st1]; cbn [fst snd] in *.
  - by apply Hf; [apply H2|].
  - split; [done|]. intros ? [=].
Qed.

Lemma keeps_weaken {A} (m : M A) (P Q : A → Prop) :
  keeps st0 m P → (∀ a, P a → Q a) → keeps st0 m Q.
Proof.
  intros Hm HPQ st Hst. destruct (Hm st Hst) as [H1 H2].
  split; [done|]. intros a Ha. by apply HPQ, H2.
Qed.

Lemma keeps_lift {A} (r : result A) : keeps st0 (lift r) (λ _, True).
Proof. by intros st Hst. Qed.

Lemma keeps_throw {A} (e : error) (Q : A → Prop) : keeps st0 (throw e) Q.
Proof. intros st Hst. split; [done|]. intros ? [=]. Qed.

Lemma keeps_alloc c :
  fresh_cell (length st0) c → keeps st0 (alloc c) (fresh (length st0)).
Proof.
  intros Hc st Hst. split; [by apply extends_snoc|].
  intros ? [= <-]. by apply extends_length.
Qed.

Lemma keeps_read l :
  (length st0 ≤ l)%nat → keeps st0 (read l) (fresh_cell (length st0)).
Proof.
  intros Hl st Hst. unfold read.
  destruct (st !! l) as [c|] eqn:Hc; cbn [fst snd].
  - split; [done|]. intros ? [= <-]. by eapply extends_lookup.
  - split; [done|]. intros ? [=].
Qed.

Lemma keeps_write l c :
  (length st0 ≤ l)%nat → fresh_cell (length st0) c →
  keeps st0 (write l c) (λ _, True).
Proof. intros Hl Hc st Hst. split; [by apply extends_insert|done]. Qed.

(** *** Property access *)

Lemma fresh_default (m : gmap string sval) k :
  map_Forall (λ _, fresh (length st0)) m →
  fresh (length st0) (default SUndefined (m !! k)).
Proof.
  intros Hm. destruct (m !! k) as [x|] eqn:Hk; [|done]. by apply (Hm k).
Qed.

Lemma keeps_get v k :
  fresh (length st0) v → keeps st0 (get v k) (fresh (length st0)).
Proof.
  intros Hv. destruct v as [| | | | |l|[]]; cbn [get].
  1,2: apply keeps_throw.
  1-3,5-7: apply keeps_ret; by repeat case_match.
  eapply keeps_bind; [by apply keeps_read|].
  intros [elems own|props] Hc; apply keeps_ret.
  - destruct Hc as [_ Hown]. case_decide; [done|]. by apply fresh_default.
  - by apply fresh_default.
Qed.

Lemma keeps_set_prop v k x :
  fresh (length st0) v → fresh (length st0) x →
  keeps st0 (set_prop v k x) (λ _, True).
Proof.
  intros Hv Hx. destruct v as [| | | | |l|]; cbn [set_prop];
    try apply keeps_throw.
  eapply keeps_bind; [by apply keeps_read|].
  intros [elems own|props] Hc; apply keeps_write; try done.
  - destruct Hc as [Helems Hown]. split; [done|].
    by apply map_Forall_insert_2.
  - by apply map_Forall_insert_2.
Qed.

(** *** The copy *)

Lemma keeps_tree_of v : keeps st0 (tree_of v) (λ _, True).
Proof.
  intros st Hst. unfold tree_of. by destruct (reify _ _ _).
Qed.

Lemma parse_VObj props st :
  parse (VObj props) st =
    let '(props, st) := parse_own props st in
    (SRef (length st), st ++ [CObj props]).
Proof. reflexivity. Qed.

Lemma parse_VArr elems own st :
  parse (VArr elems own) st =
    let '(elems, st) := parse_list elems st in
    let '(own, st) := parse_own own st in
    (SRef (length st), st ++ [CArr elems own]).
Proof. reflexivity. Qed.

Lemma parse_own_fresh m st :
  map_Forall (λ _, parses_fresh st0) m → extends st0 st →
  extends st0 (parse_own m st).2
  ∧ map_Forall (λ _, fresh (length st0)) (parse_own m st).1.
Proof.
  intros Hm Hst. revert Hm. unfold parse_own.
  apply (map_fold_weak_ind
           (λ (r : gmap string sval * store) m,
              map_Forall (λ _, parses_fresh st0) m →
              extends st0 r.2 ∧ map_Forall (λ _, fresh (length st0)) r.1)).
  - intros _. split; [done|]. apply map_Forall_empty.
  - intros k x m' r Hk IH Hall.
    apply map_Forall_insert in Hall as [Hx Hall]; [|done].
    destruct (IH Hall) as [H1 H2].
    destruct (Hx r.2 H1) as [H3 H4].
    destruct (parse x r.2) as [y st1]. cbn [fst snd] in *.
    split; [done|]. by apply map_Forall_insert_2.
Qed.

Lemma parse_list_fresh l st :
  Forall (parses_fresh st0) l → extends st0 st →
  extends st0 (parse_list l st).2
  ∧ Forall (fresh (length st0)) (parse_list l st).1.
Proof.
  intros Hl. revert st. induction Hl as [|x l Hx _ IH]; intros st Hst.
  - by split.
  - cbn [parse_list]. destruct (Hx st Hst) as [H1 H2].
    destruct (parse x st) as [y st1]. cbn [fst snd] in *.
    destruct (IH st1 H1) as [H3 H4].
    destruct (parse_list l st1) as [ys st2]. cbn [fst snd] in *.
    split; [done|]. by constructor.
Qed.

Lemma parse_fresh t : parses_fresh st0 t.
Proof.
  induction t as [| | | | | |l own Hl Hown|o Ho] using value_nested_ind;
    try (by intros st Hst).
  - intros st Hst. rewrite parse_VArr.
    destruct (parse_list_fresh l st Hl Hst) as [H1 H2].
    destruct (parse_list l st) as [elems st1]. cbn [fst snd] in *.
    destruct (parse_own_fresh own st1 Hown H1) as [H3 H4].
    destruct (parse_own own st1) as [own' st2]. cbn [fst snd] in *.
    split; [by apply extends_snoc|by apply extends_length].
  - intros st Hst. rewrite parse_VObj.
    destruct (parse_own_fresh o st Ho Hst) as [H1 H2].
    destruct (parse_own o st) as [o' st1]. cbn [fst snd] in *.
    split; [by apply extends_snoc|by apply extends_length].
Qed.

Lemma keeps_JSON_parse t : keeps st0 (JSON_parse t) (fresh (length st0)).
Proof.
  intros st Hst. unfold JSON_parse.
  destruct (parse_fresh t st Hst) as [H1 H2].
  destruct (parse t st) as [v st1]. cbn [fst snd] in *.
  split; [done|]. by intros ? [= <-].
Qed.

Lemma keeps_JSON_roundtrip data :
  keeps st0 (JSON_roundtrip data) (fresh (length st0)).
Proof.
  eapply keeps_bind; [apply keeps_tree_of|]. intros t _.
  destruct (serialized t); [apply keeps_JSON_parse|apply keeps_throw].
Qed.

(** *** Property standardization *)

Lemma fresh_prim v : fresh (length st0) (prim v).
Proof. by destruct v. Qed.

Lemma fresh_standardizeRiskLevel v :
  fresh (length st0) v → fresh (length st0) (standardizeRiskLevel v).
Proof.
  intros Hv. destruct v; try done. cbn [standardizeRiskLevel].
  destruct (truthy _); [apply fresh_prim|done].
Qed.

Lemma keeps_spread v :
  fresh (length st0) v →
  keeps st0 (spread v) (map_Forall (λ _, fresh (length st0))).
Proof.
  intros Hv. destruct v as [| | | |s|l|]; cbn [spread];
    try (apply keeps_ret; apply map_Forall_empty).
  - apply keeps_ret. intros k x Hk.
    apply elem_of_list_to_map_2, list_elem_of_lookup in Hk as [i Hi].
    rewrite list_lookup_imap in Hi.
    destruct (list_ascii_of_string s !! i); [|done].
    by injection Hi as _ <-.
  - eapply keeps_bind; [by apply keeps_read|].
    intros [elems own|props] Hc; apply keeps_ret; [|done].
    destruct Hc as [Helems Hown]. apply map_Forall_union_2; [|done].
    intros k x Hk.
    apply elem_of_list_to_map_2, list_elem_of_lookup in Hk as [i Hi].
    rewrite list_lookup_imap in Hi.
    destruct (elems !! i) as [y|] eqn:Hy; [|done].
    injection Hi as _ <-. by apply (proj1 (Forall_lookup _ _) Helems i).
Qed.

Lemma fresh_applyMapping standardized mapping :
  map_Forall (λ _, fresh (length st0)) standardized →
  map_Forall (λ _, fresh (length st0)) (applyMapping standardized mapping).
Proof.
  intros Hm. destruct mapping as [oldKey newKey]. unfold applyMapping.
  pose proof (fresh_default standardized oldKey Hm) as Hx.
  destruct (default SUndefined (standardized !! oldKey)); try done.
  all: case_decide;
    [apply map_Forall_delete|]; by apply map_Forall_insert_2.
Qed.

Lemma fresh_applyMappings standardized mappings :
  map_Forall (λ _, fresh (length st0)) standardized →
  map_Forall (λ _, fresh (length st0))
    (foldl applyMapping standardized mappings).
Proof.
  revert standardized.
  induction mappings as [|m ms IH]; intros standardized H; [done|].
  apply IH. by apply fresh_applyMapping.
Qed.

Lemma fresh_standardizeValue k o :
  map_Forall (λ _, fresh (length st0)) o →
  map_Forall (λ _, fresh (length st0)) (standardizeValue k o).
Proof.
  intros Ho. unfold standardizeValue. destruct (truthy _); [|done].
  apply map_Forall_insert_2; [|done].
  by apply fresh_standardizeRiskLevel, fresh_default.
Qed.

Lemma keeps_standardizeProperties properties :
  fresh (length st0) properties →
  keeps st0 (standardizeProperties properties) (fresh (length st0)).
Proof.
  intros Hp. eapply keeps_bind; [by apply keeps_spread|].
  intros standardized Hs. apply keeps_alloc.
  by apply fresh_standardizeValue, fresh_standardizeValue,
     fresh_applyMappings.
Qed.

Lemma keeps_calculateApproximateArea h geometry :
  keeps st0 (calculateApproximateArea h geometry) (λ _, True).
Proof.
  eapply keeps_bind; [apply keeps_tree_of|]. intros t _. apply keeps_lift.
Qed.

(** *** [processFeature] and [processGeoJSON] *)

Lemma keeps_processFeature h i feature :
  fresh (length st0) feature →
  keeps st0 (processFeature h i feature) (fresh (length st0)).
Proof.
  intros Hf. unfold processFeature.
  eapply keeps_bind; [by apply keeps_get|]. intros properties Hp.
  eapply (keeps_bind _ _ (λ _, True)).
  { destruct (negb (truthy properties)); [|by apply keeps_ret].
    eapply keeps_bind; [by apply keeps_alloc|]. intros o Ho.
    by apply keeps_set_prop. }
  intros _ _.
  eapply keeps_bind; [by apply keeps_get|]. intros properties' Hp'.
  eapply keeps_bind; [by apply keeps_get|]. intros processed_at Hpa.
  eapply (keeps_bind _ _ (λ _, True)).
  { destruct (negb (truthy processed_at)); [|by apply keeps_ret].
    by apply keeps_set_prop. }
  intros _ _.
  eapply keeps_bind; [by apply keeps_get|]. intros properties'' Hp''.
  eapply keeps_bind; [by apply keeps_standardizeProperties|].
  intros standardized Hs.
  eapply (keeps_bind _ _ (λ _, True)); [by apply keeps_set_prop|].
  intros _ _.
  eapply keeps_bind; [by apply keeps_get|]. intros geometry Hg.
  eapply (keeps_bind _ _ (fresh (length st0))).
  { destruct (truthy geometry); [by apply keeps_get|by apply keeps_ret]. }
  intros type Ht.
  eapply (keeps_bind _ _ (λ _, True)); [|intros _ _; by apply keeps_ret].
  destruct (truthy geometry && includes _ type); [|by apply keeps_ret].
  eapply keeps_bind; [by apply keeps_get|]. intros properties3 Hp3.
  eapply keeps_bind; [apply keeps_calculateApproximateArea|].
  intros area _. by apply keeps_set_prop.
Qed.

Lemma keeps_processFeatures h i features :
  Forall (fresh (length st0)) features →
  keeps st0 (processFeatures h i features) (Forall (fresh (length st0))).
Proof.
  intros Hfs. revert i. induction Hfs as [|f fs Hf _ IH]; intros i.
  - by apply keeps_ret.
  - cbn [processFeatures].
    eapply keeps_bind; [by apply keeps_processFeature|]. intros f' Hf'.
    eapply keeps_bind; [apply IH|]. intros fs' Hfs'.
    apply keeps_ret. by constructor.
Qed.

Lemma keeps_map_features h features :
  fresh (length st0) features →
  keeps st0 (map_features h features) (fresh (length st0)).
Proof.
  intros Hf. destruct features as [| | | | |l|]; cbn [map_features];
    try apply keeps_throw.
  eapply keeps_bind; [by apply keeps_read|].
  intros [elems own|props] Hc; [|apply keeps_throw].
  destruct Hc as [Helems _].
  eapply keeps_bind; [by apply keeps_processFeatures|]. intros elems' He.
  apply keeps_alloc. split; [done|apply map_Forall_empty].
Qed.

Lemma keeps_new_object l :
  Forall (λ p, fresh (length st0) p.2) l →
  keeps st0 (new_object l) (fresh (length st0)).
Proof.
  intros Hl. apply keeps_alloc. intros k x Hk.
  apply elem_of_list_to_map_2 in Hk.
  by apply (proj1 (Forall_forall _ _) Hl (k, x)).
Qed.

Lemma keeps_JS_processGeoJSON h data :
  keeps st0 (JS.processGeoJSON h data) (fresh (length st0)).
Proof.
  unfold JS.processGeoJSON.
  eapply keeps_bind; [apply keeps_JSON_roundtrip|]. intros processedData Hd.
  eapply keeps_bind; [by apply keeps_get|]. intros type Ht.
  destruct (is_string "FeatureCollection" type).
  - eapply keeps_bind; [by apply keeps_get|]. intros features Hf.
    eapply keeps_bind; [by apply keeps_map_features|]. intros features' Hf'.
    eapply (keeps_bind _ _ (λ _, True)); [by apply keeps_set_prop|].
    intros _ _. by apply keeps_ret.
  - destruct (is_string "Feature" type); [by apply keeps_processFeature|].
    by apply keeps_ret.
Qed.

Lemma keeps_TS_processGeoJSON h data :
  keeps st0 (TS.processGeoJSON h data) (fresh (length st0)).
Proof.
  unfold TS.processGeoJSON.
  eapply keeps_bind; [apply keeps_JSON_roundtrip|]. intros processedData Hd.
  eapply keeps_bind; [by apply keeps_get|]. intros type Ht.
  destruct (is_string "FeatureCollection" type).
  - eapply keeps_bind; [by apply keeps_get|]. intros features Hf.
    eapply keeps_bind; [by apply keeps_map_features|]. intros features' Hf'.
    eapply (keeps_bind _ _ (λ _, True)); [by apply keeps_set_prop|].
    intros _ _. by apply keeps_ret.
  - destruct (is_string "Feature" type).
    + eapply keeps_bind; [by apply keeps_processFeature|]. intros pf Hpf.
      eapply keeps_bind.
      { apply keeps_alloc. split; [|apply map_Forall_empty].
        by apply Forall_singleton. }
      intros features Hf. apply keeps_new_object. by repeat constructor.
    + eapply keeps_bind; [apply keeps_alloc, map_Forall_empty|].
      intros properties Hp.
      eapply keeps_bind; [apply keeps_new_object; by repeat constructor|].
      intros feature Hf.
      eapply keeps_bind.
      { apply keeps_alloc. split; [|apply map_Forall_empty].
        by apply Forall_singleton. }
      intros features Hfs. apply keeps_new_object. by repeat constructor.
Qed.

End Frame.

(** *** The tree of a value in a longer store *)

Lemma reify_S fuel st l :
  reify (S fuel) st (SRef l) =
    match st !! l with
    | Some (CArr elems own) =>
        elems ← mapM (reify fuel st) elems;
        own ← reify_all fuel st own;
        Some (VArr elems own)
    | Some (CObj props) => VObj <$> reify_all fuel st props
    | None => None
    end.
Proof. reflexivity. Qed.

(** The cells that are added to a store do not change the tree of a value
    that has one. *)
Lemma reify_app fuel st new v t :
  reify fuel st v = Some t → reify fuel (st ++ new) v = Some t.
Proof.
  revert v t. induction fuel as [|fuel IH]; intros v t H.
  { by destruct v. }
  destruct v as [| | | | |l|]; try done.
  rewrite reify_S in H |- *.
  assert (Hall : ∀ m r, reify_all fuel st m = Some r →
                        reify_all fuel (st ++ new) m = Some r).
  { intros m r. unfold reify_all. case_bool_decide as Hm; [|done].
    intros [= <-].
    assert (E : reify fuel (st ++ new) <$> m = reify fuel st <$> m).
    { apply map_eq. intros k. rewrite !lookup_fmap.
      destruct (m !! k) as [x|] eqn:Hk; [|done]. cbn.
      destruct (Hm k (reify fuel st x)) as [y Hy].
      { by rewrite lookup_fmap, Hk. }
      by rewrite Hy, (IH _ _ Hy). }
    rewrite E. by rewrite bool_decide_eq_true_2. }
  destruct (st !! l) as [c|] eqn:Hl; [|done].
  rewrite (lookup_app_l_Some _ _ _ _ Hl).
  destruct c as [elems own|props].
  - destruct (mapM (reify fuel st) elems) as [es|] eqn:He; [|done].
    cbn in H.
    destruct (reify_all fuel st own) as [o|] eqn:Ho; [|done].
    assert (He' : mapM (reify fuel (st ++ new)) elems = Some es).
    { apply mapM_Some. apply mapM_Some in He.
      eapply Forall2_impl; [exact He|]. intros x y. apply IH. }
    by rewrite He', (Hall _ _ Ho).
  - destruct (reify_all fuel st props) as [o|] eqn:Ho; [|done].
    by rewrite (Hall _ _ Ho).
Qed.

(** C10: whatever the document is, and whether [processGeoJSON] returns or
    throws, in either edition: the store it leaves is the store it was
    called in, every cell as it was, followed by the cells it has
    allocated; and the document passed in has the tree it had. *)
Theorem processGeoJSON_input_unchanged h data st :
  (st `prefix_of` store_after (TS.processGeoJSON h data) st
   ∧ ∀ fuel t,
       reify fuel st data = Some t →
       reify fuel (store_after (TS.processGeoJSON h data) st) data = Some t)
  ∧ (st `prefix_of` store_after (JS.processGeoJSON h data) st
     ∧ ∀ fuel t,
         reify fuel st data = Some t →
         reify fuel (store_after (JS.processGeoJSON h data) st) data
         = Some t).
Proof.
  assert (H : ∀ m : M sval,
             keeps st m (fresh (length st)) →
             st `prefix_of` store_after m st
             ∧ ∀ fuel t, reify fuel st data = Some t →
                         reify fuel (store_after m st) data = Some t).
  { intros m Hm. destruct (Hm st (extends_refl st)) as [[new [E _]] _].
    unfold store_after. rewrite E. split; [by exists new|].
    intros fuel t. apply reify_app. }
  split; apply H;
    [apply keeps_TS_processGeoJSON|apply keeps_JS_processGeoJSON].
Qed.

End StoreFacts.

(** The two models return the same documents for the examples. *)
Lemma run_store_examples :
  StoreVocabulary.run_store Store.TS.processGeoJSON example_host sample_collection
  = TS.processGeoJSON example_host sample_collection
  ∧ StoreVocabulary.run_store Store.JS.processGeoJSON example_host
      sample_collection
    = JS.processGeoJSON example_host sample_collection
  ∧ StoreVocabulary.run_store Store.TS.processGeoJSON example_host
      stamped_collection
    = Ok stamped_collection_once
  ∧ StoreVocabulary.run_store Store.TS.processGeoJSON example_host two_squares
    = TS.processGeoJSON example_host two_squares.
Proof. repeat split; vm_compute; reflexivity. Qed.

(** * Further properties *)

(** ** More on risk levels *)

Lemma trimEnd_idemp s : trimEnd (trimEnd s) = trimEnd s.
Proof.
  induction s as [|c s IH]; [done|]. cbn [trimEnd].
  destruct (is_space c) eqn:Ec; cbn [andb].
  - case_bool_decide as E; [done|]. cbn [trimEnd]. rewrite Ec, IH. cbn [andb].
    by rewrite (bool_decide_eq_false_2 _ E).
  - cbn [trimEnd]. by rewrite Ec, IH.
Qed.

Lemma trimStart_no_leading_space s : no_leading_space (trimStart s).
Proof.
  induction s as [|c s IH]; [done|]. cbn [trimStart].
  by destruct (is_space c) eqn:Ec.
Qed.

Lemma trimStart_id s : no_leading_space s → trimStart s = s.
Proof. destruct s as [|c s]; [done|]. cbn. by intros ->. Qed.

Lemma trimEnd_no_leading_space s :
  no_leading_space s → no_leading_space (trimEnd s).
Proof.
  destruct s as [|c s]; [done|]. cbn [no_leading_space trimEnd].
  intros Hc. rewrite Hc. cbn [andb no_leading_space]. exact Hc.
Qed.

Lemma trim_idemp s : trim (trim s) = trim s.
Proof.
  unfold trim.
  rewrite (trimStart_id (trimEnd (trimStart s))).
  - apply trimEnd_idemp.
  - apply trimEnd_no_leading_space, trimStart_no_leading_space.
Qed.

(** The text that [standardizeRiskLevel] looks up is looked up as it is
    when it is given again. *)
Lemma lowercaseValue_fixed s :
  trim (toLowerCase (trim (toLowerCase s))) = trim (toLowerCase s).
Proof. by rewrite toLowerCase_lowercaseValue, trim_idemp. Qed.

(** The levels of the table are keys of the table, for themselves. *)
Lemma riskMappings_level k level :
  assoc riskMappings k = Some level →
  trim (toLowerCase level) = level ∧ assoc riskMappings level = Some level.
Proof.
  intros H%assoc_Some.
  assert (HF : Forall (λ p, trim (toLowerCase p.2) = p.2
                            ∧ assoc riskMappings p.2 = Some p.2)
                      riskMappings).
  { repeat constructor. }
  by apply (proj1 (Forall_forall _ _) HF (k, level)).
Qed.

Lemma standardizeRiskLevel_fixed v :
  standardizeRiskLevel (standardizeRiskLevel v) = standardizeRiskLevel v.
Proof.
  destruct v as [| | | |s| | |]; try done.
  rewrite (standardizeRiskLevel_text s). cbn zeta.
  destruct (assoc riskMappings (trim (toLowerCase s))) as [level|] eqn:E.
  - destruct (riskMappings_level _ _ E) as [E1 E2].
    rewrite standardizeRiskLevel_text. cbn zeta. by rewrite E1, E2.
  - destruct (decide (trim (toLowerCase s) = "constructor")); [done|].
    destruct (decide (trim (toLowerCase s) = "__proto__")); [done|].
    rewrite standardizeRiskLevel_text. cbn zeta.
    rewrite lowercaseValue_fixed, E.
    rewrite decide_False by done. by rewrite decide_False by done.
Qed.

(** X1: [standardizeRiskLevel] is idempotent: what it returns, a level of the
    table, a text in lower case without white space around it, or a value
    that is not a text, it returns as it is. *)
Theorem standardizeRiskLevel_idempotent v :
  standardizeRiskLevel (standardizeRiskLevel v) = standardizeRiskLevel v.
Proof. apply standardizeRiskLevel_fixed. Qed.

(** ** More on [standardizeProperties] *)

Lemma propertyMappings_distinct s t : (s, t) ∈ propertyMappings → s ≠ t.
Proof.
  intros H ->. apply (propertyMappings_targets t t H).
  by apply (propertyMappings_source t t).
Qed.

Lemma targets_standardized :
  "risk_level" ∈ propertyMappings.*2 ∧ "severity" ∈ propertyMappings.*2.
Proof. split; by apply (bool_decide_unpack _). Qed.

(** The renaming leaves alone a key that the table does not have, as a
    source or as a target. *)
Lemma applyMappings_lookup_other m k :
  k ∉ propertyMappings.*1 → k ∉ propertyMappings.*2 →
  applyMappings m !! k = m !! k.
Proof.
  intros Hs Ht. apply foldl_lookup_other. intros s t H.
  split; [by apply propertyMappings_distinct|]. split.
  - intros ->. apply Hs. by apply (propertyMappings_source s t).
  - intros ->. apply Ht. apply list_elem_of_fmap. by exists (s, t).
Qed.

(** X2: [standardizeProperties] leaves alone every property whose name the
    rename table has neither as a source nor as a target: the property is
    in the result with the value it had. *)
Theorem standardizeProperties_other_keys properties k :
  k ∉ propertyMappings.*1 → k ∉ propertyMappings.*2 →
  standardizeProperties properties !! k = spread properties !! k.
Proof.
  intros Hs Ht. unfold standardizeProperties.
  destruct targets_standardized as [Hr Hv].
  rewrite !standardizeValue_lookup_ne by (intros ->; done).
  by apply applyMappings_lookup_other.
Qed.

Lemma standardizeProperties_other_keys_witness :
  standardizeProperties
    (obj [("RISK_LEVEL", VStr "RED"); ("acres", VNum 12)]) !! "acres"
  = spread (obj [("RISK_LEVEL", VStr "RED"); ("acres", VNum 12)]) !! "acres".
Proof.
  apply (standardizeProperties_other_keys
           (obj [("RISK_LEVEL", VStr "RED"); ("acres", VNum 12)]) "acres").
  - by apply (bool_decide_unpack _).
  - by apply (bool_decide_unpack _).
Defined.

(** *** No source key is left *)

Lemma applyMapping_source_absent m s t :
  s ≠ t → present (applyMapping m (s, t)) s = false.
Proof.
  intros Hst. destruct (present_cases m s) as [E|(x & E & Hx)].
  - by rewrite applyMapping_absent.
  - rewrite (applyMapping_present _ _ _ x) by done.
    unfold present. by rewrite lookup_delete_eq.
Qed.

Lemma foldl_sources_absent (T : list (string * string)) m :
  NoDup (T.*1) →
  (∀ s t, (s, t) ∈ T → t ∉ T.*1) →
  Forall (λ p, present (foldl applyMapping m T) p.1 = false) T.
Proof.
  revert m. induction T as [|[s0 t0] T IH]; intros m Hnd Ht; [done|].
  cbn [fmap list_fmap fst] in Hnd. apply NoDup_cons in Hnd as [Hs0 Hnd].
  assert (Hst0 : s0 ≠ t0).
  { intros ->. apply (Ht t0 t0); left. }
  constructor.
  - cbn [foldl fst]. unfold present. rewrite foldl_lookup_other.
    + by apply applyMapping_source_absent.
    + intros s t H. split; [|split].
      * intros ->. apply (Ht t t); [by right|]. right.
        apply list_elem_of_fmap. by exists (t, t).
      * intros ->. apply Hs0. apply list_elem_of_fmap. by exists (s, t).
      * intros ->. apply (Ht s t); [by right|]. left.
  - cbn [foldl]. apply IH; [done|]. intros s t H Hin.
    apply (Ht s t); [by right|]. by right.
Qed.

(** After the renaming no source key of the table has a value. *)
Lemma applyMappings_sources_absent m :
  Forall (λ p, present (applyMappings m) p.1 = false) propertyMappings.
Proof.
  apply foldl_sources_absent; [apply propertyMappings_NoDup|].
  apply propertyMappings_targets.
Qed.

(** The turns for keys that have no value change nothing. *)
Lemma foldl_absent (T : list (string * string)) m :
  Forall (λ p, present m p.1 = false) T → foldl applyMapping m T = m.
Proof.
  induction 1 as [|[s t] T Hs _ IH]; [done|].
  cbn [foldl]. by rewrite applyMapping_absent.
Qed.

(** *** Values *)

Lemma standardizeValue_present k o k' :
  k' ≠ k → present (standardizeValue k o) k' = present o k'.
Proof. intros H. unfold present. by rewrite standardizeValue_lookup_ne. Qed.

Lemma standardizeValue_lookup_eq k o :
  standardizeValue k o !! k =
    if truthy (default VUndefined (o !! k))
    then Some (standardizeRiskLevel (default VUndefined (o !! k)))
    else o !! k.
Proof.
  unfold standardizeValue. destruct (truthy _); [|done].
  apply lookup_insert_eq.
Qed.

(** [if (o.k) o.k = standardizeRiskLevel(o.k)] changes nothing when the
    value is false or is returned by [standardizeRiskLevel] as it is. *)
Lemma standardizeValue_settled k o :
  (let x := default VUndefined (o !! k) in
   truthy x = false ∨ standardizeRiskLevel x = x) →
  standardizeValue k o = o.
Proof.
  cbn zeta. unfold standardizeValue. intros [H|H].
  - by rewrite H.
  - destruct (truthy _) eqn:Ht; [|done]. rewrite H.
    apply insert_id. destruct (o !! k); [done|discriminate Ht].
Qed.

Lemma standardizeValue_lookup k o :
  let x := default VUndefined (standardizeValue k o !! k) in
  truthy x = false ∨ standardizeRiskLevel x = x.
Proof.
  cbn zeta. unfold standardizeValue.
  destruct (truthy (default VUndefined (o !! k))) eqn:Ht; [|by left].
  right. rewrite lookup_insert_eq. cbn [default from_option id].
  apply standardizeRiskLevel_fixed.
Qed.

Lemma standardizeProperties_fixed properties :
  standardizeProperties (VObj (standardizeProperties properties))
  = standardizeProperties properties.
Proof.
  set (O := standardizeProperties properties).
  unfold standardizeProperties at 1. cbn [spread].
  destruct targets_standardized as [Hr Hv].
  assert (Hnot : ∀ s t k, (s, t) ∈ propertyMappings →
                          k ∈ propertyMappings.*2 → s ≠ k).
  { intros s t k H ([s' t'] & -> & H')%list_elem_of_fmap ->.
    apply (propertyMappings_targets s' t' H').
    by apply (propertyMappings_source _ t). }
  assert (HO : applyMappings O = O).
  { apply foldl_absent. apply Forall_forall. intros [s t] H. cbn [fst].
    unfold O, standardizeProperties.
    rewrite !standardizeValue_present by (by eapply Hnot).
    by apply (proj1 (Forall_forall _ _)
                (applyMappings_sources_absent (spread properties)) (s, t)). }
  rewrite HO.
  assert (Hrl : standardizeValue "risk_level" O = O).
  { apply standardizeValue_settled. unfold O, standardizeProperties.
    rewrite standardizeValue_lookup_ne by done.
    apply standardizeValue_lookup. }
  rewrite Hrl. apply standardizeValue_settled.
  unfold O, standardizeProperties. apply standardizeValue_lookup.
Qed.

(** X3: [standardizeProperties] is idempotent: the properties it returns are
    returned as they are when they are standardized again. *)
Theorem standardizeProperties_idempotent properties :
  standardizeProperties (VObj (standardizeProperties properties))
  = standardizeProperties properties.
Proof. apply standardizeProperties_fixed. Qed.

(** *** An alias and the key it stands for *)

(** X4: A property under a source key of the table replaces the property
    under the target: when [s] has the value [x], and no key that the table
    renames to the same target after [s] has a value, the target has the
    value [x] after the renaming, whatever it had. *)
Theorem alias_replaces_target (m : gmap string value)
    (T1 T3 : list (string * string)) (s t : string) (x : value) :
  propertyMappings = T1 ++ (s, t) :: T3 →
  (∀ s', (s', t) ∈ T3 → present m s' = false) →
  m !! s = Some x → x ≠ VUndefined →
  applyMappings m !! t = Some x
  ∧ standardizeProperties (VObj m) !! t
    = Some (if bool_decide (t ∈ ["risk_level"; "severity"]) && truthy x
            then standardizeRiskLevel x else x).
Proof.
  intros HT Habs Hs Hx.
  pose proof propertyMappings_NoDup as Hnd.
  assert (Hin : ∀ s' t', (s', t') ∈ T1 ∨ (s', t') = (s, t) ∨ (s', t') ∈ T3 →
                         (s', t') ∈ propertyMappings).
  { intros s' t' H. rewrite HT. rewrite elem_of_app, elem_of_cons.
    naive_solver. }
  assert (Hst : ∀ s1 t1 s2 t2, (s1, t1) ∈ propertyMappings →
                               (s2, t2) ∈ propertyMappings → s2 ≠ t1).
  { intros s1 t1 s2 t2 H1 H2 ->.
    apply (propertyMappings_targets s1 t1 H1).
    by apply (propertyMappings_source _ t2). }
  assert (Hsin : (s, t) ∈ propertyMappings) by (apply Hin; auto).
  rewrite HT in Hnd. rewrite fmap_app, fmap_cons in Hnd.
  cbn [fst] in Hnd.
  apply NoDup_app in Hnd as (Hd1 & Hd2 & Hnd).
  apply NoDup_cons in Hnd as (Hd3 & Hnd3).
  assert (Hfst : ∀ (T : list (string * string)) s' t',
                   (s', t') ∈ T → s' ∈ T.*1).
  { intros T s' t' H. apply list_elem_of_fmap. by exists (s', t'). }
  assert (E : applyMappings m !! t = Some x).
  { unfold applyMappings. rewrite HT, foldl_app. cbn [foldl].
    set (M1 := foldl applyMapping m T1).
    assert (HM1 : ∀ k t', (k, t') ∈ propertyMappings → k ∉ T1.*1 →
                          M1 !! k = m !! k).
    { intros k t' Hk Hn. unfold M1. apply foldl_lookup_other.
      intros s' t'' H. split; [|split].
      - apply (Hst s' t'' s' t''); apply Hin; auto.
      - intros ->. apply Hn. by eapply Hfst.
      - apply (Hst s' t'' k t'); [apply Hin; auto|done]. }
    assert (EM1 : M1 !! s = Some x).
    { rewrite (HM1 s t Hsin); [done|]. intros H. apply (Hd2 _ H). left. }
    rewrite (applyMapping_present M1 s t x EM1 Hx (Hst s t s t Hsin Hsin)).
    rewrite foldl_lookup_target.
    - rewrite lookup_delete_ne by exact (Hst s t s t Hsin Hsin).
      apply lookup_insert_eq.
    - done.
    - intros s' t' H. split.
      + intros ([s2 t2] & -> & H2)%list_elem_of_fmap. cbn [fst] in *.
        refine (Hst s' s2 s2 t2 _ _ eq_refl); apply Hin; auto.
      + apply (Hst s t s' t' Hsin). apply Hin; auto.
    - intros s' H. unfold present.
      assert (Hs'in : (s', t) ∈ propertyMappings) by (apply Hin; auto).
      rewrite lookup_delete_ne, lookup_insert_ne.
      + rewrite (HM1 s' t Hs'in); [by apply Habs|].
        intros H1. apply (Hd2 _ H1). right. by eapply Hfst.
      + exact (not_eq_sym (Hst s t s' t Hsin Hs'in)).
      + intros ->. apply Hd3. by eapply Hfst. }
  split; [exact E|].
  unfold standardizeProperties. cbn [spread]. fold (applyMappings m).
  destruct (decide (t = "severity")) as [->|Hsev].
  { rewrite standardizeValue_lookup_eq.
    rewrite standardizeValue_lookup_ne by done. rewrite E.
    cbn [default from_option id].
    rewrite (bool_decide_eq_true_2 ("severity" ∈ ["risk_level"; "severity"]))
      by by apply (bool_decide_unpack _).
    cbn [andb]. by destruct (truthy x). }
  rewrite standardizeValue_lookup_ne by done.
  destruct (decide (t = "risk_level")) as [->|Hrl].
  { rewrite standardizeValue_lookup_eq, E. cbn [default from_option id].
    rewrite (bool_decide_eq_true_2
               ("risk_level" ∈ ["risk_level"; "severity"]))
      by by apply (bool_decide_unpack _).
    cbn [andb]. by destruct (truthy x). }
  rewrite standardizeValue_lookup_ne by done. rewrite E.
  rewrite (bool_decide_eq_false_2 (t ∈ ["risk_level"; "severity"])); [done|].
  intros H. apply elem_of_cons in H as [->|H]; [done|].
  apply elem_of_cons in H as [->|H]; [done|]. by apply elem_of_nil in H.
Qed.

Lemma alias_replaces_target_witness :
  applyMappings
    (list_to_map [("risk_level", VStr "low"); ("RISK_LEVEL", VStr "RED")])
    !! "risk_level" = Some (VStr "RED")
  ∧ standardizeProperties
      (obj [("risk_level", VStr "low"); ("RISK_LEVEL", VStr "RED")])
      !! "risk_level"
    = Some (VStr "extreme").
Proof.
  apply (alias_replaces_target
           (list_to_map
              [("risk_level", VStr "low"); ("RISK_LEVEL", VStr "RED")])
           [] (drop 1 propertyMappings) "RISK_LEVEL" "risk_level"
           (VStr "RED")).
  - reflexivity.
  - intros s' H. vm_compute in H.
    apply elem_of_cons in H as [H|H]; [by simplify_eq|].
    repeat (apply elem_of_cons in H as [H|H]; [by simplify_eq|]).
    by apply elem_of_nil in H.
  - reflexivity.
  - discriminate.
Defined.

(** *** Aliases do not come through *)

(** X5: After [standardizeProperties] no source key of the rename table has
    a value: each is absent or [undefined]. *)
Theorem standardizeProperties_sources_absent properties :
  Forall (λ mapping, present (standardizeProperties properties) mapping.1
                     = false)
         propertyMappings.
Proof.
  apply Forall_forall. intros [s t] Hin. cbn [fst].
  unfold standardizeProperties.
  destruct targets_standardized as [Hr Hv].
  assert (Hne : ∀ k, k ∈ propertyMappings.*2 → s ≠ k).
  { intros k ([s' t'] & -> & H')%list_elem_of_fmap ->.
    apply (propertyMappings_targets s' t' H').
    by apply (propertyMappings_source _ t). }
  rewrite !standardizeValue_present by (by apply Hne).
  by apply (proj1 (Forall_forall _ _)
              (applyMappings_sources_absent (spread properties)) (s, t)).
Qed.

(** ** What [processFeature] returns *)

(** The properties after the first two statements of [processFeature]:
    an object or an array with a [processed_at], which is the text of the
    clock or a true value. *)
Lemma stamp_returns h i properties stamped :
  stamp h i properties = Ok stamped →
  assignable stamped = true
  ∧ ∃ t, props_of stamped !! "processed_at" = Some t
         ∧ (t = VStr (now h i) ∨ truthy t = true).
Proof.
  unfold stamp.
  set (p := if truthy properties then properties else VObj ∅).
  clearbody p.
  destruct p as [| | | |s|l own|o|[]];
    try (cbn [get]; rewrite ?decide_False by done; rewrite ?bind_Ok;
         cbn [truthy set_prop]; discriminate).
  - cbn [get]. rewrite decide_False by done. rewrite bind_Ok.
    destruct (own !! "processed_at") as [t|] eqn:Et;
      cbn [default from_option id].
    + destruct (truthy t) eqn:Ett.
      * intros H. apply Ok_inj in H. subst stamped. split; [done|].
        exists t. by split; [|right].
      * cbn [set_prop]. intros H. apply Ok_inj in H. subst stamped.
        split; [done|]. eexists. split; [apply lookup_insert_eq|by left].
    + cbn [truthy set_prop]. intros H. apply Ok_inj in H. subst stamped.
      split; [done|]. eexists. split; [apply lookup_insert_eq|by left].
  - cbn [get]. rewrite bind_Ok.
    destruct (o !! "processed_at") as [t|] eqn:Et;
      cbn [default from_option id].
    + destruct (truthy t) eqn:Ett.
      * intros H. apply Ok_inj in H. subst stamped. split; [done|].
        exists t. by split; [|right].
      * cbn [set_prop]. intros H. apply Ok_inj in H. subst stamped.
        split; [done|]. eexists. split; [apply lookup_insert_eq|by left].
    + cbn [truthy set_prop]. intros H. apply Ok_inj in H. subst stamped.
      split; [done|]. eexists. split; [apply lookup_insert_eq|by left].
Qed.

(** X6: What [processFeature] returns for a feature that is an object: the
    feature with a new object for its [properties] and every other member
    as it was.  The new properties have a [processed_at], which is the text
    of the clock or a true value; and when the geometry is a Polygon or a
    MultiPolygon they have a [calculated_area], the number that
    [calculateApproximateArea] returns. *)
Theorem processFeature_object h i o feature' :
  processFeature h i (VObj o) = Ok feature' →
  ∃ properties,
    feature' = VObj (<["properties" := VObj properties]> o)
    ∧ (∃ t, properties !! "processed_at" = Some t
            ∧ (t = VStr (now h i) ∨ truthy t = true))
    ∧ (polygonal (default VUndefined (o !! "geometry")) = true →
       ∃ a, calculateApproximateArea h (default VUndefined (o !! "geometry"))
            = Ok a
            ∧ properties !! "calculated_area" = Some (VNum a)).
Proof.
  intros H. rewrite processFeature_assignable in H by done.
  cbn zeta in H. cbn [props_of with_props] in H.
  destruct (stamp h i _) as [stamped|] eqn:Es; [|discriminate H].
  rewrite bind_Ok in H.
  destruct (stamp_returns _ _ _ _ Es) as (Ha & t & Ht & Htt).
  assert (Hstd : standardizeProperties stamped !! "processed_at" = Some t).
  { rewrite standardizeProperties_processed_at. by rewrite spread_named. }
  destruct (polygonal _).
  - destruct (calculateApproximateArea h _) as [a|]; [|discriminate H].
    rewrite bind_Ok in H. apply Ok_inj in H. subst feature'.
    eexists. split; [reflexivity|]. split.
    + exists t. by rewrite lookup_insert_ne.
    + intros _. exists a. split; [done|]. apply lookup_insert_eq.
  - apply Ok_inj in H. subst feature'.
    eexists. split; [reflexivity|]. split; [by exists t|]. intros [=].
Qed.

Lemma processFeature_object_witness :
  ∃ properties,
    obj [ ("type", VStr "Feature");
          ("geometry",
           obj [ ("type", VStr "MultiPolygon");
                 ("coordinates", arr [arr [square]; arr [unit_square]]) ]);
          ("properties",
           obj [ ("processed_at", VStr (now example_host 0));
                 ("calculated_area", VNum 5) ]) ]
    = VObj (<["properties" := VObj properties]> (props_of two_squares))
    ∧ (∃ t, properties !! "processed_at" = Some t
            ∧ (t = VStr (now example_host 0) ∨ truthy t = true))
    ∧ (polygonal (default VUndefined (props_of two_squares !! "geometry"))
       = true →
       ∃ a, calculateApproximateArea example_host
              (default VUndefined (props_of two_squares !! "geometry"))
            = Ok a
            ∧ properties !! "calculated_area" = Some (VNum a)).
Proof.
  apply (processFeature_object example_host 0 (props_of two_squares)).
  vm_compute. reflexivity.
Defined.

(** X7: A feature whose [properties] is false (absent, [null], [0], the empty
    text, [false]) gets new properties: the time, and the area when the
    geometry is a Polygon or a MultiPolygon. *)
Theorem processFeature_no_properties h i o :
  truthy (default VUndefined (o !! "properties")) = false →
  processFeature h i (VObj o) =
    (let geometry := default VUndefined (o !! "geometry") in
     if polygonal geometry then
       area ← calculateApproximateArea h geometry;
       Ok (VObj (<["properties" :=
                    obj [ ("processed_at", VStr (now h i));
                          ("calculated_area", VNum area) ]]> o))
     else
       Ok (VObj (<["properties" :=
                    obj [("processed_at", VStr (now h i))]]> o))).
Proof.
  intros Hp. rewrite processFeature_assignable by done.
  cbn zeta. cbn [props_of with_props].
  unfold stamp. rewrite Hp. cbn [get]. rewrite lookup_empty.
  cbn [default from_option id truthy set_prop]. rewrite !bind_Ok.
  assert (Hstd : standardizeProperties
                   (VObj (<["processed_at" := VStr (now h i)]> ∅))
                 = <["processed_at" := VStr (now h i)]> ∅).
  { unfold standardizeProperties. cbn [spread].
    assert (Hren : applyMappings (<["processed_at" := VStr (now h i)]> ∅)
                   = <["processed_at" := VStr (now h i)]> ∅).
    { apply foldl_absent. apply Forall_forall. intros [s t] Hin.
      cbn [fst]. unfold present. rewrite lookup_insert_ne.
      - by rewrite lookup_empty.
      - intros <-.
        assert (Hn : "processed_at" ∉ propertyMappings.*1)
          by by apply (bool_decide_unpack _).
        apply Hn. by apply (propertyMappings_source _ t). }
    rewrite Hren.
    rewrite (standardizeValue_settled "risk_level").
    2:{ cbn zeta. left. by rewrite lookup_insert_ne, lookup_empty. }
    apply standardizeValue_settled. cbn zeta. left.
    by rewrite lookup_insert_ne, lookup_empty. }
  change (truthy VUndefined) with false. cbn iota. rewrite bind_Ok.
  rewrite Hstd. unfold obj. cbn [list_to_map foldr fst snd uncurry].
  destruct (polygonal _); [|done].
  apply bind_ext. intros a. do 2 f_equal.
Qed.

Lemma processFeature_no_properties_witness :
  processFeature example_host 0
    (VObj (list_to_map
             [ ("type", VStr "Feature"); ("properties", VNull);
               ("geometry",
                obj [("type", VStr "Polygon"); ("coordinates", arr [square])]) ]))
  = Ok (obj [ ("type", VStr "Feature");
              ("properties",
               obj [ ("processed_at", VStr (now example_host 0));
                     ("calculated_area", VNum 4) ]);
              ("geometry",
               obj [("type", VStr "Polygon"); ("coordinates", arr [square])]) ]).
Proof.
  rewrite (processFeature_no_properties example_host 0); [|reflexivity].
  vm_compute. reflexivity.
Defined.

(** X8: A feature whose [properties] is a true primitive (a number, a text,
    [true]) that has no true [processed_at]: the time cannot be set on it,
    and [processFeature] throws a [TypeError]. *)
Theorem processFeature_primitive_properties h i o p :
  o !! "properties" = Some p →
  truthy p = true →
  typeof p = TBoolean ∨ typeof p = TNumber ∨ typeof p = TString →
  processFeature h i (VObj o) = Throw TypeError.
Proof.
  intros Hp Ht Hty. rewrite processFeature_assignable by done.
  cbn zeta. cbn [props_of]. rewrite Hp. cbn [default from_option id].
  unfold stamp. rewrite Ht.
  destruct p as [| |b|x|s| | |[]]; by destruct Hty as [?|[?|?]].
Qed.

Lemma processFeature_primitive_properties_witness :
  processFeature example_host 0
    (VObj (list_to_map
             [("type", VStr "Feature"); ("properties", VStr "none")]))
  = Throw TypeError.
Proof.
  apply (processFeature_primitive_properties example_host 0 _ (VStr "none"));
    [reflexivity|reflexivity|by right; right].
Defined.

(** ** A collection with a feature that fails *)

Lemma JS_processGeoJSON_FeatureCollection h o l own :
  o !! "type" = Some (VStr "FeatureCollection") →
  o !! "features" = Some (VArr l own) →
  JS.processGeoJSON h (VObj o) =
    (fs ← processFeatures h 0 (map reparsed l);
     Ok (VObj (<["features" := arr fs]> (props_of (reparsed (VObj o)))))).
Proof.
  intros Ht Hf. unfold JS.processGeoJSON, JSON_roundtrip.
  cbn [serialized]. rewrite bind_Ok.
  assert (Et : props_of (reparsed (VObj o)) !! "type"
               = Some (VStr "FeatureCollection"))
    by by rewrite lookup_reparsed, Ht.
  assert (Ef : props_of (reparsed (VObj o)) !! "features"
               = Some (VArr (map reparsed l) ∅))
    by by rewrite lookup_reparsed, Hf.
  assert (Ha : assignable (reparsed (VObj o)) = true) by done.
  assert (Hw : ∀ p, with_props (reparsed (VObj o)) p = VObj p) by done.
  remember (reparsed (VObj o)) as r eqn:Hr. clear Hr.
  rewrite !get_assignable by done. rewrite Et, Ef.
  cbn [default from_option id]. rewrite bind_Ok. cbn [is_string].
  rewrite (bool_decide_eq_true_2 _ eq_refl), bind_Ok.
  destruct (processFeatures h 0 _) as [fs|]; [|done].
  rewrite !bind_Ok. rewrite set_prop_assignable by done.
  by rewrite Hw.
Qed.

(** [features.map] stops at the first feature on which [processFeature]
    throws, with its error. *)
Lemma processFeatures_first_failure h i features k feature e :
  features !! k = Some feature →
  processFeature h (i + k) feature = Throw e →
  (∀ j fj, (j < k)%nat → features !! j = Some fj →
           ∃ fj', processFeature h (i + j) fj = Ok fj') →
  processFeatures h i features = Throw e.
Proof.
  revert i k. induction features as [|f fs IH]; intros i k Hk He Hbefore.
  { done. }
  unfold processFeatures; fold processFeatures.
  destruct k as [|k].
  - apply (inj Some) in Hk. subst f.
    rewrite Nat.add_0_r in He. by rewrite He.
  - destruct (Hbefore 0%nat f) as [f' Hf']; [lia|done|].
    rewrite Nat.add_0_r in Hf'. rewrite Hf', bind_Ok.
    rewrite (IH (S i) k); [done|done| |].
    + by rewrite Nat.add_succ_comm.
    + intros j fj Hj Hfj. rewrite Nat.add_succ_comm.
      apply (Hbefore (S j) fj); [lia|done].
Qed.

(** X9: A collection is normalized as a whole or not at all: when
    [processFeature] throws on the copy of a feature, and returns on those
    before it, [processGeoJSON] throws that error, in both editions, and no
    feature is returned. *)
Theorem collection_fails_with_feature h o l own k feature e :
  o !! "type" = Some (VStr "FeatureCollection") →
  o !! "features" = Some (VArr l own) →
  l !! k = Some feature →
  processFeature h k (reparsed feature) = Throw e →
  (∀ j fj, (j < k)%nat → l !! j = Some fj →
           ∃ fj', processFeature h j (reparsed fj) = Ok fj') →
  TS.processGeoJSON h (VObj o) = Throw e
  ∧ JS.processGeoJSON h (VObj o) = Throw e.
Proof.
  intros Ht Hf Hk He Hbefore.
  assert (H : processFeatures h 0 (map reparsed l) = Throw e).
  { apply (processFeatures_first_failure h 0 _ k (reparsed feature)).
    - change (map reparsed l) with (reparsed <$> l).
      by rewrite list_lookup_fmap, Hk.
    - exact He.
    - intros j fj Hj Hfj.
      change (map reparsed l) with (reparsed <$> l) in Hfj.
      rewrite list_lookup_fmap in Hfj.
      destruct (l !! j) as [x|] eqn:Hx; [|discriminate Hfj].
      cbn [fmap option_fmap option_map] in Hfj. apply (inj Some) in Hfj.
      subst fj. by apply (Hbefore j x). }
  rewrite (TS_processGeoJSON_FeatureCollection h o l own Ht Hf).
  rewrite (JS_processGeoJSON_FeatureCollection h o l own Ht Hf).
  by rewrite H.
Qed.

Lemma collection_fails_with_feature_witness :
  TS.processGeoJSON example_host
    (obj [ ("type", VStr "FeatureCollection");
           ("features", arr [point_feature; VNull]) ]) = Throw TypeError
  ∧ JS.processGeoJSON example_host
      (obj [ ("type", VStr "FeatureCollection");
             ("features", arr [point_feature; VNull]) ]) = Throw TypeError.
Proof.
  apply (collection_fails_with_feature example_host _
           [point_feature; VNull] ∅ 1 VNull TypeError).
  - reflexivity.
  - reflexivity.
  - reflexivity.
  - reflexivity.
  - intros [|j] fj Hj Hfj; [|lia]. apply (inj Some) in Hfj. subst fj.
    eexists. vm_compute. reflexivity.
Defined.

(** ** The sign of an area *)

Lemma not_negative_ltb x :
  not_negative (Prim2SF x) → (x <? 0)%float = false.
Proof.
  rewrite ltb_spec. change (Prim2SF 0) with (S754_zero false).
  by destruct (Prim2SF x) as [[]|[]| |[] m e].
Qed.

Lemma binary_round_aux_not_negative prec emax m e l :
  not_negative (binary_round_aux prec emax false m e l).
Proof.
  unfold binary_round_aux.
  destruct (shr_fexp prec emax m e l) as [mrs' e'].
  destruct (shr_fexp prec emax _ e' loc_Exact) as [mrs'' e''].
  destruct (shr_m mrs''); [done| |done].
  by destruct (_ <=? _)%Z.
Qed.

Lemma binary_round_not_negative prec emax m e :
  not_negative (binary_round prec emax false m e).
Proof.
  unfold binary_round. destruct (shl_align _ _ _) as [mz ez].
  apply binary_round_aux_not_negative.
Qed.

Lemma SFabs_not_negative x : not_negative (SFabs x).
Proof. by destruct x. Qed.

Lemma SF64div_not_negative x :
  not_negative x → not_negative (SF64div x (Prim2SF 2)).
Proof.
  change (Prim2SF 2) with (S754_finite false 4503599627370496 (-51)).
  destruct x as [[]|[]| |[] m e]; try done. intros _.
  unfold SF64div, SFdiv.
  destruct (SFdiv_core_binary _ _ _ _ _ _) as [[mz ez] lz].
  apply binary_round_aux_not_negative.
Qed.

Lemma SF64add_not_negative x y :
  not_negative x → not_negative y → not_negative (SF64add x y).
Proof.
  destruct x as [[]|[]| |[] mx ex]; destruct y as [[]|[]| |[] my ey];
    try done.
  intros _ _. unfold SF64add, SFadd. cbn zeta. cbn [cond_Zopp Z.add].
  apply binary_round_not_negative.
Qed.

(** The area of a ring is not negative. *)
Lemma calculatePolygonArea_not_negative h coordinates a :
  calculatePolygonArea h coordinates = Ok a → not_negative (Prim2SF a).
Proof.
  unfold calculatePolygonArea.
  destruct (get coordinates "length") as [len|]; [|discriminate].
  rewrite bind_Ok.
  destruct (ToNumber h len) as [n|]; [|discriminate]. rewrite bind_Ok.
  destruct (n <? 3)%float.
  { intros H. apply Ok_inj in H. by subst a. }
  destruct (area_loop _ _ _ _ _) as [area|]; [|discriminate].
  rewrite bind_Ok. intros H. apply Ok_inj in H. subst a.
  rewrite div_spec, abs_spec.
  apply SF64div_not_negative, SFabs_not_negative.
Qed.

Lemma reduce_areas_not_negative h polygons total a :
  not_negative (Prim2SF total) →
  reduce_areas h polygons total = Ok a → not_negative (Prim2SF a).
Proof.
  revert total. induction polygons as [|p ps IH]; intros total Ht.
  { intros H. apply Ok_inj in H. by subst a. }
  cbn [reduce_areas].
  destruct (get_index p 0) as [ring|]; [|discriminate]. rewrite bind_Ok.
  destruct (calculatePolygonArea h ring) as [area|] eqn:Ea; [|discriminate].
  rewrite bind_Ok. apply IH. rewrite add_spec.
  apply SF64add_not_negative; [done|].
  by eapply calculatePolygonArea_not_negative.
Qed.

(** X10: The area that [calculateApproximateArea] returns, which is what
    [processFeature] writes as [calculated_area], is never below zero:
    [a < 0] is false for it (it can be zero, positive, infinite or not a
    number). *)
Theorem calculateApproximateArea_not_negative h geometry a :
  calculateApproximateArea h geometry = Ok a → (a <? 0)%float = false.
Proof.
  intros H. apply not_negative_ltb. revert H.
  unfold calculateApproximateArea.
  destruct (get geometry "type") as [type|]; [|discriminate].
  rewrite bind_Ok.
  destruct (is_string "Polygon" type).
  { destruct (get geometry "coordinates") as [c|]; [|discriminate].
    rewrite bind_Ok.
    destruct (get_index c 0) as [ring|]; [|discriminate]. rewrite bind_Ok.
    apply calculatePolygonArea_not_negative. }
  destruct (is_string "MultiPolygon" type).
  2:{ intros H. apply Ok_inj in H. by subst a. }
  destruct (get geometry "coordinates") as [c|]; [|discriminate].
  rewrite bind_Ok.
  destruct c as [| | | | |polygons own| |]; try discriminate.
  by apply reduce_areas_not_negative.
Qed.

Lemma calculateApproximateArea_not_negative_witness :
  (4 <? 0)%float = false.
Proof.
  apply (calculateApproximateArea_not_negative example_host
           (obj [("type", VStr "Polygon"); ("coordinates", arr [square])])).
  vm_compute. reflexivity.
Defined.

(** ** Processing what was processed *)

Lemma applyMapping_insert m s t k v :
  k ≠ s → k ≠ t →
  applyMapping (<[k:=v]> m) (s, t) = <[k:=v]> (applyMapping m (s, t)).
Proof.
  intros Hs Ht. unfold applyMapping. rewrite lookup_insert_ne by done.
  destruct (default VUndefined (m !! s)); try done.
  all: rewrite (insert_insert_ne _ t k) by done.
  all: destruct (decide (s ≠ t)); [|done].
  all: by rewrite delete_insert_ne by done.
Qed.

Lemma foldl_applyMapping_insert (T : list (string * string)) m k v :
  (∀ s t, (s, t) ∈ T → k ≠ s ∧ k ≠ t) →
  foldl applyMapping (<[k:=v]> m) T = <[k:=v]> (foldl applyMapping m T).
Proof.
  revert m. induction T as [|[s t] T IH]; intros m HT; [done|].
  cbn [foldl]. destruct (HT s t) as [Hs Ht]; [left|].
  rewrite applyMapping_insert by done. apply IH.
  intros s' t' H. apply HT. by right.
Qed.

Lemma standardizeValue_insert k' o k v :
  k ≠ k' →
  standardizeValue k' (<[k:=v]> o) = <[k:=v]> (standardizeValue k' o).
Proof.
  intros Hk. unfold standardizeValue. rewrite lookup_insert_ne by done.
  destruct (truthy _); [|done]. by apply insert_insert_ne.
Qed.

(** Standardization goes past a property whose name the rename table
    does not have. *)
Lemma standardizeProperties_insert m k v :
  k ∉ propertyMappings.*1 → k ∉ propertyMappings.*2 →
  standardizeProperties (VObj (<[k:=v]> m))
  = <[k:=v]> (standardizeProperties (VObj m)).
Proof.
  intros Hs Ht. unfold standardizeProperties, applyMappings. cbn [spread].
  destruct targets_standardized as [Hr Hv].
  rewrite foldl_applyMapping_insert.
  - by rewrite !standardizeValue_insert by (intros ->; done).
  - intros s t H. split.
    + intros ->. apply Hs. by apply (propertyMappings_source s t).
    + intros ->. apply Ht. apply list_elem_of_fmap. by exists (s, t).
Qed.

Lemma calculated_area_not_renamed :
  ("calculated_area" ∉ propertyMappings.*1)
  ∧ ("calculated_area" ∉ propertyMappings.*2).
Proof. split; by apply (bool_decide_unpack _). Qed.

Lemma stamp_stamped h j properties t :
  properties !! "processed_at" = Some t → truthy t = true →
  stamp h j (VObj properties) = Ok (VObj properties).
Proof.
  intros Ht Htt. unfold stamp. cbn [truthy get]. rewrite Ht.
  cbn [default from_option id]. rewrite bind_Ok. by rewrite Htt.
Qed.

Section Again.

Variables h h' : host.
Hypothesis same_to_number : ∀ v, to_number h' v = to_number h v.

Lemma processFeature_fixed i j o feature1 :
  now h i ≠ "" →
  processFeature h i (VObj o) = Ok feature1 →
  processFeature h' j feature1 = Ok feature1.
Proof.
  intros Hnow H1. rewrite processFeature_assignable in H1 by done.
  cbn zeta in H1. cbn [props_of with_props] in H1.
  destruct (stamp h i _) as [stamped|] eqn:Es; [|discriminate H1].
  rewrite bind_Ok in H1.
  destruct (stamp_returns _ _ _ _ Es) as (Ha & t & Ht & Htt).
  assert (Htrue : truthy t = true).
  { destruct Htt as [->|?]; [|done]. cbn [truthy].
    by rewrite bool_decide_eq_false_2. }
  assert (Hstd : standardizeProperties stamped !! "processed_at" = Some t).
  { rewrite standardizeProperties_processed_at. by rewrite spread_named. }
  assert (Hidem : standardizeProperties (VObj (standardizeProperties stamped))
                  = standardizeProperties stamped)
    by apply standardizeProperties_fixed.
  destruct calculated_area_not_renamed as [Hca1 Hca2].
  remember (standardizeProperties stamped) as std eqn:Hs. clear Hs.
  destruct (polygonal (default VUndefined (o !! "geometry"))) eqn:Hp.
  - destruct (calculateApproximateArea h _) as [a|] eqn:Ea;
      [|discriminate H1].
    rewrite bind_Ok in H1. apply Ok_inj in H1. subst feature1.
    rewrite processFeature_assignable by done. cbn zeta.
    cbn [props_of with_props]. rewrite lookup_insert_eq.
    rewrite lookup_insert_ne by done. cbn [default from_option id].
    rewrite (stamp_stamped h' j _ t); [|by rewrite lookup_insert_ne|done].
    rewrite bind_Ok, Hp, (calculateApproximateArea_same h h') by done.
    rewrite Ea, bind_Ok.
    rewrite standardizeProperties_insert, Hidem by done.
    by rewrite !insert_insert_eq.
  - apply Ok_inj in H1. subst feature1.
    rewrite processFeature_assignable by done. cbn zeta.
    cbn [props_of with_props]. rewrite lookup_insert_eq.
    rewrite lookup_insert_ne by done. cbn [default from_option id].
    rewrite (stamp_stamped h' j _ t) by done.
    rewrite bind_Ok, Hp, Hidem. by rewrite insert_insert_eq.
Qed.

(** X11: [processFeature] is idempotent on a feature that is an object: the
    feature it returned, at a clock whose text is not empty, is returned
    as it is when it is processed again, at any position and at any
    time. *)
Theorem processFeature_idempotent i j o feature1 :
  now h i ≠ "" →
  processFeature h i (VObj o) = Ok feature1 →
  processFeature h' j feature1 = Ok feature1.
Proof. apply processFeature_fixed. Qed.

End Again.

Lemma processFeature_idempotent_witness :
  processFeature later_host 3
    (obj [ ("type", VStr "Feature");
           ("geometry",
            obj [ ("type", VStr "Polygon"); ("coordinates", arr [square]) ]);
           ("properties",
            obj [ ("processed_at", VStr (now example_host 0));
                  ("risk_level", VStr "extreme");
                  ("calculated_area", VNum 4) ]) ])
  = Ok (obj [ ("type", VStr "Feature");
              ("geometry",
               obj [ ("type", VStr "Polygon");
                     ("coordinates", arr [square]) ]);
              ("properties",
               obj [ ("processed_at", VStr (now example_host 0));
                     ("risk_level", VStr "extreme");
                     ("calculated_area", VNum 4) ]) ]).
Proof.
  apply (processFeature_idempotent example_host later_host
           (λ _, eq_refl) 0 3 (props_of polygon_feature)).
  - discriminate.
  - vm_compute. reflexivity.
Defined.

(** *** A document *)

Lemma TS_processGeoJSON_Feature h o :
  o !! "type" = Some (VStr "Feature") →
  TS.processGeoJSON h (VObj o) =
    (processedFeature ← processFeature h 0 (reparsed (VObj o));
     Ok (obj [ ("type", VStr "FeatureCollection");
               ("features", arr [processedFeature]) ])).
Proof.
  intros Ht. unfold TS.processGeoJSON, JSON_roundtrip.
  cbn [serialized]. rewrite bind_Ok.
  assert (Et : get (reparsed (VObj o)) "type" = Ok (VStr "Feature")).
  { rewrite get_assignable by done. by rewrite lookup_reparsed, Ht. }
  rewrite Et, bind_Ok. cbn [is_string].
  rewrite (bool_decide_eq_false_2 ("Feature" = "FeatureCollection"))
    by discriminate.
  by rewrite (bool_decide_eq_true_2 _ eq_refl).
Qed.

Lemma reparsed_array x l own : reparsed x = VArr l own → isArray x = true.
Proof.
  destruct x as [| | |y| | | |[]]; try done.
  cbn [reparsed]. by destruct (PrimFloat.is_finite y).
Qed.

(** A collection whose [features] is not an array, which validation
    rejects: [features.map] is not a function. *)
Lemma TS_processGeoJSON_no_features h o :
  o !! "type" = Some (VStr "FeatureCollection") →
  isArray (default VUndefined (o !! "features")) = false →
  TS.processGeoJSON h (VObj o) = Throw TypeError.
Proof.
  intros Ht Hf. unfold TS.processGeoJSON, JSON_roundtrip.
  cbn [serialized]. rewrite bind_Ok.
  assert (Et : props_of (reparsed (VObj o)) !! "type"
               = Some (VStr "FeatureCollection"))
    by by rewrite lookup_reparsed, Ht.
  assert (Ef : isArray (default VUndefined
                          (props_of (reparsed (VObj o)) !! "features"))
               = false).
  { rewrite lookup_reparsed.
    destruct (o !! "features") as [x|]; [|done].
    cbn [mbind option_bind default from_option id] in *.
    destruct (serialized x); [|done]. cbn [default from_option id].
    destruct (reparsed x) eqn:Er; try done.
    apply reparsed_array in Er. congruence. }
  assert (Ha : assignable (reparsed (VObj o)) = true) by done.
  remember (reparsed (VObj o)) as r eqn:Hr. clear Hr.
  rewrite !get_assignable by done. rewrite Et.
  cbn [default from_option id]. rewrite bind_Ok. cbn [is_string].
  rewrite (bool_decide_eq_true_2 _ eq_refl), bind_Ok.
  by destruct (default VUndefined (props_of r !! "features")).
Qed.

Section DocumentAgain.

Variables h h' : host.
Hypothesis same_to_number : ∀ v, to_number h' v = to_number h v.
Hypothesis clock_text : ∀ i, now h i ≠ "".

Lemma processFeature_stable_again i j feature feature1 :
  processFeature h i feature = Ok feature1 →
  stable feature1 →
  processFeature h' j feature1 = Ok feature1.
Proof.
  intros H1 Hst.
  destruct (assignable feature) eqn:Ha.
  2:{ destruct (processFeature_not_assignable h i feature Ha). congruence. }
  destruct feature as [| | | | |l own|o|]; try discriminate Ha.
  2:{ by apply (processFeature_fixed h h' same_to_number i j o). }
  exfalso. rewrite processFeature_assignable in H1 by done.
  cbn zeta in H1. cbn [props_of with_props] in H1.
  destruct (stamp h i _) as [stamped|]; [|discriminate H1].
  rewrite bind_Ok in H1.
  destruct (polygonal _).
  - destruct (calculateApproximateArea h _); [|discriminate H1].
    rewrite bind_Ok in H1. apply Ok_inj in H1. subst feature1.
    apply stable_array in Hst as [Hst _]. by apply insert_non_empty in Hst.
  - apply Ok_inj in H1. subst feature1.
    apply stable_array in Hst as [Hst _]. by apply insert_non_empty in Hst.
Qed.

Lemma processFeatures_stable_again i j features features1 :
  processFeatures h i features = Ok features1 →
  Forall stable features1 →
  processFeatures h' j features1 = Ok features1.
Proof.
  revert i j features1.
  induction features as [|f fs IH]; intros i j fs1 H Hst.
  - apply Ok_inj in H. by subst fs1.
  - unfold processFeatures in H; fold processFeatures in H.
    destruct (processFeature h i f) as [f1|] eqn:Ef; [|discriminate H].
    rewrite bind_Ok in H.
    destruct (processFeatures h (S i) fs) as [fs1'|] eqn:Efs;
      [|discriminate H].
    rewrite bind_Ok in H. apply Ok_inj in H. subst fs1.
    apply Forall_cons in Hst as [Hf1 Hfs1].
    unfold processFeatures; fold processFeatures.
    rewrite (processFeature_stable_again i j f f1 Ef Hf1), bind_Ok.
    by rewrite (IH (S i) (S j) fs1' Efs Hfs1).
Qed.

Lemma stable_map_reparsed l : Forall stable l → map reparsed l = l.
Proof.
  induction 1 as [|x l Hx _ IH]; [done|]. cbn [map]. by rewrite Hx, IH.
Qed.

(** X12: The TypeScript [processGeoJSON] is idempotent on collections and
    features, up to what JSON keeps: when the document it returned for a
    FeatureCollection or a Feature is written by [JSON.stringify] and read
    back as it is, processing that document again, at any time, returns
    it unchanged. *)
Theorem TS_processGeoJSON_idempotent o d1 :
  o !! "type" = Some (VStr "FeatureCollection")
  ∨ o !! "type" = Some (VStr "Feature") →
  TS.processGeoJSON h (VObj o) = Ok d1 →
  stable d1 →
  TS.processGeoJSON h' d1 = Ok d1.
Proof.
  intros Ht H1 Hst.
  assert (Hmain : ∀ o1 fs0 fs1 i,
             o1 !! "type" = Some (VStr "FeatureCollection") →
             o1 !! "features" = Some (arr fs1) →
             processFeatures h i fs0 = Ok fs1 →
             stable (VObj o1) →
             TS.processGeoJSON h' (VObj o1) = Ok (VObj o1)).
  { intros o1 fs0 fs1 i Ht1 Hf1 Hfs Hs1.
    rewrite (TS_processGeoJSON_FeatureCollection h' o1 fs1 ∅ Ht1 Hf1).
    assert (Hfs1 : Forall stable fs1).
    { apply (stable_lookup _ _ _ Hs1) in Hf1.
      by apply stable_array in Hf1 as [_ ?]. }
    rewrite (stable_map_reparsed fs1 Hfs1).
    rewrite (processFeatures_stable_again i 0 fs0 fs1 Hfs Hfs1), bind_Ok.
    rewrite Hs1. cbn [props_of]. by rewrite insert_id. }
  destruct Ht as [Ht|Ht].
  - destruct (isArray (default VUndefined (o !! "features"))) eqn:Harr.
    2:{ by rewrite (TS_processGeoJSON_no_features h o Ht Harr) in H1. }
    destruct (o !! "features") as [[| | | | |l own| |]|] eqn:Hf;
      try discriminate Harr.
    rewrite (TS_processGeoJSON_FeatureCollection h o l own Ht Hf) in H1.
    destruct (processFeatures h 0 _) as [fs1|] eqn:Hfs; [|discriminate H1].
    rewrite bind_Ok in H1. apply Ok_inj in H1. subst d1.
    apply (Hmain _ (map reparsed l) fs1 0%nat); try done.
    + by rewrite lookup_insert_ne, lookup_reparsed, Ht.
    + apply lookup_insert_eq.
  - rewrite (TS_processGeoJSON_Feature h o Ht) in H1.
    destruct (processFeature h 0 _) as [pf|] eqn:Hpf; [|discriminate H1].
    rewrite bind_Ok in H1. apply Ok_inj in H1. subst d1.
    apply (Hmain _ [reparsed (VObj o)] [pf] 0%nat); try done.
    unfold processFeatures. by rewrite Hpf.
Qed.

End DocumentAgain.

Lemma TS_processGeoJSON_idempotent_witness :
  TS.processGeoJSON later_host sample_collection_processed
  = Ok sample_collection_processed.
Proof.
  apply (TS_processGeoJSON_idempotent example_host later_host
           (λ _, eq_refl) (λ _, ltac:(discriminate))
           (props_of sample_collection)).
  - left. reflexivity.
  - vm_compute. reflexivity.
  - vm_compute. reflexivity.
Defined.

(** ** A bare geometry *)

Lemma processGeoJSON_other h data t :
  serialized data = true →
  get (reparsed data) "type" = Ok t →
  is_string "FeatureCollection" t = false →
  is_string "Feature" t = false →
  TS.processGeoJSON h data = Ok (wrapped (reparsed data))
  ∧ JS.processGeoJSON h data = Ok (reparsed data).
Proof.
  intros Hs Ht Hfc Hf.
  unfold TS.processGeoJSON, JS.processGeoJSON, JSON_roundtrip.
  rewrite Hs, !bind_Ok, Ht, !bind_Ok. by rewrite Hfc, Hf.
Qed.

(** X13: A validated document that is neither a FeatureCollection nor a
    Feature is not processed: the TypeScript edition returns a collection
    of one feature that has the copy of the document for its geometry and
    empty properties, with no [processed_at] and no [calculated_area]
    whatever the geometry; the JavaScript edition returns the copy.
    Neither throws. *)
Theorem processGeoJSON_bare_geometry h data s :
  isValidGeoJSON data = Ok true →
  field data "type" = Some (VStr s) →
  s ≠ "FeatureCollection" → s ≠ "Feature" →
  TS.processGeoJSON h data = Ok (wrapped (reparsed data))
  ∧ JS.processGeoJSON h data = Ok (reparsed data).
Proof.
  intros (Ha & _)%valid_inv Ht Hfc Hf.
  destruct data as [| | | | |l own|o|]; try discriminate Ha.
  - by apply (processGeoJSON_other h _ VUndefined).
  - apply (processGeoJSON_other h _ (VStr s)); [done| |..].
    + rewrite get_assignable by done. unfold field in Ht.
      cbn [props_of] in Ht. by rewrite lookup_reparsed, Ht.
    + cbn [is_string]. by apply bool_decide_eq_false_2.
    + cbn [is_string]. by apply bool_decide_eq_false_2.
Qed.

Lemma processGeoJSON_bare_geometry_witness :
  TS.processGeoJSON example_host
    (obj [("type", VStr "Polygon"); ("coordinates", arr [square])])
  = Ok (wrapped
          (reparsed
             (obj [("type", VStr "Polygon"); ("coordinates", arr [square])])))
  ∧ JS.processGeoJSON example_host
      (obj [("type", VStr "Polygon"); ("coordinates", arr [square])])
    = Ok (reparsed
            (obj [("type", VStr "Polygon"); ("coordinates", arr [square])])).
Proof.
  apply (processGeoJSON_bare_geometry example_host _ "Polygon").
  - vm_compute. reflexivity.
  - reflexivity.
  - discriminate.
  - discriminate.
Defined.

(** ** The JavaScript edition, again *)

Lemma JS_processGeoJSON_Feature h o :
  o !! "type" = Some (VStr "Feature") →
  JS.processGeoJSON h (VObj o) = processFeature h 0 (reparsed (VObj o)).
Proof.
  intros Ht. unfold JS.processGeoJSON, JSON_roundtrip.
  cbn [serialized]. rewrite bind_Ok.
  assert (Et : get (reparsed (VObj o)) "type" = Ok (VStr "Feature")).
  { rewrite get_assignable by done. by rewrite lookup_reparsed, Ht. }
  rewrite Et, bind_Ok. cbn [is_string].
  rewrite (bool_decide_eq_false_2 ("Feature" = "FeatureCollection"))
    by discriminate.
  by rewrite (bool_decide_eq_true_2 _ eq_refl).
Qed.

(** The three ways in which the JavaScript [processGeoJSON] returns. *)
Lemma JS_processGeoJSON_cases h data d :
  JS.processGeoJSON h data = Ok d →
  (∃ o l own fs,
      reparsed data = VObj o
      ∧ o !! "type" = Some (VStr "FeatureCollection")
      ∧ o !! "features" = Some (VArr l own)
      ∧ processFeatures h 0 l = Ok fs
      ∧ d = VObj (<["features" := arr fs]> o))
  ∨ (∃ o, reparsed data = VObj o
          ∧ o !! "type" = Some (VStr "Feature")
          ∧ processFeature h 0 (VObj o) = Ok d)
  ∨ (d = reparsed data
     ∧ ∃ t, get d "type" = Ok t
            ∧ is_string "FeatureCollection" t = false
            ∧ is_string "Feature" t = false).
Proof.
  unfold JS.processGeoJSON, JSON_roundtrip. intros Hd.
  destruct (serialized data); [|discriminate Hd]. rewrite bind_Ok in Hd.
  destruct (get (reparsed data) "type") as [t|] eqn:Et; [|discriminate Hd].
  rewrite bind_Ok in Hd.
  assert (Hobj : ∀ s, t = VStr s → s ≠ "length" →
                      ∃ o, reparsed data = VObj o ∧ o !! "type" = Some (VStr s)).
  { intros s -> Hs.
    destruct (reparsed data) as [| | | |s'|l own|o|[]] eqn:Er;
      try discriminate Et.
    all: cbn [get] in Et; rewrite ?decide_False in Et by done;
      try discriminate Et.
    - destruct data as [| | |y| | | |[]]; try discriminate Er.
      + cbn [reparsed] in Er. by destruct (PrimFloat.is_finite y).
      + injection Er as <- <-. by rewrite lookup_empty in Et.
    - exists o. split; [done|]. apply Ok_inj in Et.
      destruct (o !! "type") as [x|]; [|discriminate Et].
      cbn [default from_option id] in Et. by subst x. }
  destruct (is_string "FeatureCollection" t) eqn:Efc.
  - left. destruct t as [| | | |s| | |]; try discriminate Efc.
    cbn [is_string] in Efc. apply bool_decide_eq_true_1 in Efc. subst s.
    destruct (Hobj _ eq_refl) as (o & Er & Ht); [done|].
    rewrite Er in Hd. cbn [get] in Hd. rewrite bind_Ok in Hd.
    destruct (o !! "features") as [[| | | | |l own| |]|] eqn:Ef;
      try discriminate Hd.
    cbn [default from_option id] in Hd.
    destruct (processFeatures h 0 l) as [fs|] eqn:Efs; [|discriminate Hd].
    rewrite bind_Ok in Hd. cbn [set_prop] in Hd. apply Ok_inj in Hd.
    by exists o, l, own, fs.
  - right. destruct (is_string "Feature" t) eqn:Ef.
    + left. destruct t as [| | | |s| | |]; try discriminate Ef.
      cbn [is_string] in Ef. apply bool_decide_eq_true_1 in Ef. subst s.
      destruct (Hobj _ eq_refl) as (o & Er & Ht); [done|].
      exists o. rewrite Er in Hd. by split.
    + right. apply Ok_inj in Hd. subst d. split; [done|]. by exists t.
Qed.

Section JavaScriptAgain.

Variables h h' : host.
Hypothesis same_to_number : ∀ v, to_number h' v = to_number h v.
Hypothesis clock_text : ∀ i, now h i ≠ "".

(** X14: The JavaScript [processGeoJSON] is idempotent up to what JSON keeps,
    on every document: when the document it returned is written by
    [JSON.stringify] and read back as it is, processing that document
    again, at any time, returns it unchanged. *)
Theorem JS_processGeoJSON_idempotent data d1 :
  JS.processGeoJSON h data = Ok d1 →
  stable d1 →
  JS.processGeoJSON h' d1 = Ok d1.
Proof.
  intros H1 Hst.
  destruct (JS_processGeoJSON_cases h data d1 H1)
    as [(o & l & own & fs & Er & Ht & Hf & Hfs & ->)
       |[(o & Er & Ht & Hpf)|(-> & t & Ht & Hfc & Hf)]].
  - set (o1 := <["features" := arr fs]> o) in *.
    assert (Ht1 : o1 !! "type" = Some (VStr "FeatureCollection"))
      by by (unfold o1; rewrite lookup_insert_ne).
    assert (Hf1 : o1 !! "features" = Some (arr fs))
      by apply lookup_insert_eq.
    rewrite (JS_processGeoJSON_FeatureCollection h' o1 fs ∅ Ht1 Hf1).
    assert (Hfs1 : Forall stable fs).
    { apply (stable_lookup _ _ _ Hst) in Hf1.
      by apply stable_array in Hf1 as [_ ?]. }
    rewrite (stable_map_reparsed fs Hfs1).
    rewrite (processFeatures_stable_again h h' same_to_number clock_text
               0 0 l fs Hfs Hfs1), bind_Ok.
    rewrite Hst. cbn [props_of]. by rewrite insert_id.
  - pose proof Hpf as Hpf'.
    rewrite processFeature_assignable in Hpf' by done.
    cbn zeta in Hpf'. cbn [props_of with_props] in Hpf'.
    assert (∃ o1, d1 = VObj o1 ∧ o1 !! "type" = Some (VStr "Feature"))
      as (o1 & -> & Ht1).
    { destruct (stamp h 0 _); [|discriminate Hpf'].
      rewrite bind_Ok in Hpf'. destruct (polygonal _).
      - destruct (calculateApproximateArea h _); [|discriminate Hpf'].
        rewrite bind_Ok in Hpf'. apply Ok_inj in Hpf'. subst d1.
        eexists. split; [reflexivity|]. by rewrite lookup_insert_ne.
      - apply Ok_inj in Hpf'. subst d1.
        eexists. split; [reflexivity|]. by rewrite lookup_insert_ne. }
    rewrite (JS_processGeoJSON_Feature h' o1 Ht1), Hst.
    by apply (processFeature_fixed h h' same_to_number 0 0 o).
  - destruct (processGeoJSON_other h' (reparsed data) t) as [_ E]; try done.
    + apply reparsed_serialized.
    + by rewrite (reparsed_stable data).
    + by rewrite (reparsed_stable data) in E.
Qed.

End JavaScriptAgain.

Lemma JS_processGeoJSON_idempotent_witness :
  JS.processGeoJSON later_host sample_collection_processed
  = Ok sample_collection_processed.
Proof.
  apply (JS_processGeoJSON_idempotent example_host later_host
           (λ _, eq_refl) (λ _, ltac:(discriminate)) sample_collection).
  - vm_compute. reflexivity.
  - vm_compute. reflexivity.
Defined.

(** ** The cache of the loader *)

Section Loader.

Variable process : value → result value.
Variable w : web.

(** The three ways a call goes: the cache has the document; or a request
    is made, whose answer is a valid document that [process] returns on,
    and the result is cached; or a request is made and the call is
    rejected. *)
Lemma loadGeoJSON_cases url s :
  (∃ d, cache s !! url = Some d
        ∧ loadGeoJSON process w url s = (Resolved d, s))
  ∨ (cache s !! url = None
     ∧ ∃ status data d,
         respond w (length (requests s)) url
         = Response true status (Body data)
         ∧ isValidGeoJSON data = Ok true
         ∧ process data = Ok d
         ∧ loadGeoJSON process w url s
           = (Resolved d,
              Loader (<[url:=d]> (cache s)) (url :: requests s) (logged s)))
  ∨ (cache s !! url = None
     ∧ ∃ cause,
         loadGeoJSON process w url s
         = (Rejected ("Failed to load data from " +:+ url +:+ ": " +:+ cause),
            Loader (cache s) (url :: requests s) (cause :: logged s))).
Proof.
  unfold loadGeoJSON, start.
  destruct (cache s !! url) as [d|] eqn:Ec; [left; by exists d|].
  right. unfold settle, failed. cbn [cache requests logged].
  destruct (respond w _ url) as [m|[] status [m|data]] eqn:Er; cbn [negb].
  all: try (right; split; [done|]; by eexists).
  destruct (isValidGeoJSON data) as [[]|e] eqn:Ev; cbn [negb].
  all: try (right; split; [done|]; by eexists).
  destruct (process data) as [d|e] eqn:Ep.
  - left. split; [done|]. by exists status, data, d.
  - right. split; [done|]. by eexists.
Qed.

Lemma loadGeoJSON_keeps url url' s d :
  cache s !! url = Some d →
  cache (loadGeoJSON process w url' s).2 !! url = Some d.
Proof.
  intros Hd.
  destruct (loadGeoJSON_cases url' s)
    as [(d' & _ & ->)|[(Hn & st & data & d' & _ & _ & _ & ->)
                      |(_ & cause & ->)]]; cbn [snd cache]; try done.
  rewrite lookup_insert_ne; [done|]. intros ->. congruence.
Qed.

Lemma loadGeoJSON_hit url s d :
  cache s !! url = Some d → loadGeoJSON process w url s = (Resolved d, s).
Proof. intros Hd. unfold loadGeoJSON, start. by rewrite Hd. Qed.

End Loader.

Lemma loads_keeps s s' url d :
  loads s s' → cache s !! url = Some d → cache s' !! url = Some d.
Proof.
  induction 1 as [|process w url' s s' _ IH]; [done|].
  intros Hd. by apply loadGeoJSON_keeps, IH.
Qed.

(** X15: As long as calls do not overlap and [clearCache] is not called, the
    cache is never refreshed: once a call for [url] has resolved to a
    document, every later call for [url], after any calls for any URLs,
    each at its own time and whatever the network answers, resolves to
    that document, and it makes no request, logs nothing and leaves the
    loader as it is.  After [clearCache] the cache has no document for
    [url], and the next call for it makes a request. *)
Theorem loadGeoJSON_cached process w url s d s' process' w' :
  (loadGeoJSON process w url s).1 = Resolved d →
  loads (loadGeoJSON process w url s).2 s' →
  loadGeoJSON process' w' url s' = (Resolved d, s')
  ∧ cache (clearCache s') !! url = None
  ∧ requests (loadGeoJSON process' w' url (clearCache s')).2
    = url :: requests s'.
Proof.
  intros H Hloads. split; [|split; [done|]].
  - apply loadGeoJSON_hit, (loads_keeps _ _ _ _ Hloads).
    destruct (loadGeoJSON_cases process w url s)
      as [(d' & Hd & E)|[(Hn & st & data & d' & _ & _ & _ & E)
                        |(_ & cause & E)]];
      rewrite E in H |- *; cbn [fst snd cache] in *; try discriminate H.
    + injection H as <-. done.
    + injection H as <-. apply lookup_insert_eq.
  - destruct (loadGeoJSON_cases process' w' url (clearCache s'))
      as [(d' & Hd & _)|[(_ & st & data & d' & _ & _ & _ & E)
                        |(_ & cause & E)]].
    + done.
    + by rewrite E.
    + by rewrite E.
Qed.

(** X16: A call that is rejected: the cache had no entry for the URL and has
    none, the call has made one request and logged one message, and the
    error it throws has the text [Failed to load data from], the URL, a
    colon and the message logged. *)
Theorem loadGeoJSON_rejected process w url s msg :
  (loadGeoJSON process w url s).1 = Rejected msg →
  cache (loadGeoJSON process w url s).2 = cache s
  ∧ cache s !! url = None
  ∧ requests (loadGeoJSON process w url s).2 = url :: requests s
  ∧ ∃ cause,
      logged (loadGeoJSON process w url s).2 = cause :: logged s
      ∧ msg = "Failed to load data from " +:+ url +:+ ": " +:+ cause.
Proof.
  intros H.
  destruct (loadGeoJSON_cases process w url s)
    as [(d' & Hd & E)|[(Hn & st & data & d' & _ & _ & _ & E)
                      |(Hn & cause & E)]];
    rewrite E in H |- *; cbn [fst snd cache requests logged] in *;
    try discriminate H.
  injection H as <-. repeat split; try done. by exists cause.
Qed.

(** X17: Two calls for one URL that overlap, the second starting before the
    answer to the first has come: both make a request; and when both
    resolve, the cache has the document of the call that is settled
    last. *)
Theorem overlapping_calls process process' w url s a1 a2
    s1 s2 s3 s4 r1 r2 d1 d2 :
  cache s !! url = None →
  start url s = (r1, s1) →
  start url s1 = (r2, s2) →
  settle process w url a1 s2 = (Resolved d1, s3) →
  settle process' w url a2 s3 = (Resolved d2, s4) →
  r1 = Pending (length (requests s))
  ∧ r2 = Pending (S (length (requests s)))
  ∧ requests s4 = url :: url :: requests s
  ∧ cache s4 !! url = Some d2.
Proof.
  intros Hn. unfold start. rewrite Hn. intros [= <- <-].
  cbn [cache requests logged]. rewrite Hn. intros [= <- <-].
  assert (Hsettle : ∀ p a st d st',
             settle p w url a st = (Resolved d, st') →
             requests st' = requests st ∧ cache st' !! url = Some d).
  { intros p a st d st'. unfold settle, failed.
    destruct a as [m|[] status [m|data]]; cbn [negb]; try discriminate.
    destruct (isValidGeoJSON data) as [[]|e]; cbn [negb]; try discriminate.
    destruct (p data) as [d'|e]; [|discriminate].
    intros [= <- <-]. cbn [cache requests]. split; [done|].
    apply lookup_insert_eq. }
  intros [H3 _]%Hsettle [H4 Hc]%Hsettle.
  repeat split; [|done]. by rewrite H4, H3.
Qed.

(** The document is loaded at [example_host]; then, at [later_host],
    another URL is asked for, which fails, and the same URL again. *)
Lemma loadGeoJSON_cached_witness :
  let s' :=
    (loadGeoJSON (TS.processGeoJSON later_host) example_web
       "./wildfire_forecast_15min.geojson"
       (loadGeoJSON (TS.processGeoJSON later_host) example_web
          "./other.geojson"
          (loadGeoJSON (TS.processGeoJSON example_host) example_web
             "./wildfire_forecast_15min.geojson" new_loader).2).2).2 in
  loadGeoJSON (JS.processGeoJSON later_host) example_web
    "./wildfire_forecast_15min.geojson" s'
  = (Resolved sample_collection_processed, s')
  ∧ cache (clearCache s') !! "./wildfire_forecast_15min.geojson" = None
  ∧ requests
      (loadGeoJSON (JS.processGeoJSON later_host) example_web
         "./wildfire_forecast_15min.geojson" (clearCache s')).2
    = "./wildfire_forecast_15min.geojson" :: requests s'.
Proof.
  apply (loadGeoJSON_cached (TS.processGeoJSON example_host) example_web
           "./wildfire_forecast_15min.geojson" new_loader
           sample_collection_processed).
  - vm_compute. reflexivity.
  - apply loads_call, loads_call, loads_none.
Defined.

Lemma loadGeoJSON_rejected_witness :
  cache (loadGeoJSON (TS.processGeoJSON example_host) example_web
           "./other.geojson" new_loader).2 = cache new_loader
  ∧ cache new_loader !! "./other.geojson" = None
  ∧ requests (loadGeoJSON (TS.processGeoJSON example_host) example_web
                "./other.geojson" new_loader).2
    = "./other.geojson" :: requests new_loader
  ∧ ∃ cause,
      logged (loadGeoJSON (TS.processGeoJSON example_host) example_web
                "./other.geojson" new_loader).2
      = cause :: logged new_loader
      ∧ "Failed to load data from ./other.geojson: HTTP error! status: 404"
        = "Failed to load data from " +:+ "./other.geojson" +:+ ": "
          +:+ cause.
Proof.
  apply (loadGeoJSON_rejected (TS.processGeoJSON example_host) example_web
           "./other.geojson" new_loader).
  vm_compute. reflexivity.
Defined.

Lemma overlapping_calls_witness :
  Pending 0 = Pending (length (requests new_loader))
  ∧ Pending 1 = Pending (S (length (requests new_loader)))
  ∧ requests
      (Loader {[ "./wildfire_forecast_15min.geojson"
                 := stamped_collection_once ]}
              [ "./wildfire_forecast_15min.geojson";
                "./wildfire_forecast_15min.geojson" ] [])
    = "./wildfire_forecast_15min.geojson"
      :: "./wildfire_forecast_15min.geojson" :: requests new_loader
  ∧ cache
      (Loader {[ "./wildfire_forecast_15min.geojson"
                 := stamped_collection_once ]}
              [ "./wildfire_forecast_15min.geojson";
                "./wildfire_forecast_15min.geojson" ] [])
    !! "./wildfire_forecast_15min.geojson"
    = Some stamped_collection_once.
Proof.
  apply (overlapping_calls
           (TS.processGeoJSON example_host) (TS.processGeoJSON example_host)
           example_web "./wildfire_forecast_15min.geojson" new_loader
           (Response true 200 (Body sample_collection))
           (Response true 200 (Body stamped_collection))
           (Loader ∅ ["./wildfire_forecast_15min.geojson"] [])
           (Loader ∅ [ "./wildfire_forecast_15min.geojson";
                       "./wildfire_forecast_15min.geojson" ] [])
           (Loader {[ "./wildfire_forecast_15min.geojson"
                      := sample_collection_processed ]}
                   [ "./wildfire_forecast_15min.geojson";
                     "./wildfire_forecast_15min.geojson" ] [])
           _ _ _ sample_collection_processed stamped_collection_once);
    vm_compute; reflexivity.
Defined.

(** X18: A response that is [ok] and whose document fails validation: the call
    is rejected, with the message [Invalid GeoJSON format], whatever
    [processGeoJSON] would do with the document; nothing is cached. *)
Theorem loadGeoJSON_invalid process w url s status data :
  cache s !! url = None →
  respond w (length (requests s)) url = Response true status (Body data) →
  rejected data →
  loadGeoJSON process w url s
  = (Rejected ("Failed to load data from " +:+ url
               +:+ ": Invalid GeoJSON format"),
     Loader (cache s) (url :: requests s)
            ("Invalid GeoJSON format" :: logged s)).
Proof.
  intros Hn Hr Hrej. unfold loadGeoJSON, start. rewrite Hn.
  unfold settle. cbn [cache requests logged]. rewrite Hr. cbn [negb].
  destruct (isValidGeoJSON_cases data) as [[-> _]|[_ Hv]]; [done|].
  by destruct Hv.
Qed.

Lemma loadGeoJSON_invalid_witness :
  loadGeoJSON (TS.processGeoJSON example_host)
    {| respond := λ _ _, Response true 200 (Body (obj [("type", VStr "Map")]));
       message := λ _, "" |}
    "./a.geojson" new_loader
  = (Rejected ("Failed to load data from " +:+ "./a.geojson"
               +:+ ": Invalid GeoJSON format"),
     Loader (cache new_loader) ("./a.geojson" :: requests new_loader)
            ("Invalid GeoJSON format" :: logged new_loader)).
Proof.
  apply (loadGeoJSON_invalid (TS.processGeoJSON example_host) _
           "./a.geojson" new_loader 200 (obj [("type", VStr "Map")])).
  - reflexivity.
  - reflexivity.
  - right. right. left. exists (VStr "Map"). split; [reflexivity|].
    intros (s & [= <-] & Hs). revert Hs.
    by apply (bool_decide_eq_false_1 ("Map" ∈ validTypes)).
Defined.


(** X20: What the cache of a loader has, in the TypeScript edition and as long
    as calls do not overlap: under every URL, a document that
    [processGeoJSON] returned, at some time, for a document that passed
    validation; that document is a FeatureCollection with an array of
    features; and a request was made for the URL. *)
Theorem TS_cache_invariant s :
  TS_reachable s →
  map_Forall
    (λ url d,
       url ∈ requests s
       ∧ (∃ h data, isValidGeoJSON data = Ok true
                    ∧ TS.processGeoJSON h data = Ok d)
       ∧ get d "type" = Ok (VStr "FeatureCollection")
       ∧ ∃ fs, get d "features" = Ok (arr fs))
    (cache s).
Proof.
  induction 1 as [|h w url s Hs IH|s Hs IH].
  - apply map_Forall_empty.
  - destruct (loadGeoJSON_cases (TS.processGeoJSON h) w url s)
      as [(d' & Hd & ->)|[(Hn & st & data & d' & _ & Hv & Hp & ->)
                         |(Hn & cause & ->)]];
      cbn [snd cache requests].
    + done.
    + apply map_Forall_insert_2.
      * split; [left|]. split; [by exists h, data|].
        destruct (TS_processGeoJSON_features h data d' Hp)
          as (o & fs & -> & Ht & Hf & _).
        cbn [get]. rewrite Ht, Hf. split; [done|]. by exists fs.
      * intros u d Hu. destruct (IH u d Hu) as (Hin & Hrest).
        split; [by right|done].
    + intros u d Hu. destruct (IH u d Hu) as (Hin & Hrest).
      split; [by right|done].
  - apply map_Forall_empty.
Qed.

Lemma TS_cache_invariant_witness :
  map_Forall
    (λ url d,
       url ∈ requests
               (loadGeoJSON (TS.processGeoJSON example_host) example_web
                  "./wildfire_forecast_15min.geojson" new_loader).2
       ∧ (∃ h data, isValidGeoJSON data = Ok true
                    ∧ TS.processGeoJSON h data = Ok d)
       ∧ get d "type" = Ok (VStr "FeatureCollection")
       ∧ ∃ fs, get d "features" = Ok (arr fs))
    (cache (loadGeoJSON (TS.processGeoJSON example_host) example_web
              "./wildfire_forecast_15min.geojson" new_loader).2).
Proof.
  apply (TS_cache_invariant
           (loadGeoJSON (TS.processGeoJSON example_host) example_web
              "./wildfire_forecast_15min.geojson" new_loader).2).
  apply reach_load, reach_new.
Defined.

(** ** The keyboard *)

Lemma toLowerCase_f key : toLowerCase key = "f" ↔ key = "f" ∨ key = "F".
Proof.
  split.
  - destruct key as [|c [|c' key]]; try discriminate.
    cbn [toLowerCase]. intros [= H].
    destruct c as [[] [] [] [] [] [] [] []]; try discriminate H; auto.
  - by intros [->| ->].
Qed.

Lemma toLowerCase_question key : toLowerCase key = "?" ↔ key = "?".
Proof.
  split.
  - destruct key as [|c [|c' key]]; try discriminate.
    cbn [toLowerCase]. intros [= H].
    destruct c as [[] [] [] [] [] [] [] []]; try discriminate H; auto.
  - by intros ->.
Qed.

(** X21: The keys of [UIControls]: the listener does nothing when the target
    of the event is an [INPUT] or a [TEXTAREA]; otherwise it fits the map
    for the keys [f] and [F] and no other, closes the popup for the key
    [Escape] in any case of its letters, shows the help for [?], and does
    nothing for any other key. *)
Theorem onKeydown_keys tagName key :
  (onKeydown tagName key = Some FitToBounds ↔
     is_string "INPUT" tagName || is_string "TEXTAREA" tagName = false
     ∧ (key = "f" ∨ key = "F"))
  ∧ (onKeydown tagName key = Some ClosePopup ↔
       is_string "INPUT" tagName || is_string "TEXTAREA" tagName = false
       ∧ toLowerCase key = "escape")
  ∧ (onKeydown tagName key = Some ShowHelp ↔
       is_string "INPUT" tagName || is_string "TEXTAREA" tagName = false
       ∧ key = "?").
Proof.
  unfold onKeydown.
  pose proof (toLowerCase_f key) as Hf.
  pose proof (toLowerCase_question key) as Hq.
  destruct (is_string "INPUT" tagName || is_string "TEXTAREA" tagName).
  { repeat split; try discriminate; by intros [? _]. }
  cbn zeta. revert Hf Hq. generalize (toLowerCase key). intros k Hf Hq.
  repeat case_decide; try subst k;
    intuition (try discriminate; try congruence).
Qed.

(** ** The names in a popup *)

Lemma capitalize_length b s : String.length (capitalize b s) = String.length s.
Proof.
  revert b. induction s as [|c s IH]; intros b; [done|].
  cbn [capitalize String.length]. by rewrite IH.
Qed.

Lemma underscores_to_spaces_length s :
  String.length (underscores_to_spaces s) = String.length s.
Proof. induction s as [|c s IH]; [done|]. cbn. by rewrite IH. Qed.

Lemma lower_upper_ascii c : lower_ascii (upper_ascii c) = lower_ascii c.
Proof. by destruct c as [[] [] [] [] [] [] [] []]. Qed.

Lemma is_word_upper_ascii c : is_word (upper_ascii c) = is_word c.
Proof. by destruct c as [[] [] [] [] [] [] [] []]. Qed.

Lemma upper_ascii_idemp c : upper_ascii (upper_ascii c) = upper_ascii c.
Proof. by destruct c as [[] [] [] [] [] [] [] []]. Qed.

Lemma toLowerCase_capitalize b s :
  toLowerCase (capitalize b s) = toLowerCase s.
Proof.
  revert b. induction s as [|c s IH]; intros b; [done|].
  cbn [capitalize toLowerCase]. rewrite IH.
  destruct (b && is_word c); [by rewrite lower_upper_ascii|done].
Qed.

Lemma capitalize_idemp b s : capitalize b (capitalize b s) = capitalize b s.
Proof.
  revert b. induction s as [|c s IH]; intros b; [done|].
  cbn [capitalize]. destruct (b && is_word c) eqn:E.
  - rewrite is_word_upper_ascii, E, upper_ascii_idemp. by rewrite IH.
  - rewrite E. by rewrite IH.
Qed.

Lemma upper_ascii_underscore c :
  Ascii.eqb c "_" = false → Ascii.eqb (upper_ascii c) "_" = false.
Proof. by destruct c as [[] [] [] [] [] [] [] []]. Qed.

Lemma capitalize_no_underscore b s :
  no_underscore s = true → no_underscore (capitalize b s) = true.
Proof.
  revert b. induction s as [|c s IH]; intros b; [done|].
  cbn [capitalize no_underscore].
  intros [Hc Hs]%andb_prop. apply negb_true_iff in Hc.
  rewrite (IH _ Hs), andb_true_r. apply negb_true_iff.
  destruct (b && is_word c); [by apply upper_ascii_underscore|done].
Qed.

Lemma underscores_to_spaces_no_underscore s :
  no_underscore (underscores_to_spaces s) = true.
Proof.
  induction s as [|c s IH]; [done|].
  cbn [underscores_to_spaces no_underscore]. rewrite IH, andb_true_r.
  by destruct (Ascii.eqb c "_") eqn:E; [|rewrite E].
Qed.

Lemma underscores_to_spaces_id s :
  no_underscore s = true → underscores_to_spaces s = s.
Proof.
  induction s as [|c s IH]; [done|]. cbn [no_underscore underscores_to_spaces].
  intros [Hc Hs]%andb_prop. apply negb_true_iff in Hc.
  by rewrite Hc, (IH Hs).
Qed.

(** X22: The name that a popup shows for a property: it has the length of the
    key and no underscore; it differs from the key, with a space for
    every underscore, in the case of letters only; and it is shown as it
    is when it is itself a key. *)
Theorem displayKey_shape key :
  String.length (displayKey key) = String.length key
  ∧ no_underscore (displayKey key) = true
  ∧ toLowerCase (displayKey key) = toLowerCase (underscores_to_spaces key)
  ∧ displayKey (displayKey key) = displayKey key.
Proof.
  unfold displayKey. split; [|split; [|split]].
  - by rewrite capitalize_length, underscores_to_spaces_length.
  - apply capitalize_no_underscore, underscores_to_spaces_no_underscore.
  - apply toLowerCase_capitalize.
  - rewrite (underscores_to_spaces_id (capitalize _ _)).
    + apply capitalize_idemp.
    + apply capitalize_no_underscore, underscores_to_spaces_no_underscore.
Qed.

(** ** Rings with no point or one *)

(** X23: [getPolygonCentroid] does no arithmetic on a ring with fewer than two
    positions: for one position it returns the first two members of the
    position as they are; for none it throws, at [coordinates[0][0]]. *)
Theorem getPolygonCentroid_short h position own x y :
  get_index position 0 = Ok x →
  get_index position 1 = Ok y →
  getPolygonCentroid h (VArr [position] own) = Ok (arr [x; y])
  ∧ getPolygonCentroid h (VArr [] own) = Throw TypeError.
Proof.
  intros Hx Hy. split; [|reflexivity].
  unfold getPolygonCentroid. cbn [get]. rewrite decide_True by done.
  rewrite bind_Ok. cbn [ToNumber]. rewrite bind_Ok.
  change (centroid_loop h (length_number (length [position]) - 1) 0
            (entries (VArr [position] own)) (0, 0, 0)%float)
    with (Ok (0, 0, 0)%float : result (float * float * float)).
  rewrite bind_Ok. change (0 / 2 =? 0)%float with true. cbn iota.
  cbn [get_index lookup list_lookup default from_option id].
  by rewrite bind_Ok, Hx, bind_Ok, Hy.
Qed.

Lemma getPolygonCentroid_short_witness :
  getPolygonCentroid example_host (VArr [point 3 4] ∅) = Ok (arr [VNum 3; VNum 4])
  ∧ getPolygonCentroid example_host (VArr [] ∅) = Throw TypeError.
Proof.
  apply (getPolygonCentroid_short example_host (point 3 4) ∅ (VNum 3) (VNum 4));
    reflexivity.
Defined.

(** ** The two editions *)

(** X24: The TypeScript edition returns what the JavaScript edition returns,
    made a collection: as it is for a FeatureCollection, as the one
    feature of a new collection for a Feature, and as the geometry of the
    one feature of a new collection otherwise; it throws what the
    JavaScript edition throws. *)
Theorem TS_of_JS h data :
  TS.processGeoJSON h data =
    (d ← JS.processGeoJSON h data;
     let type := match get (reparsed data) "type" with
                 | Ok type => type
                 | Throw _ => VUndefined
                 end in
     Ok (if is_string "FeatureCollection" type then d
         else if is_string "Feature" type
         then obj [ ("type", VStr "FeatureCollection");
                    ("features", arr [d]) ]
         else wrapped d)).
Proof.
  unfold TS.processGeoJSON, JS.processGeoJSON, JSON_roundtrip.
  destruct (serialized data); [|done]. rewrite !bind_Ok.
  destruct (get (reparsed data) "type") as [t|e]; [|done].
  rewrite !bind_Ok. cbn zeta.
  destruct (is_string "FeatureCollection" t).
  - destruct (get (reparsed data) "features") as [f|e]; [|done].
    rewrite !bind_Ok.
    destruct f as [| | | | |fs own| |]; try done.
    destruct (processFeatures h 0 fs) as [fs'|e]; [|done].
    rewrite !bind_Ok. by destruct (set_prop _ _ _).
  - destruct (is_string "Feature" t); [|done].
    by destruct (processFeature h 0 _).
Qed.

(** ** The cells of the result *)

Module StoreResult.
Import Store StoreVocabulary StoreFacts StoreReach.

(** From a value that does not refer to a cell of [st], in a store that
    extends [st], no cell of [st] is reached. *)
Lemma reachable_new st st' v l :
  extends st st' → fresh (length st) v → reachable st' v l →
  (length st ≤ l)%nat.
Proof.
  intros (new & -> & Hnew) Hv Hr.
  induction Hr as [l|l c v l' Hl Hc _ IH]; [exact Hv|].
  apply IH. cbn [fresh] in Hv.
  rewrite lookup_app_r in Hl by done.
  apply list_elem_of_lookup_2 in Hl.
  pose proof (proj1 (Forall_forall _ _) Hnew c Hl) as Hfc.
  destruct c as [elems own|props]; cbn [fresh_cell holds] in Hfc, Hc.
  - destruct Hfc as [He Ho]. destruct Hc as [Hin|[k Hk]].
    + by apply (proj1 (Forall_forall _ _) He).
    + by apply (Ho k).
  - destruct Hc as [k Hk]. by apply (Hfc k).
Qed.

(** X25: In either edition, no cell of the store in which [processGeoJSON] is
    called is reached from the document it returns, through elements and
    properties at any depth: the document is made of cells that the call
    has allocated, and shares no object or array with the document passed
    in, nor with any other cell of the caller.  (The objects built into
    the engine are no cells of the store: a [risk_level] that names an
    inherited member of the table is replaced by that object itself.) *)
Theorem processGeoJSON_result_new h data st :
  (∀ r l,
     (TS.processGeoJSON h data st).1 = Ok r →
     reachable (store_after (TS.processGeoJSON h data) st) r l →
     (length st ≤ l)%nat)
  ∧ (∀ r l,
       (JS.processGeoJSON h data st).1 = Ok r →
       reachable (store_after (JS.processGeoJSON h data) st) r l →
       (length st ≤ l)%nat).
Proof.
  split; intros r l Hr.
  - destruct (keeps_TS_processGeoJSON st h data st (extends_refl st))
      as [He Hf].
    apply (reachable_new st); [exact He|by apply Hf].
  - destruct (keeps_JS_processGeoJSON st h data st (extends_refl st))
      as [He Hf].
    apply (reachable_new st); [exact He|by apply Hf].
Qed.

(** The bare feature [point_feature], parsed into an empty store, takes
    three cells; the collection returned is the cell 9 and its array of
    features the cell 8. *)
Lemma processGeoJSON_result_new_witness :
  let st := (parse point_feature []).2 in
  let data := (parse point_feature []).1 in
  (TS.processGeoJSON example_host data st).1 = Ok (SRef 9)
  ∧ reachable (store_after (TS.processGeoJSON example_host data) st)
      (SRef 9) 8
  ∧ length st = 3%nat
  ∧ (length st ≤ 8)%nat.
Proof.
  intros st data.
  assert (Hr : (TS.processGeoJSON example_host data st).1 = Ok (SRef 9))
    by (vm_compute; reflexivity).
  assert (Hreach : reachable
                     (store_after (TS.processGeoJSON example_host data) st)
                     (SRef 9) 8).
  { eapply reach_member; [vm_compute; reflexivity| |apply reach_cell].
    exists "features". vm_compute. reflexivity. }
  split; [exact Hr|]. split; [exact Hreach|]. split; [reflexivity|].
  exact (proj1 (processGeoJSON_result_new example_host data st)
           (SRef 9) 8%nat Hr Hreach).
Defined.

End StoreResult.
